(** * Discord gateway lifecycle: stall watchdog, teardown and ordered dispatch

    A shallow embedding of [src/discord/monitor/provider.lifecycle.ts]
    ([runDiscordGatewayLifecycle] and the closures it creates), of the
    ordered dispatcher exercised by [src/discord/monitor/listeners.test.ts],
    and of the module that resolves the bootstrap files of an agent run
    (module [Bootstrap]).

    The TypeScript code is a single asynchronous function whose closures
    share a handful of mutable variables and talk to collaborators through
    callbacks.  The embedding keeps that shape:

    - the mutable variables and the objects the function holds references
      to (the gateway handle, the emitter, the abort signal, the timer
      table) are the fields of one [World] record that is threaded through
      every operation;
    - every call into a collaborator and every write to an object the
      caller can see is appended to [trace], in program order;
    - what the outside does while the function is suspended at an [await]
      is given by a list of [EnvEvent]s. *)

From Stdlib Require Import ZArith String List Bool Lia.
From stdpp Require Import base tactics option numbers strings list.
Import ListNotations.

Local Open Scope string_scope.
Local Open Scope list_scope.

(** ** JavaScript values *)

(** An error value ([unknown] in the source).  [thrown_text] is what
    [String(err)] yields; [thrown_tag] tells apart values that print alike. *)
Record Thrown : Type := mkThrown {
  thrown_tag : nat;
  thrown_text : string
}.

#[global] Instance Thrown_eq_dec : EqDecision Thrown.
Proof. solve_decision. Defined.

Fixpoint startsWith (needle hay : string) : bool :=
  match needle, hay with
  | EmptyString, _ => true
  | String _ _, EmptyString => false
  | String a needle', String b hay' =>
      if Ascii.eqb a b then startsWith needle' hay' else false
  end.

(** [hay.includes(needle)] *)
Fixpoint includes (hay needle : string) : bool :=
  startsWith needle hay
  || match hay with
     | EmptyString => false
     | String _ hay' => includes hay' needle
     end.

(** ** The gateway handle *)

(** [gateway.state] *)
Record ResumeState : Type := mkResumeState {
  sessionId : option string;
  resumeGatewayUrl : option string;
  stateSequence : option Z
}.

(** The fields of the gateway plugin that the lifecycle reads or writes.
    [reconnectMaxAttempts] is [gateway.options.reconnect.maxAttempts]. *)
Record GatewayPlugin : Type := mkGateway {
  isConnected : bool;
  state : option ResumeState;
  sequence : option Z;
  reconnectMaxAttempts : option Z
}.

(** ** Timers, listeners and the environment *)

(** The two closures [onGatewayDebug] hands to the timer runtime.  Both
    capture the [sawConnected] variable of their watch cycle; [cell] is the
    index of that variable in [World.sawConnected]. *)
Inductive Callback : Type :=
  | HelloConnectedPoll (cell : nat)
  | HelloTimeout (cell : nat).

Record Timer : Type := mkTimer {
  timerId : nat;
  timerRepeats : bool;
  timerDelay : Z;
  timerCallback : Callback
}.

Inductive DebugListener : Type := OnGatewayDebug.

Record Emitter : Type := mkEmitter {
  debugListeners : list DebugListener;
  errorOnceListeners : nat
}.

(** An ["abort"] listener and its [once] option. *)
Inductive AbortListener : Type := OnAbort (once : bool).

Definition listenerOnce (l : AbortListener) : bool :=
  match l with OnAbort once => once end.

Record AbortSignal : Type := mkAbortSignal {
  aborted : bool;
  abortListeners : list AbortListener
}.

(** Messages handed to [runtime.log] / [runtime.error]. *)
Inductive LogLine : Type :=
  | StallLine (forceFreshIdentify : bool) (timeoutMs : Z) (stalls maxStalls : nat)
  | DisallowedIntentsLine
  | GatewayErrorLine (text : string).

(** Calls into collaborators and writes to caller-visible objects. *)
Inductive Effect : Type :=
  | RegisterGateway (accountId : string)
  | UnregisterGateway (accountId : string)
  | AttachGatewayLogging
  | StopGatewayLogging
  | EmitterOnDebug
  | EmitterRemoveDebug
  | EmitterOnceError
  | AbortAddListener
  | AbortRemoveListener
  | WriteReconnect (maxAttempts : Z)
  | GatewayDisconnect
  | GatewayConnect (resume : bool)
  | WriteSessionIdNull
  | WriteResumeGatewayUrlNull
  | WriteStateSequenceNull
  | WriteSequenceNull
  | SetInterval (id : nat) (ms : Z)
  | SetTimeout (id : nat) (ms : Z)
  | ClearInterval (id : nat)
  | ClearTimeout (id : nat)
  | ClearHelloWatch
  | RuntimeLog (line : LogLine)
  | RuntimeError (line : LogLine)
  | ApprovalsStart
  | ApprovalsStop
  | PendingErrorsCleared
  | WaitForGatewayStop
  | ReleaseEarlyGatewayErrorGuard
  | VoiceManagerDestroy
  | VoiceManagerRefCleared
  | ThreadBindingsStop.

#[global] Instance LogLine_eq_dec : EqDecision LogLine.
Proof. solve_decision. Defined.

#[global] Instance Effect_eq_dec : EqDecision Effect.
Proof. solve_decision. Defined.

(** What the outside world can do while the lifecycle is suspended. *)
Inductive EnvEvent : Type :=
  | EnvDebug (msg : string)      (* emitter.emit("debug", msg) *)
  | EnvError (err : Thrown)      (* emitter.emit("error", err) *)
  | EnvTimer (id : nat)          (* the timer runtime runs timer [id] *)
  | EnvConnected (b : bool)      (* the gateway library sets isConnected *)
  | EnvAbort                     (* an "abort" event reaches the signal *)
  | EnvStreamFailure (err : Thrown). (* the wait primitive itself fails *)

(** ** The world *)

Record World : Type := mkWorld {
  gateway : option GatewayPlugin;
  gatewayEmitter : option Emitter;
  abortSignal : option AbortSignal;
  pendingGatewayErrors : option (list Thrown);
  voiceManagerRef : bool;
  timers : list Timer;
  nextTimerId : nat;
  sawConnected : list bool;
  helloTimeoutId : option nat;
  helloConnectedPollId : option nat;
  consecutiveHelloStalls : nat;
  sawDisallowedIntents : bool;
  trace : list Effect
}.

Definition setGateway (g : option GatewayPlugin) (w : World) : World :=
  mkWorld g (gatewayEmitter w) (abortSignal w) (pendingGatewayErrors w)
    (voiceManagerRef w) (timers w) (nextTimerId w) (sawConnected w)
    (helloTimeoutId w) (helloConnectedPollId w) (consecutiveHelloStalls w)
    (sawDisallowedIntents w) (trace w).

Definition setGatewayEmitter (e : option Emitter) (w : World) : World :=
  mkWorld (gateway w) e (abortSignal w) (pendingGatewayErrors w)
    (voiceManagerRef w) (timers w) (nextTimerId w) (sawConnected w)
    (helloTimeoutId w) (helloConnectedPollId w) (consecutiveHelloStalls w)
    (sawDisallowedIntents w) (trace w).

Definition setAbortSignal (s : option AbortSignal) (w : World) : World :=
  mkWorld (gateway w) (gatewayEmitter w) s (pendingGatewayErrors w)
    (voiceManagerRef w) (timers w) (nextTimerId w) (sawConnected w)
    (helloTimeoutId w) (helloConnectedPollId w) (consecutiveHelloStalls w)
    (sawDisallowedIntents w) (trace w).

Definition setPendingGatewayErrors (q : option (list Thrown)) (w : World) : World :=
  mkWorld (gateway w) (gatewayEmitter w) (abortSignal w) q
    (voiceManagerRef w) (timers w) (nextTimerId w) (sawConnected w)
    (helloTimeoutId w) (helloConnectedPollId w) (consecutiveHelloStalls w)
    (sawDisallowedIntents w) (trace w).

Definition setVoiceManagerRef (b : bool) (w : World) : World :=
  mkWorld (gateway w) (gatewayEmitter w) (abortSignal w) (pendingGatewayErrors w)
    b (timers w) (nextTimerId w) (sawConnected w)
    (helloTimeoutId w) (helloConnectedPollId w) (consecutiveHelloStalls w)
    (sawDisallowedIntents w) (trace w).

Definition setTimers (ts : list Timer) (w : World) : World :=
  mkWorld (gateway w) (gatewayEmitter w) (abortSignal w) (pendingGatewayErrors w)
    (voiceManagerRef w) ts (nextTimerId w) (sawConnected w)
    (helloTimeoutId w) (helloConnectedPollId w) (consecutiveHelloStalls w)
    (sawDisallowedIntents w) (trace w).

Definition setNextTimerId (n : nat) (w : World) : World :=
  mkWorld (gateway w) (gatewayEmitter w) (abortSignal w) (pendingGatewayErrors w)
    (voiceManagerRef w) (timers w) n (sawConnected w)
    (helloTimeoutId w) (helloConnectedPollId w) (consecutiveHelloStalls w)
    (sawDisallowedIntents w) (trace w).

Definition setSawConnected (cells : list bool) (w : World) : World :=
  mkWorld (gateway w) (gatewayEmitter w) (abortSignal w) (pendingGatewayErrors w)
    (voiceManagerRef w) (timers w) (nextTimerId w) cells
    (helloTimeoutId w) (helloConnectedPollId w) (consecutiveHelloStalls w)
    (sawDisallowedIntents w) (trace w).

Definition setHelloTimeoutId (id : option nat) (w : World) : World :=
  mkWorld (gateway w) (gatewayEmitter w) (abortSignal w) (pendingGatewayErrors w)
    (voiceManagerRef w) (timers w) (nextTimerId w) (sawConnected w)
    id (helloConnectedPollId w) (consecutiveHelloStalls w)
    (sawDisallowedIntents w) (trace w).

Definition setHelloConnectedPollId (id : option nat) (w : World) : World :=
  mkWorld (gateway w) (gatewayEmitter w) (abortSignal w) (pendingGatewayErrors w)
    (voiceManagerRef w) (timers w) (nextTimerId w) (sawConnected w)
    (helloTimeoutId w) id (consecutiveHelloStalls w)
    (sawDisallowedIntents w) (trace w).

Definition setConsecutiveHelloStalls (n : nat) (w : World) : World :=
  mkWorld (gateway w) (gatewayEmitter w) (abortSignal w) (pendingGatewayErrors w)
    (voiceManagerRef w) (timers w) (nextTimerId w) (sawConnected w)
    (helloTimeoutId w) (helloConnectedPollId w) n
    (sawDisallowedIntents w) (trace w).

Definition setSawDisallowedIntents (b : bool) (w : World) : World :=
  mkWorld (gateway w) (gatewayEmitter w) (abortSignal w) (pendingGatewayErrors w)
    (voiceManagerRef w) (timers w) (nextTimerId w) (sawConnected w)
    (helloTimeoutId w) (helloConnectedPollId w) (consecutiveHelloStalls w)
    b (trace w).

Definition setTrace (t : list Effect) (w : World) : World :=
  mkWorld (gateway w) (gatewayEmitter w) (abortSignal w) (pendingGatewayErrors w)
    (voiceManagerRef w) (timers w) (nextTimerId w) (sawConnected w)
    (helloTimeoutId w) (helloConnectedPollId w) (consecutiveHelloStalls w)
    (sawDisallowedIntents w) t.

(** Append one effect to the trace. *)
Definition emit (e : Effect) (w : World) : World :=
  setTrace (trace w ++ [e]) w.

(** ** The timer runtime *)

Definition removeTimer (id : nat) (ts : list Timer) : list Timer :=
  filter (fun t => timerId t ≠ id) ts.

Definition findTimer (id : nat) (ts : list Timer) : option Timer :=
  List.find (fun t => Nat.eqb (timerId t) id) ts.

(** [setInterval(cb, ms)] / [setTimeout(cb, ms)]: a fresh id, never 0, so
    the source's truthiness tests on ids hold for every id handed out. *)
Definition schedule (repeats : bool) (cb : Callback) (ms : Z) (w : World)
  : nat * World :=
  let id := nextTimerId w in
  let w1 := setNextTimerId (S id) w in
  let w2 := setTimers (timers w1 ++ [mkTimer id repeats ms cb]) w1 in
  (id, emit (if repeats then SetInterval id ms else SetTimeout id ms) w2).

Definition clearInterval (id : nat) (w : World) : World :=
  emit (ClearInterval id) (setTimers (removeTimer id (timers w)) w).

Definition clearTimeout (id : nat) (w : World) : World :=
  emit (ClearTimeout id) (setTimers (removeTimer id (timers w)) w).

(** ** The stall watchdog (lines 53-147 of provider.lifecycle.ts) *)

Definition HELLO_TIMEOUT_MS : Z := 30000.
Definition HELLO_CONNECTED_POLL_MS : Z := 250.
Definition MAX_CONSECUTIVE_HELLO_STALLS : nat := 3.

(** [gateway?.isConnected], as a truth value. *)
Definition gatewayIsConnected (w : World) : bool :=
  match gateway w with
  | Some g => isConnected g
  | None => false
  end.

Definition clearHelloWatch (w : World) : World :=
  let w0 := emit ClearHelloWatch w in
  let w1 :=
    match helloTimeoutId w0 with
    | Some id => setHelloTimeoutId None (clearTimeout id w0)
    | None => w0
    end in
  match helloConnectedPollId w1 with
  | Some id => setHelloConnectedPollId None (clearInterval id w1)
  | None => w1
  end.

Definition resetHelloStallCounter (w : World) : World :=
  setConsecutiveHelloStalls 0 w.

Definition clearResumeState (w : World) : World :=
  match gateway w with
  | None => w
  | Some g =>
      match state g with
      | None => w
      | Some st =>
          let st1 := mkResumeState None (resumeGatewayUrl st) (stateSequence st) in
          let st2 := mkResumeState (sessionId st1) None (stateSequence st1) in
          let st3 := mkResumeState (sessionId st2) (resumeGatewayUrl st2) None in
          let g' := mkGateway (isConnected g) (Some st3) None (reconnectMaxAttempts g) in
          emit WriteSequenceNull
            (emit WriteStateSequenceNull
               (emit WriteResumeGatewayUrlNull
                  (emit WriteSessionIdNull (setGateway (Some g') w))))
      end
  end.

(** [gateway?.disconnect()] and [gateway?.connect(resume)]: methods of the
    gateway library, recorded as calls. *)
Definition gatewayDisconnect (w : World) : World :=
  match gateway w with
  | Some _ => emit GatewayDisconnect w
  | None => w
  end.

Definition gatewayConnect (resume : bool) (w : World) : World :=
  match gateway w with
  | Some _ => emit (GatewayConnect resume) w
  | None => w
  end.

(** The [setInterval] callback of a watch cycle (lines 108-118). *)
Definition helloConnectedPoll (cell : nat) (w : World) : World :=
  if negb (gatewayIsConnected w) then w
  else
    let w1 := setSawConnected (<[cell := true]> (sawConnected w)) w in
    let w2 := resetHelloStallCounter w1 in
    match helloConnectedPollId w2 with
    | Some id => setHelloConnectedPollId None (clearInterval id w2)
    | None => w2
    end.

(** The [setTimeout] callback of a watch cycle (lines 120-145). *)
Definition helloTimeout (cell : nat) (w : World) : World :=
  let w1 :=
    match helloConnectedPollId w with
    | Some id => setHelloConnectedPollId None (clearInterval id w)
    | None => w
    end in
  let w2 :=
    if default false (sawConnected w1 !! cell) || gatewayIsConnected w1 then
      resetHelloStallCounter w1
    else
      let w3 := setConsecutiveHelloStalls (consecutiveHelloStalls w1 + 1)%nat w1 in
      let forceFreshIdentify :=
        (MAX_CONSECUTIVE_HELLO_STALLS <=? consecutiveHelloStalls w3)%nat in
      let w4 :=
        emit (RuntimeLog (StallLine forceFreshIdentify HELLO_TIMEOUT_MS
                            (consecutiveHelloStalls w3)
                            MAX_CONSECUTIVE_HELLO_STALLS)) w3 in
      let w5 :=
        if forceFreshIdentify
        then resetHelloStallCounter (clearResumeState w4)
        else w4 in
      gatewayConnect (negb forceFreshIdentify) (gatewayDisconnect w5) in
  setHelloTimeoutId None w2.

Definition onGatewayDebug (message : string) (w : World) : World :=
  if includes message "WebSocket connection closed" then
    let w1 := if gatewayIsConnected w then resetHelloStallCounter w else w in
    clearHelloWatch w1
  else if negb (includes message "WebSocket connection opened") then w
  else
    let w1 := clearHelloWatch w in
    let cell := length (sawConnected w1) in
    let w2 := setSawConnected (sawConnected w1 ++ [gatewayIsConnected w1]) w1 in
    let '(pollId, w3) := schedule true (HelloConnectedPoll cell)
                           HELLO_CONNECTED_POLL_MS w2 in
    let w4 := setHelloConnectedPollId (Some pollId) w3 in
    let '(timeoutId, w5) := schedule false (HelloTimeout cell)
                              HELLO_TIMEOUT_MS w4 in
    setHelloTimeoutId (Some timeoutId) w5.

(** The timer runtime runs the callback of a live timer; a one-shot timer
    is spent before its callback runs, a cleared timer never runs. *)
Definition runCallback (cb : Callback) (w : World) : World :=
  match cb with
  | HelloConnectedPoll cell => helloConnectedPoll cell w
  | HelloTimeout cell => helloTimeout cell w
  end.

Definition fireTimer (id : nat) (w : World) : World :=
  match findTimer id (timers w) with
  | None => w
  | Some t =>
      let w1 := if timerRepeats t then w
                else setTimers (removeTimer id (timers w)) w in
      runCallback (timerCallback t) w1
  end.

(** ** Listeners on the abort signal and on the emitter *)

(** The [onAbort] closure (lines 38-45). *)
Definition onAbort (w : World) : World :=
  match gateway w with
  | None => w
  | Some g =>
      let w1 :=
        match gatewayEmitter w with
        | Some em =>
            emit EmitterOnceError
              (setGatewayEmitter
                 (Some (mkEmitter (debugListeners em) (S (errorOnceListeners em)))) w)
        | None => w
        end in
      let g' := mkGateway (isConnected g) (state g) (sequence g) (Some 0%Z) in
      let w2 := emit (WriteReconnect 0) (setGateway (Some g') w1) in
      gatewayDisconnect w2
  end.

(** [params.abortSignal?.addEventListener("abort", onAbort, { once: true })] *)
Definition addAbortListener (w : World) : World :=
  match abortSignal w with
  | None => w
  | Some s =>
      emit AbortAddListener
        (setAbortSignal
           (Some (mkAbortSignal (aborted s) (abortListeners s ++ [OnAbort true]))) w)
  end.

(** [params.abortSignal?.removeEventListener("abort", onAbort)] *)
Definition removeAbortListener (w : World) : World :=
  match abortSignal w with
  | None => w
  | Some s => emit AbortRemoveListener (setAbortSignal (Some (mkAbortSignal (aborted s) [])) w)
  end.

(** [gatewayEmitter?.on("debug", onGatewayDebug)] *)
Definition addDebugListener (w : World) : World :=
  match gatewayEmitter w with
  | None => w
  | Some em =>
      emit EmitterOnDebug
        (setGatewayEmitter
           (Some (mkEmitter (debugListeners em ++ [OnGatewayDebug])
                    (errorOnceListeners em))) w)
  end.

(** [gatewayEmitter?.removeListener("debug", onGatewayDebug)]: drops one
    registration of the listener, the most recent one. *)
Definition removeDebugListener (w : World) : World :=
  match gatewayEmitter w with
  | None => w
  | Some em =>
      emit EmitterRemoveDebug
        (setGatewayEmitter
           (Some (mkEmitter (removelast (debugListeners em))
                    (errorOnceListeners em))) w)
  end.

(** An ["abort"] event reaches the signal: it is marked aborted, one-shot
    listeners are unregistered, and every listener that was registered runs. *)
Definition dispatchAbort (w : World) : World :=
  match abortSignal w with
  | None => w
  | Some s =>
      let keep := List.filter (fun l => negb (listenerOnce l)) (abortListeners s) in
      let w1 := setAbortSignal (Some (mkAbortSignal true keep)) w in
      fold_left (fun acc _ => onAbort acc) (abortListeners s) w1
  end.

(** What one environment event does to the world through the listeners and
    timers the lifecycle has registered. *)
Definition deliver (ev : EnvEvent) (w : World) : World :=
  match ev with
  | EnvDebug msg =>
      match gatewayEmitter w with
      | Some em => fold_left (fun acc _ => onGatewayDebug msg acc) (debugListeners em) w
      | None => w
      end
  | EnvError _ =>
      match gatewayEmitter w with
      | Some em => setGatewayEmitter (Some (mkEmitter (debugListeners em) 0)) w
      | None => w
      end
  | EnvTimer id => fireTimer id w
  | EnvConnected b =>
      match gateway w with
      | Some g =>
          setGateway (Some (mkGateway b (state g) (sequence g) (reconnectMaxAttempts g))) w
      | None => w
      end
  | EnvAbort => dispatchAbort w
  | EnvStreamFailure _ => w
  end.

Definition deliverAll (evs : list EnvEvent) (w : World) : World :=
  fold_left (fun acc ev => deliver ev acc) evs w.

(** ** Control flow: completions of a block *)

(** How a block of statements ends: it falls through, executes [return], or
    throws. *)
Inductive Completion (A : Type) : Type :=
  | Normal (a : A)
  | Returned
  | Threw (e : Thrown).
Arguments Normal {A} a.
Arguments Returned {A}.
Arguments Threw {A} e.

Definition M (A : Type) : Type := World -> Completion A * World.

#[global] Instance M_ret : MRet M := fun A a w => (Normal a, w).

#[global] Instance M_bind : MBind M := fun A B f m w =>
  match m w with
  | (Normal a, w1) => f a w1
  | (Returned, w1) => (Returned, w1)
  | (Threw e, w1) => (Threw e, w1)
  end.

Definition throw {A} (e : Thrown) : M A := fun w => (Threw e, w).
Definition returnEarly {A} : M A := fun w => (Returned, w).
Definition lift (f : World -> World) : M unit := fun w => (Normal tt, f w).

(** [try { body } catch (err) { handler err }] *)
Definition tryCatch {A} (body : M A) (handler : Thrown -> M A) : M A := fun w =>
  match body w with
  | (Threw e, w1) => handler e w1
  | other => other
  end.

(** [try { body } finally { cleanup }]: the cleanup runs whatever the body's
    completion is; an abrupt completion of the cleanup replaces it. *)
Definition tryFinally {A} (body : M A) (cleanup : M unit) : M A := fun w =>
  let '(c, w1) := body w in
  match cleanup w1 with
  | (Normal _, w2) => (c, w2)
  | (Returned, w2) => (Returned, w2)
  | (Threw e, w2) => (Threw e, w2)
  end.

(** The promise of an [async] function. *)
Inductive Settled : Type :=
  | Resolved
  | Rejected (e : Thrown).

Definition settle {A} (c : Completion A) : Settled :=
  match c with
  | Threw e => Rejected e
  | _ => Resolved
  end.

(** A synchronous call of a hook supplied by the caller: [None] when it
    returns, [Some e] when it throws [e]. *)
Definition call (eff : Effect) (result : option Thrown) : M unit := fun w =>
  match result with
  | None => (Normal tt, emit eff w)
  | Some e => (Threw e, emit eff w)
  end.

(** [await hook()]: the hook is called, the environment runs while the
    promise is pending, then the promise settles. *)
Definition await (eff : Effect) (during : list EnvEvent) (result : option Thrown)
  : M unit := fun w =>
  let w1 := deliverAll during (emit eff w) in
  match result with
  | None => (Normal tt, w1)
  | Some e => (Threw e, w1)
  end.

Definition getWorld : M World := fun w => (Normal w, w).

(** ** The lifecycle (lines 15-223) *)

(** The [params] object, together with what [client.getPlugin("gateway")]
    and [getDiscordGatewayEmitter(gateway)] return for it. *)
Record Params : Type := mkParams {
  accountId : string;
  (** [params.client.getPlugin("gateway")] *)
  clientGateway : option GatewayPlugin;
  (** whether [getDiscordGatewayEmitter(gateway)] is an emitter *)
  emitterPresent : bool;
  (** [params.abortSignal], with its [aborted] flag on entry *)
  signal : option bool;
  isDisallowedIntentsError : Thrown -> bool;
  (** [params.voiceManager] is not [null] *)
  voiceManager : bool;
  (** [params.voiceManagerRef.current] is not [null] on entry *)
  voiceManagerRefCurrent : bool;
  (** [params.execApprovalsHandler] is not [null] *)
  execApprovalsHandler : bool;
  (** [params.pendingGatewayErrors], as found on entry *)
  queuedGatewayErrors : option (list Thrown);
  (** [params.releaseEarlyGatewayErrorGuard] is given *)
  releaseEarlyGatewayErrorGuard : bool
}.

(** What the collaborators do during one run: the events that arrive while
    an awaited promise is pending, and how each fallible hook ends
    ([None]: returns or resolves; [Some e]: throws or rejects with [e]). *)
Record Env : Type := mkEnv {
  duringStart : list EnvEvent;
  startResult : option Thrown;
  duringWait : list EnvEvent;
  releaseResult : option Thrown;
  unregisterResult : option Thrown;
  stopLoggingResult : option Thrown;
  duringDestroy : list EnvEvent;
  destroyResult : option Thrown;
  duringStop : list EnvEvent;
  stopResult : option Thrown;
  threadStopResult : option Thrown
}.

(** The world on entry: nothing scheduled, nothing attached, empty trace. *)
Definition initialWorld (p : Params) : World :=
  mkWorld (clientGateway p)
    (if emitterPresent p then Some (mkEmitter [] 0) else None)
    (match signal p with
     | Some b => Some (mkAbortSignal b [])
     | None => None
     end)
    (queuedGatewayErrors p)
    (voiceManagerRefCurrent p)
    [] 1 [] None None 0 false [].

Definition logGatewayError (p : Params) (err : Thrown) (w : World) : World :=
  if isDisallowedIntentsError p err then
    emit (RuntimeError DisallowedIntentsLine) (setSawDisallowedIntents true w)
  else
    emit (RuntimeError (GatewayErrorLine (thrown_text err))) w.

Definition shouldStopOnGatewayError (p : Params) (err : Thrown) : bool :=
  let message := thrown_text err in
  includes message "Max reconnect attempts"
  || includes message "Fatal Gateway error"
  || isDisallowedIntentsError p err.

(** Modelled from the spec: [waitForDiscordGatewayStop], whose module
    (monitor.gateway.ts) is not among the sources.  Section 6 of the spec: a
    primitive "taking the handle, a cancellation signal, an error-observer
    callback, and a stop predicate over errors; resolves when the stream
    naturally stops, rejects when the predicate matches an observed error,
    and resolves when cancellation fires".  The stream is the list of events
    that arrive while the lifecycle waits; it stops naturally when the list
    is exhausted.  Events other than errors and cancellation reach the
    listeners the lifecycle has attached.  The repository's lifecycle test
    also lets the primitive reject on its own account ("gateway wait
    failed"): that is [EnvStreamFailure]. *)
Fixpoint waitForStop (onGatewayError : Thrown -> World -> World)
    (shouldStopOnError : Thrown -> bool) (stream : list EnvEvent) : M unit :=
  match stream with
  | [] => mret tt
  | EnvError err :: rest =>
      lift (deliver (EnvError err)) ;;
      lift (onGatewayError err) ;;
      if shouldStopOnError err then throw err
      else waitForStop onGatewayError shouldStopOnError rest
  | EnvAbort :: _ =>
      lift (deliver EnvAbort)
  | EnvStreamFailure err :: _ =>
      throw err
  | ev :: rest =>
      lift (deliver ev) ;;
      waitForStop onGatewayError shouldStopOnError rest
  end.

Definition signalAborted (w : World) : bool :=
  match abortSignal w with
  | Some s => aborted s
  | None => false
  end.

Definition waitForDiscordGatewayStop (onGatewayError : Thrown -> World -> World)
    (shouldStopOnError : Thrown -> bool) (stream : list EnvEvent) : M unit :=
  lift (emit WaitForGatewayStop) ;;
  w ← getWorld ;
  if signalAborted w then mret tt
  else waitForStop onGatewayError shouldStopOnError stream.

(** The [for (const err of queuedErrors)] loop (lines 180-189). *)
Fixpoint drainQueued (p : Params) (queuedErrors : list Thrown) : M unit :=
  match queuedErrors with
  | [] => mret tt
  | err :: rest =>
      lift (logGatewayError p err) ;;
      if negb (shouldStopOnGatewayError p err) then drainQueued p rest
      else if isDisallowedIntentsError p err then returnEarly
      else throw err
  end.

(** [pendingGatewayErrors.length = 0] on the caller's array. *)
Definition clearPendingGatewayErrors (w : World) : World :=
  emit PendingErrorsCleared (setPendingGatewayErrors (Some []) w).

(** Lines 171-173: [if (params.execApprovalsHandler) await ...start()]. *)
Definition startExecApprovals (p : Params) (env : Env) : M unit :=
  if execApprovalsHandler p
  then await ApprovalsStart (duringStart env) (startResult env)
  else mret tt.

(** Lines 175-190: drain the errors queued before the listeners were
    attached. *)
Definition drainPendingGatewayErrors (p : Params) : M unit :=
  w ← getWorld ;
  let pending := default [] (pendingGatewayErrors w) in
  if (0 <? length pending)%nat then
    let queuedErrors := pending in
    lift clearPendingGatewayErrors ;;
    drainQueued p queuedErrors
  else mret tt.

(** The [try] block (lines 170-202). *)
Definition lifecycleTry (p : Params) (env : Env) : M unit :=
  startExecApprovals p env ;;
  drainPendingGatewayErrors p ;;
  waitForDiscordGatewayStop (logGatewayError p) (shouldStopOnGatewayError p)
    (duringWait env).

(** The [catch] clause (lines 203-206). *)
Definition lifecycleCatch (p : Params) (err : Thrown) : M unit :=
  w ← getWorld ;
  if negb (sawDisallowedIntents w) && negb (isDisallowedIntentsError p err)
  then throw err
  else mret tt.

(** The [finally] clause (lines 207-222). *)
Definition teardown (p : Params) (env : Env) : M unit :=
  (if releaseEarlyGatewayErrorGuard p
   then call ReleaseEarlyGatewayErrorGuard (releaseResult env)
   else mret tt) ;;
  call (UnregisterGateway (accountId p)) (unregisterResult env) ;;
  call StopGatewayLogging (stopLoggingResult env) ;;
  lift clearHelloWatch ;;
  lift removeDebugListener ;;
  lift removeAbortListener ;;
  (if voiceManager p then
     await VoiceManagerDestroy (duringDestroy env) (destroyResult env) ;;
     lift (fun w => emit VoiceManagerRefCleared (setVoiceManagerRef false w))
   else mret tt) ;;
  (if execApprovalsHandler p
   then await ApprovalsStop (duringStop env) (stopResult env)
   else mret tt) ;;
  call ThreadBindingsStop (threadStopResult env).

(** Lines 28-149: everything the function does before it enters [try]. *)
Definition prologue (p : Params) (w : World) : World :=
  let w1 := match gateway w with
            | Some _ => emit (RegisterGateway (accountId p)) w
            | None => w
            end in
  let w2 := emit AttachGatewayLogging w1 in
  let w3 := if signalAborted w2 then onAbort w2 else addAbortListener w2 in
  let w4 := setConsecutiveHelloStalls 0
              (setHelloConnectedPollId None (setHelloTimeoutId None w3)) in
  let w5 := addDebugListener w4 in
  setSawDisallowedIntents false w5.

(** The [try]/[catch] statement without its [finally] clause. *)
Definition lifecycleBody (p : Params) (env : Env) : M unit :=
  tryCatch (lifecycleTry p env) (lifecycleCatch p).

Definition runFrom (p : Params) (env : Env) (w : World) : Settled * World :=
  let '(c, w') := tryFinally (lifecycleBody p env) (teardown p env) (prologue p w) in
  (settle c, w').

Definition runDiscordGatewayLifecycle (p : Params) (env : Env) : Settled * World :=
  runFrom p env (initialWorld p).

(** * Invariants, views of the trace and scenarios used in the statements *)

(** ** The watchdog invariant

    Every live timer is one of the two the watchdog currently holds an id
    for, so at most one confirmation poll and one deadline are armed; timer
    ids are never reused; every callback's [sawConnected] variable exists;
    the stall counter stays below the escalation threshold between events. *)

Definition callbackCell (cb : Callback) : nat :=
  match cb with
  | HelloConnectedPoll cell => cell
  | HelloTimeout cell => cell
  end.

Definition timerHeld (w : World) (t : Timer) : Prop :=
  match timerCallback t with
  | HelloConnectedPoll _ =>
      timerRepeats t = true ∧ helloConnectedPollId w = Some (timerId t)
  | HelloTimeout _ =>
      timerRepeats t = false ∧ helloTimeoutId w = Some (timerId t)
  end.

Record watchInv (w : World) : Prop := mkWatchInv {
  inv_held : ∀ t, t ∈ timers w → timerHeld w t;
  inv_ids : NoDup (timerId <$> timers w);
  inv_fresh : ∀ t, t ∈ timers w → timerId t < nextTimerId w;
  inv_cells : ∀ t, t ∈ timers w → callbackCell (timerCallback t) < length (sawConnected w);
  inv_stalls : consecutiveHelloStalls w < MAX_CONSECUTIVE_HELLO_STALLS
}.

(** Two worlds agree on the watchdog's variables. *)
Definition sameWatch (w w' : World) : Prop :=
  timers w' = timers w
  ∧ nextTimerId w' = nextTimerId w
  ∧ sawConnected w' = sawConnected w
  ∧ helloTimeoutId w' = helloTimeoutId w
  ∧ helloConnectedPollId w' = helloConnectedPollId w
  ∧ consecutiveHelloStalls w' = consecutiveHelloStalls w.

(** A [sawConnected] variable that is set stays set. *)
Definition cellsKept (w w' : World) : Prop :=
  ∀ c, sawConnected w !! c = Some true → sawConnected w' !! c = Some true.

(** ** The branches of the watchdog's handlers *)

(** The two tests [onGatewayDebug] makes on a debug line, in its order. *)
Definition isClosedMessage (m : string) : bool :=
  includes m "WebSocket connection closed".

Definition isOpenedMessage (m : string) : bool :=
  negb (includes m "WebSocket connection closed")
  && includes m "WebSocket connection opened".

(** [if (helloConnectedPollId) { clearInterval(...); helloConnectedPollId = undefined; }],
    which both timer callbacks contain, and the effect it has. *)
Definition dropPoll (w : World) : World :=
  match helloConnectedPollId w with
  | Some id => setHelloConnectedPollId None (clearInterval id w)
  | None => w
  end.

Definition dropPollEffects (w : World) : list Effect :=
  match helloConnectedPollId w with
  | Some id => [ClearInterval id]
  | None => []
  end.

(** Whether the deadline callback of cycle [cell] finds the handshake
    confirmed: [sawConnected || gateway?.isConnected]. *)
Definition confirmed (cell : nat) (w : World) : bool :=
  default false (sawConnected w !! cell) || gatewayIsConnected w.

(** ** Stall rounds

    A stall round is one watch cycle in which the connection opens and its
    deadline fires.  [fireDeadline] lets the timer runtime run the deadline
    timer the watchdog currently holds. *)

Definition fireDeadline (w : World) : World :=
  match helloTimeoutId w with
  | Some id => fireTimer id w
  | None => w
  end.

Definition stallRound (w : World) : World :=
  fireDeadline (onGatewayDebug "WebSocket connection opened" w).

(** ** Views of the trace *)

(** Effects that call the handle or write one of its fields. *)
Definition touchesHandle (e : Effect) : bool :=
  match e with
  | GatewayDisconnect | GatewayConnect _ | WriteReconnect _
  | WriteSessionIdNull | WriteResumeGatewayUrlNull
  | WriteStateSequenceNull | WriteSequenceNull => true
  | _ => false
  end.

Definition handleEffects (t : list Effect) : list Effect :=
  List.filter touchesHandle t.

(** Effects that the handlers run by the environment (debug lines, timers,
    abort) can emit. *)
Definition watchEffect (e : Effect) : bool :=
  match e with
  | ClearHelloWatch | ClearTimeout _ | ClearInterval _
  | SetInterval _ _ | SetTimeout _ _ | RuntimeLog _
  | GatewayDisconnect | GatewayConnect _ | WriteReconnect _
  | WriteSessionIdNull | WriteResumeGatewayUrlNull
  | WriteStateSequenceNull | WriteSequenceNull
  | EmitterOnceError => true
  | _ => false
  end.

(** The calls that are teardown hooks. *)
Definition isTeardownHook (e : Effect) : bool :=
  match e with
  | ReleaseEarlyGatewayErrorGuard | UnregisterGateway _ | StopGatewayLogging
  | ClearHelloWatch | EmitterRemoveDebug | AbortRemoveListener
  | VoiceManagerDestroy | ApprovalsStop | ThreadBindingsStop => true
  | _ => false
  end.

(** The effects that tell the story of the drain: the queue being cleared,
    an error being logged, the wait primitive being called. *)
Definition isDrainEffect (e : Effect) : bool :=
  match e with
  | PendingErrorsCleared | RuntimeError _ | WaitForGatewayStop => true
  | _ => false
  end.

Definition drainView (t : list Effect) : list Effect := List.filter isDrainEffect t.

(** The line [logGatewayError] hands to [runtime.error] for [err]. *)
Definition errorLine (p : Params) (err : Thrown) : LogLine :=
  if isDisallowedIntentsError p err then DisallowedIntentsLine
  else GatewayErrorLine (thrown_text err).

(** [logGatewayError] over a list of errors, first to last. *)
Definition logAll (p : Params) (errs : list Thrown) (w : World) : World :=
  fold_left (fun acc err => logGatewayError p err acc) errs w.

(** ** What one step of the environment may change

    A step of the environment leaves the error queue, the
    [sawDisallowedIntents] flag, the voice manager reference and the set of
    debug listeners alone, keeps the signal, and extends the trace by
    [watchEffect]s only. *)

Record envStep (w w' : World) : Prop := mkEnvStep {
  step_pending : pendingGatewayErrors w' = pendingGatewayErrors w;
  step_saw : sawDisallowedIntents w' = sawDisallowedIntents w;
  step_voice : voiceManagerRef w' = voiceManagerRef w;
  step_listeners :
    debugListeners <$> gatewayEmitter w' = debugListeners <$> gatewayEmitter w;
  step_signal : is_Some (abortSignal w') ↔ is_Some (abortSignal w);
  step_trace : ∃ ext, trace w' = trace w ++ ext ∧ forallb watchEffect ext = true
}.

(** Closes [envStep w (f w)] when [f w] is a chain of setters and [emit]s. *)
Ltac step_by_computation :=
  split; simpl; try done;
  eexists; split; [rewrite <- ?app_assoc; simpl; reflexivity | reflexivity].

(** ** Teardown *)

(** Every teardown hook returns normally. *)
Definition teardownOk (env : Env) : Prop :=
  releaseResult env = None
  ∧ unregisterResult env = None
  ∧ stopLoggingResult env = None
  ∧ destroyResult env = None
  ∧ stopResult env = None
  ∧ threadStopResult env = None.

(** The world the [finally] clause produces when no hook throws. *)
Definition teardownWorld (p : Params) (env : Env) (w : World) : World :=
  let w1 := if releaseEarlyGatewayErrorGuard p
            then emit ReleaseEarlyGatewayErrorGuard w else w in
  let w2 := emit StopGatewayLogging (emit (UnregisterGateway (accountId p)) w1) in
  let w3 := removeAbortListener (removeDebugListener (clearHelloWatch w2)) in
  let w4 := if voiceManager p
            then emit VoiceManagerRefCleared
                   (setVoiceManagerRef false
                      (deliverAll (duringDestroy env) (emit VoiceManagerDestroy w3)))
            else w3 in
  let w5 := if execApprovalsHandler p
            then deliverAll (duringStop env) (emit ApprovalsStop w4)
            else w4 in
  emit ThreadBindingsStop w5.

(** The effects of the [finally] clause, in order, when it is entered in
    world [w] and no hook throws. *)
Definition teardownEffects (p : Params) (w : World) : list Effect :=
  (if releaseEarlyGatewayErrorGuard p then [ReleaseEarlyGatewayErrorGuard] else [])
  ++ [UnregisterGateway (accountId p); StopGatewayLogging; ClearHelloWatch]
  ++ match helloTimeoutId w with Some id => [ClearTimeout id] | None => [] end
  ++ match helloConnectedPollId w with Some id => [ClearInterval id] | None => [] end
  ++ match gatewayEmitter w with Some _ => [EmitterRemoveDebug] | None => [] end
  ++ match abortSignal w with Some _ => [AbortRemoveListener] | None => [] end
  ++ (if voiceManager p then [VoiceManagerDestroy; VoiceManagerRefCleared] else [])
  ++ (if execApprovalsHandler p then [ApprovalsStop] else [])
  ++ [ThreadBindingsStop].

(** The teardown hooks a run is configured with, in the order of the
    [finally] clause. *)
Definition configuredHooks (p : Params) : list Effect :=
  (if releaseEarlyGatewayErrorGuard p then [ReleaseEarlyGatewayErrorGuard] else [])
  ++ [UnregisterGateway (accountId p); StopGatewayLogging; ClearHelloWatch]
  ++ (if emitterPresent p then [EmitterRemoveDebug] else [])
  ++ match signal p with Some _ => [AbortRemoveListener] | None => [] end
  ++ (if voiceManager p then [VoiceManagerDestroy] else [])
  ++ (if execApprovalsHandler p then [ApprovalsStop] else [])
  ++ [ThreadBindingsStop].

(** A debug line the watchdog reacts to: on every such line it clears its
    timers, by the [clearHelloWatch] that teardown also calls. *)
Definition watchLine (ev : EnvEvent) : bool :=
  match ev with
  | EnvDebug m => isClosedMessage m || isOpenedMessage m
  | _ => false
  end.

(** A step that runs no teardown hook. *)
Definition hooksKept (w w' : World) : Prop :=
  List.filter isTeardownHook (trace w') = List.filter isTeardownHook (trace w).

(** Nothing of the lifecycle is attached any more. *)
Definition quiescent (w : World) : Prop :=
  timers w = []
  ∧ (∀ em, gatewayEmitter w = Some em → debugListeners em = [])
  ∧ (∀ s, abortSignal w = Some s → abortListeners s = []).

(** ** Invariants of a run *)

(** The debug listener of this run is the only one on the emitter. *)
Definition emitterAttached (w : World) : Prop :=
  ∀ em, gatewayEmitter w = Some em → debugListeners em = [OnGatewayDebug].

Definition lifeInv (w : World) : Prop := watchInv w ∧ emitterAttached w.

(** The invariant of a run: the watchdog invariant, this run's debug
    listener attached, and the emitter and the signal present exactly when
    the parameters say so. *)
Definition runInv (p : Params) (w : World) : Prop :=
  lifeInv w
  ∧ (is_Some (gatewayEmitter w) ↔ emitterPresent p = true)
  ∧ (is_Some (abortSignal w) ↔ is_Some (signal p)).

(** A computation keeps [P], however it completes. *)
Definition preserves {A} (P : World → Prop) (m : M A) : Prop :=
  ∀ w c w', P w → m w = (c, w') → P w'.

(** Trace and queue along a computation: the trace only grows, the queue
    is left as it is. *)
Definition grows {A} (m : M A) : Prop :=
  ∀ w c w', m w = (c, w') →
    (∃ ext, trace w' = trace w ++ ext)
    ∧ pendingGatewayErrors w' = pendingGatewayErrors w.

(** Everything the [try] block does before it starts waiting. *)
Definition beforeWait (p : Params) (env : Env) : M unit :=
  startExecApprovals p env ;; drainPendingGatewayErrors p.

(** ** Two claims as the spec words them *)

(** C1 as the spec words it: whatever the run does, the [finally] clause
    runs every configured teardown hook once, in order, and the caller gets
    the outcome of the [try]/[catch] statement after that. *)
Definition everyHookRunsOnce (p : Params) (env : Env) : Prop :=
  ∃ c w1 w2 segment,
    lifecycleBody p env (prologue p (initialWorld p)) = (c, w1)
    ∧ runDiscordGatewayLifecycle p env = (settle c, w2)
    ∧ trace w2 = trace w1 ++ segment
    ∧ List.filter isTeardownHook segment = configuredHooks p.

(** C3 as the spec words it: when the poll [pollId] runs and finds the
    handle connected, afterwards neither the poll nor the deadline the
    watchdog held is live and the stall counter is 0. *)
Definition pollConfirmationCancelsBoth (pollId : nat) (w : World) : Prop :=
  let w' := fireTimer pollId w in
  findTimer pollId (timers w') = None
  ∧ (∀ id, helloTimeoutId w = Some id → findTimer id (timers w') = None)
  ∧ consecutiveHelloStalls w' = 0.

(** ** Scenarios *)

(** A gateway handle with a resumable session, as in the repository's
    lifecycle tests. *)
Definition exampleGateway : GatewayPlugin :=
  mkGateway false
    (Some (mkResumeState (Some "session-1") (Some "wss://gateway.discord.gg")
             (Some 123%Z)))
    (Some 123%Z) None.

(** A run with every optional collaborator present: emitter, abort signal
    (not aborted), voice manager, approvals handler, release hook. *)
Definition exampleParams : Params :=
  mkParams "default" (Some exampleGateway) true (Some false)
    (fun err => includes (thrown_text err) "4014")
    true true true None true.

(** The world once that run has attached its listeners. *)
Definition attachedWorld : World := prologue exampleParams (initialWorld exampleParams).

(** Nothing happens and every hook returns. *)
Definition quietEnv : Env := mkEnv [] None [] None None None [] None [] None None.

(** The gateway stops gracefully and the voice manager's [destroy()]
    rejects. *)
Definition envDestroyRejects : Env :=
  mkEnv [] None [] None None None [] (Some (mkThrown 7 "Error: voice teardown failed"))
    [] None None.

(** The approvals handler's [start()] rejects. *)
Definition envStartRejects : Env :=
  mkEnv [] (Some (mkThrown 1 "Error: startup failed")) [] None None None [] None
    [] None None.

(** The gateway reports exhausted reconnects while the lifecycle waits. *)
Definition envWaitFatal : Env :=
  mkEnv [] None [EnvError (mkThrown 2 "Error: Max reconnect attempts reached")]
    None None None [] None [] None None.

(** The run is cancelled while the lifecycle waits, and the abort event is
    delivered a second time during teardown. *)
Definition envAbortTwice : Env :=
  mkEnv [] None [EnvAbort] None None None [EnvAbort] None [] None None.

(** A queue of three errors: a transient one, then a fatal one, then one
    that is never looked at. *)
Definition queuedExample : list Thrown :=
  [mkThrown 3 "Error: socket hang up";
   mkThrown 4 "Error: Fatal Gateway error: 4000";
   mkThrown 5 "Error: Fatal Gateway error: 4014"].

Definition paramsWithQueue : Params :=
  mkParams "default" None false None
    (fun err => includes (thrown_text err) "4014")
    false false true (Some queuedExample) true.

(** [createLifecycleHarness] of provider.lifecycle.test.ts: account
    "default", no voice manager, an approvals handler, a release hook, no
    abort signal. *)
Definition harness (gw : option GatewayPlugin) (emitter : bool)
    (isDisallowed : Thrown → bool) (queued : option (list Thrown)) : Params :=
  mkParams "default" gw emitter None isDisallowed false false true queued true.

(** What [expectLifecycleCleanup] counts: calls of [start], [stop], the wait
    primitive, [unregisterGateway("default")], [stopGatewayLogging],
    [threadBindings.stop] and the release hook. *)
Definition cleanupCounts (w : World) : list nat :=
  map (count_occ Effect_eq_dec (trace w))
    [ApprovalsStart; ApprovalsStop; WaitForGatewayStop; UnregisterGateway "default";
     StopGatewayLogging; ThreadBindingsStop; ReleaseEarlyGatewayErrorGuard].

Definition connectCalls (w : World) : list Effect :=
  List.filter (fun e => match e with GatewayConnect _ => true | _ => false end)
    (trace w).

(** ** Views used by the further properties *)

(** Effects of the timer runtime and of the watchdog's bookkeeping. *)
Definition timerEffect (e : Effect) : bool :=
  match e with
  | ClearHelloWatch | ClearTimeout _ | ClearInterval _
  | SetInterval _ _ | SetTimeout _ _ => true
  | _ => false
  end.

(** The writes [clearResumeState] makes on the handle of [w]. *)
Definition resumeWrites (w : World) : list Effect :=
  match gateway w with
  | Some g =>
      match state g with
      | Some _ => [WriteSessionIdNull; WriteResumeGatewayUrlNull;
                   WriteStateSequenceNull; WriteSequenceNull]
      | None => []
      end
  | None => []
  end.

(** What the deadline callback of an unconfirmed cycle does when it finds
    the world as [w] has it (lines 128-142): the stall line, the writes of
    [clearResumeState] at the threshold, [disconnect] and [connect]. *)
Definition stallEffects (w : World) : list Effect :=
  let stalls := (consecutiveHelloStalls w + 1)%nat in
  let forceFreshIdentify := (MAX_CONSECUTIVE_HELLO_STALLS <=? stalls)%nat in
  [RuntimeLog (StallLine forceFreshIdentify HELLO_TIMEOUT_MS stalls
                 MAX_CONSECUTIVE_HELLO_STALLS)]
  ++ (if forceFreshIdentify then resumeWrites w else [])
  ++ match gateway w with
     | Some _ => [GatewayDisconnect; GatewayConnect (negb forceFreshIdentify)]
     | None => []
     end.

(** The stall lines handed to [runtime.log], in order. *)
Definition stallLines (t : list Effect) : list LogLine :=
  omap (fun e => match e with RuntimeLog line => Some line | _ => None end) t.

(** The error of the first teardown hook that throws, if any, the hooks
    taken in the order of the [finally] clause. *)
Definition teardownFailure (p : Params) (env : Env) : option Thrown :=
  match (if releaseEarlyGatewayErrorGuard p then releaseResult env else None) with
  | Some e => Some e
  | None =>
  match unregisterResult env with
  | Some e => Some e
  | None =>
  match stopLoggingResult env with
  | Some e => Some e
  | None =>
  match (if voiceManager p then destroyResult env else None) with
  | Some e => Some e
  | None =>
  match (if execApprovalsHandler p then stopResult env else None) with
  | Some e => Some e
  | None => threadStopResult env
  end end end end end.

(** The hooks of the [finally] clause that come before the first [await]
    all return. *)
Definition earlyHooksOk (p : Params) (env : Env) : Prop :=
  (releaseEarlyGatewayErrorGuard p = true → releaseResult env = None)
  ∧ unregisterResult env = None
  ∧ stopLoggingResult env = None.

(** A gateway handle that has no [state] object yet, and a run around it;
    a run with an emitter but no handle. *)
Definition statelessGateway : GatewayPlugin := mkGateway false None (Some 41%Z) None.

Definition statelessParams : Params :=
  mkParams "default" (Some statelessGateway) true None (fun _ => false)
    false false false None false.

Definition handlelessParams : Params :=
  mkParams "default" None true None (fun _ => false) false false false None false.

(** The [finally] clause in two parts: the world once its synchronous
    first half (lines 208-213) has run with every hook returning, and its
    second half (lines 214-221), which awaits. *)
Definition detachedWorld (p : Params) (w : World) : World :=
  let w1 := if releaseEarlyGatewayErrorGuard p
            then emit ReleaseEarlyGatewayErrorGuard w else w in
  let w2 := emit StopGatewayLogging (emit (UnregisterGateway (accountId p)) w1) in
  removeAbortListener (removeDebugListener (clearHelloWatch w2)).

Definition teardownLate (p : Params) (env : Env) : M unit :=
  (if voiceManager p then
     await VoiceManagerDestroy (duringDestroy env) (destroyResult env) ;;
     lift (fun w => emit VoiceManagerRefCleared (setVoiceManagerRef false w))
   else mret tt) ;;
  (if execApprovalsHandler p
   then await ApprovalsStop (duringStop env) (stopResult env)
   else mret tt) ;;
  call ThreadBindingsStop (threadStopResult env).

(** * The ordered event dispatcher *)

Module Dispatcher.

(** What an observer of one dispatcher instance can see.  Events are named
    by their arrival number: the [n]-th call of [handle] is event [n]. *)
Inductive Obs : Type :=
  | HandleReturned (id : nat)
  | BodyBegan (id : nat)
  | BodySettled (id : nat) (ok : bool)
  | ErrorLogged (id : nat).

(** What can happen to a dispatcher: the event source calls
    [handle(event, context)], or the handler body that is executing settles
    ([ok = false]: it threw or rejected). *)
Inductive Input : Type :=
  | Handle
  | Settle (ok : bool).

(** Modelled from the spec: the state of [DiscordMessageListener], whose
    module (listeners.ts) is not among the sources.  Section 3: "one
    chain-tail reference (a pending completion signal) per dispatcher
    instance"; section 4.4: "a single forward chain: each call appends its
    handler invocation after the prior chain tail settles".  The chain is
    [running] followed by [queued]. *)
Record State : Type := mkState {
  nextId : nat;
  running : option nat;
  queued : list nat;
  log : list Obs
}.

Definition init : State := mkState 0 None [] [].

(** Modelled from the spec: the chain advances by itself, the next link
    runs as soon as the link before it has settled. *)
Definition beginNext (st : State) : State :=
  match running st, queued st with
  | None, id :: rest => mkState (nextId st) (Some id) rest (log st ++ [BodyBegan id])
  | _, _ => st
  end.

(** Modelled from the spec: [handle] "returns immediately (never awaits
    handler completion)"; a handler that fails "is caught, logged, and does
    not prevent subsequently queued handlers from running". *)
Definition step (st : State) (i : Input) : State :=
  match i with
  | Handle =>
      beginNext (mkState (S (nextId st)) (running st) (queued st ++ [nextId st])
                   (log st ++ [HandleReturned (nextId st)]))
  | Settle ok =>
      match running st with
      | None => st
      | Some id =>
          beginNext (mkState (nextId st) None (queued st)
                       (log st ++ BodySettled id ok
                                 :: (if ok then [] else [ErrorLogged id])))
      end
  end.

Definition run (inputs : list Input) : State := fold_left step inputs init.

(** The ids handled, begun and settled in a log, in order of appearance. *)
Definition handledIds (l : list Obs) : list nat :=
  omap (fun o => match o with HandleReturned id => Some id | _ => None end) l.

Definition begunIds (l : list Obs) : list nat :=
  omap (fun o => match o with BodyBegan id => Some id | _ => None end) l.

Definition settledIds (l : list Obs) : list nat :=
  omap (fun o => match o with BodySettled id _ => Some id | _ => None end) l.

(** What must hold of the log in front of an observation [o]: a body
    begins only after its [handle] call returned, when every body before it
    has begun and settled; a body settles only after it began, as the one
    body executing. *)
Definition admissible (before : list Obs) (o : Obs) : Prop :=
  match o with
  | HandleReturned id => handledIds before = seq 0 id
  | BodyBegan id =>
      id < length (handledIds before)
      ∧ begunIds before = seq 0 id
      ∧ settledIds before = seq 0 id
  | BodySettled id _ =>
      begunIds before = seq 0 (S id) ∧ settledIds before = seq 0 id
  | ErrorLogged id => True
  end.

Definition ordered (l : list Obs) : Prop :=
  ∀ l1 o l2, l = l1 ++ o :: l2 → admissible l1 o.

(** The state agrees with its log. *)
Record inv (st : State) : Prop := mkInv {
  inv_handled : handledIds (log st) = seq 0 (nextId st);
  inv_settled : settledIds (log st)
                = seq 0 (length (begunIds (log st))
                         - match running st with Some _ => 1 | None => 0 end);
  inv_begun : begunIds (log st) = seq 0 (length (begunIds (log st)));
  inv_running : match running st with
                | Some id => S id = length (begunIds (log st))
                | None => queued st = []
                end;
  inv_queued : queued st
               = seq (length (begunIds (log st)))
                   (nextId st - length (begunIds (log st)));
  inv_bound : (length (begunIds (log st)) ≤ nextId st)%nat;
  inv_ordered : ordered (log st)
}.

(** The invariant without the clause that an idle dispatcher has an empty
    queue, as it holds between enqueuing and advancing the chain. *)
Record inv0 (st : State) : Prop := mkInv0 {
  inv0_handled : handledIds (log st) = seq 0 (nextId st);
  inv0_settled : settledIds (log st)
                 = seq 0 (length (begunIds (log st))
                          - match running st with Some _ => 1 | None => 0 end);
  inv0_begun : begunIds (log st) = seq 0 (length (begunIds (log st)));
  inv0_running : match running st with
                 | Some id => S id = length (begunIds (log st))
                 | None => True
                 end;
  inv0_queued : queued st
                = seq (length (begunIds (log st)))
                    (nextId st - length (begunIds (log st)));
  inv0_bound : (length (begunIds (log st)) ≤ nextId st)%nat;
  inv0_ordered : ordered (log st)
}.

End Dispatcher.

(** * Bootstrap files of a run

    A shallow embedding of the module that resolves the workspace bootstrap
    files of an agent run ([makeBootstrapWarn], [sanitizeBootstrapFiles],
    [applyContextModeFilter], [resolveBootstrapFilesForRun],
    [resolveBootstrapContextForRun]).

    Strings are sequences of UTF-16 code units, so that [String.prototype.trim]
    can be given its ECMAScript meaning.  The functions the module imports
    from other modules (the loaders, the session filter, the hook runner,
    the context builder and the two limits) are parameters of the model,
    collected in [Collaborators]; each may throw or reject.  A [warn]
    callback acts on a sink of type [Sink] and is assumed to return. *)

Module Bootstrap.

Definition JsString : Type := list N.

(** A string literal of the source (ASCII only). *)
Definition lit (s : string) : JsString :=
  map Ascii.N_of_ascii (list_ascii_of_string s).

(** The code units [trim] strips: WhiteSpace and LineTerminator of
    ECMAScript (TAB, LF, VT, FF, CR, SP, NBSP, U+1680, U+2000-U+200A, LS,
    PS, U+202F, U+205F, U+3000, U+FEFF). *)
Definition isWhiteSpace (c : N) : bool :=
  existsb (N.eqb c)
    [9; 10; 11; 12; 13; 32; 160; 5760; 8232; 8233; 8239; 8287; 12288; 65279]%N
  || (8192 <=? c)%N && (c <=? 8202)%N.

Fixpoint trimStart (s : JsString) : JsString :=
  match s with
  | [] => []
  | c :: s' => if isWhiteSpace c then trimStart s' else s
  end.

Definition trimEnd (s : JsString) : JsString := rev (trimStart (rev s)).

(** [s.trim()] *)
Definition trim (s : JsString) : JsString := trimEnd (trimStart s).

(** A value as [typeof] sees it: a string, or anything else. *)
Inductive JsValue : Type :=
  | VString (s : JsString)
  | VOther.

(** How a call ends: it returns (an awaited promise resolves), or it throws
    (the promise rejects). *)
Inductive Result (A : Type) : Type :=
  | Returns (a : A)
  | Throws (e : Thrown).
Arguments Returns {A} a.
Arguments Throws {A} e.

#[global] Instance Result_ret : MRet Result := fun A a => Returns a.

#[global] Instance Result_bind : MBind Result := fun A B f m =>
  match m with
  | Returns a => f a
  | Throws e => Throws e
  end.

Inductive BootstrapContextMode : Type := Full | Lightweight.
Inductive BootstrapContextRunKind : Type := Default | Heartbeat | Cron.

Section Model.

(** [Extra]: the fields of a bootstrap file other than [name] and [path];
    [Config]: the configuration object; [Limit]: a character budget;
    [ContextFile]: an embedded context file; [Sink]: what a [warn] callback
    writes to. *)
Context {Extra Config Limit ContextFile Sink : Type}.

(** [WorkspaceBootstrapFile].  [path] is declared a string, but hooks hand
    in objects of any shape, which is why the source tests it. *)
Record WorkspaceBootstrapFile : Type := mkFile {
  name : JsString;
  path : JsValue;
  extra : Extra
}.

(** [(message: string) => void] *)
Definition Warn : Type := JsString → Sink → Sink.

(** [warn?.(message)] *)
Definition callWarn (warn : option Warn) (message : JsString) (sink : Sink) : Sink :=
  match warn with
  | Some f => f message sink
  | None => sink
  end.

Definition makeBootstrapWarn (sessionLabel : JsString) (warn : option Warn)
  : option Warn :=
  match warn with
  | None => None
  | Some f =>
      Some (fun message =>
              f (message ++ lit " (sessionKey=" ++ sessionLabel ++ lit ")"))
  end.

(** The template literal of [sanitizeBootstrapFiles]; 34 is the double
    quote, 8212 the em dash. *)
Definition skipMessage (fileName : JsString) : JsString :=
  lit "skipping bootstrap file " ++ [34%N] ++ fileName ++ [34%N] ++ lit " "
  ++ [8212%N] ++ lit " missing or invalid " ++ [34%N] ++ lit "path" ++ [34%N]
  ++ lit " field (hook may have used " ++ [34%N] ++ lit "filePath" ++ [34%N]
  ++ lit " instead)".

(** [typeof file.path === "string" ? file.path.trim() : ""] *)
Definition pathValue (file : WorkspaceBootstrapFile) : JsString :=
  match path file with
  | VString p => trim p
  | VOther => []
  end.

(** One iteration of the [for] loop of [sanitizeBootstrapFiles]; the empty
    string is the only falsy string. *)
Definition sanitizeStep (warn : option Warn)
    (acc : list WorkspaceBootstrapFile * Sink) (file : WorkspaceBootstrapFile)
  : list WorkspaceBootstrapFile * Sink :=
  let '(sanitized, sink) := acc in
  match pathValue file with
  | [] => (sanitized, callWarn warn (skipMessage (name file)) sink)
  | _ :: _ =>
      (sanitized ++ [mkFile (name file) (VString (pathValue file)) (extra file)], sink)
  end.

Definition sanitizeBootstrapFiles (files : list WorkspaceBootstrapFile)
    (warn : option Warn) (sink : Sink) : list WorkspaceBootstrapFile * Sink :=
  fold_left (sanitizeStep warn) files ([], sink).

Definition applyContextModeFilter (files : list WorkspaceBootstrapFile)
    (contextMode : option BootstrapContextMode)
    (runKind : option BootstrapContextRunKind) : list WorkspaceBootstrapFile :=
  let contextMode := default Full contextMode in
  let runKind := default Default runKind in
  match contextMode with
  | Full => files
  | Lightweight =>
      match runKind with
      | Heartbeat =>
          List.filter (fun file => bool_decide (name file = lit "HEARTBEAT.md")) files
      | _ => []
      end
  end.

(** The argument of [applyBootstrapHookOverrides]. *)
Record HookArgs : Type := mkHookArgs {
  hookFiles : list WorkspaceBootstrapFile;
  hookWorkspaceDir : JsString;
  hookConfig : option Config;
  hookSessionKey : option JsString;
  hookSessionId : option JsString;
  hookAgentId : option JsString
}.

(** The imported functions. *)
Record Collaborators : Type := mkCollaborators {
  getOrLoadBootstrapFiles :
    JsString → JsString → Result (list WorkspaceBootstrapFile);
  loadWorkspaceBootstrapFiles : JsString → Result (list WorkspaceBootstrapFile);
  filterBootstrapFilesForSession :
    list WorkspaceBootstrapFile → option JsString
    → Result (list WorkspaceBootstrapFile);
  applyBootstrapHookOverrides : HookArgs → Result (list WorkspaceBootstrapFile);
  resolveBootstrapMaxChars : option Config → Result Limit;
  resolveBootstrapTotalMaxChars : option Config → Result Limit;
  buildBootstrapContextFiles :
    list WorkspaceBootstrapFile → Limit → Limit → option Warn → Sink
    → Result (list ContextFile) * Sink
}.

(** The [params] object of the two exported resolvers. *)
Record RunParams : Type := mkRunParams {
  workspaceDir : JsString;
  config : option Config;
  sessionKey : option JsString;
  sessionId : option JsString;
  agentId : option JsString;
  warn : option Warn;
  contextMode : option BootstrapContextMode;
  runKind : option BootstrapContextRunKind
}.

(** [params.sessionKey ?? params.sessionId] *)
Definition effectiveSessionKey (params : RunParams) : option JsString :=
  match sessionKey params with
  | Some k => Some k
  | None => sessionId params
  end.

(** The conditional that picks the loader: [params.sessionKey] is truthy
    when it is a non-empty string. *)
Definition loadRawFiles (c : Collaborators) (params : RunParams)
  : Result (list WorkspaceBootstrapFile) :=
  match sessionKey params with
  | Some (u :: k) => getOrLoadBootstrapFiles c (workspaceDir params) (u :: k)
  | _ => loadWorkspaceBootstrapFiles c (workspaceDir params)
  end.

Definition resolveBootstrapFilesForRun (c : Collaborators) (params : RunParams)
    (sink : Sink) : Result (list WorkspaceBootstrapFile) * Sink :=
  let sessionKey' := effectiveSessionKey params in
  let settled :=
    rawFiles ← loadRawFiles c params ;
    filtered ← filterBootstrapFilesForSession c rawFiles sessionKey' ;
    let bootstrapFiles :=
      applyContextModeFilter filtered (contextMode params) (runKind params) in
    applyBootstrapHookOverrides c
      (mkHookArgs bootstrapFiles (workspaceDir params) (config params)
         (sessionKey params) (sessionId params) (agentId params)) in
  match settled with
  | Returns updated =>
      let '(sanitized, sink') := sanitizeBootstrapFiles updated (warn params) sink in
      (Returns sanitized, sink')
  | Throws e => (Throws e, sink)
  end.

Definition resolveBootstrapContextForRun (c : Collaborators) (params : RunParams)
    (sink : Sink)
  : Result (list WorkspaceBootstrapFile * list ContextFile) * Sink :=
  match resolveBootstrapFilesForRun c params sink with
  | (Throws e, sink1) => (Throws e, sink1)
  | (Returns bootstrapFiles, sink1) =>
      match resolveBootstrapMaxChars c (config params) with
      | Throws e => (Throws e, sink1)
      | Returns maxChars =>
          match resolveBootstrapTotalMaxChars c (config params) with
          | Throws e => (Throws e, sink1)
          | Returns totalMaxChars =>
              match buildBootstrapContextFiles c bootstrapFiles maxChars
                      totalMaxChars (warn params) sink1 with
              | (Returns contextFiles, sink2) =>
                  (Returns (bootstrapFiles, contextFiles), sink2)
              | (Throws e, sink2) => (Throws e, sink2)
              end
          end
      end
  end.

End Model.

Arguments WorkspaceBootstrapFile : clear implicits.
Arguments Warn : clear implicits.
Arguments HookArgs : clear implicits.
Arguments Collaborators : clear implicits.
Arguments RunParams : clear implicits.

(** ** Views used in the statements *)

(** A path the sanitizer keeps: a string with a code unit that is not
    white space. *)
Definition usablePath (v : JsValue) : bool :=
  match v with
  | VString p => negb (forallb isWhiteSpace p)
  | VOther => false
  end.

(** A path as the sanitizer leaves it: a non-empty string that neither
    starts nor ends with white space. *)
Definition trimmedPath (v : JsValue) : Prop :=
  ∃ p, v = VString p ∧ p ≠ []
       ∧ (∀ c, head p = Some c → isWhiteSpace c = false)
       ∧ (∀ c, last p = Some c → isWhiteSpace c = false).

(** The file [sanitizeBootstrapFiles] pushes for a file it keeps. *)
Definition withTrimmedPath {Extra : Type} (file : WorkspaceBootstrapFile Extra)
  : WorkspaceBootstrapFile Extra :=
  mkFile (name file) (VString (pathValue file)) (extra file).

(** A sink that records the messages it is given, in order. *)
Definition record : Warn (list JsString) := fun message log => log ++ [message].

(** ** Scenarios *)

(** Four files as a loader or a hook may hand them in: a path with white
    space around it, a clean path, a file whose path is not a string, and a
    path of white space only. *)
Definition exampleFiles : list (WorkspaceBootstrapFile unit) :=
  [mkFile (lit "AGENTS.md") (VString (lit "  /ws/AGENTS.md ")) tt;
   mkFile (lit "HEARTBEAT.md") (VString (lit "/ws/HEARTBEAT.md")) tt;
   mkFile (lit "SOUL.md") VOther tt;
   mkFile (lit "TOOLS.md") (VString (lit "   ")) tt].

(** Collaborators that load [exampleFiles], filter nothing, and whose hook
    appends a file that has no usable path. *)
Definition exampleCollaborators
  : Collaborators unit unit N (JsString * JsValue) (list JsString) :=
  mkCollaborators
    (fun _ _ => Returns exampleFiles)
    (fun _ => Returns exampleFiles)
    (fun files _ => Returns files)
    (fun args => Returns (hookFiles args ++ [mkFile (lit "HOOK.md") VOther tt]))
    (fun _ => Returns 20000%N)
    (fun _ => Returns 150000%N)
    (fun files _ _ _ sink => (Returns (map (fun f => (name f, path f)) files), sink)).

(** The same collaborators, but the hook runner rejects. *)
Definition failingHooks
  : Collaborators unit unit N (JsString * JsValue) (list JsString) :=
  mkCollaborators
    (getOrLoadBootstrapFiles exampleCollaborators)
    (loadWorkspaceBootstrapFiles exampleCollaborators)
    (filterBootstrapFilesForSession exampleCollaborators)
    (fun _ => Throws (mkThrown 9 "Error: hook failed"))
    (resolveBootstrapMaxChars exampleCollaborators)
    (resolveBootstrapTotalMaxChars exampleCollaborators)
    (buildBootstrapContextFiles exampleCollaborators).

Definition exampleRun (contextMode : option BootstrapContextMode)
    (runKind : option BootstrapContextRunKind) : RunParams unit (list JsString) :=
  mkRunParams (lit "/ws") None (Some (lit "agent:main")) None None
    (makeBootstrapWarn (lit "agent:main") (Some record)) contextMode runKind.

End Bootstrap.

(** * Properties *)

(** ** Reading fields through the setters *)

Lemma trace_emit e w : trace (emit e w) = trace w ++ [e].
Proof. reflexivity. Qed.

Lemma removeTimer_app id ts1 ts2 :
  removeTimer id (ts1 ++ ts2) = removeTimer id ts1 ++ removeTimer id ts2.
Proof. unfold removeTimer. apply filter_app. Qed.

Lemma removeTimer_elem id t ts :
  t ∈ removeTimer id ts ↔ timerId t ≠ id ∧ t ∈ ts.
Proof. unfold removeTimer. by rewrite list_elem_of_filter. Qed.

Lemma findTimer_Some id ts t :
  findTimer id ts = Some t → t ∈ ts ∧ timerId t = id.
Proof.
  unfold findTimer. intros H. apply find_some in H as [Hin Heq].
  split; [by apply list_elem_of_In | by apply Nat.eqb_eq].
Qed.

Lemma findTimer_None id ts :
  findTimer id ts = None → ∀ t, t ∈ ts → timerId t ≠ id.
Proof.
  unfold findTimer. intros H t Hin Heq.
  apply list_elem_of_In in Hin.
  pose proof (find_none _ _ H t Hin) as Hn. simpl in Hn.
  apply Nat.eqb_neq in Hn. contradiction.
Qed.

(** ** The watchdog invariant *)

(** The invariant only looks at the watchdog's own variables. *)
Lemma watchInv_frame w w' :
  timers w' = timers w →
  nextTimerId w' = nextTimerId w →
  sawConnected w' = sawConnected w →
  helloTimeoutId w' = helloTimeoutId w →
  helloConnectedPollId w' = helloConnectedPollId w →
  consecutiveHelloStalls w' = consecutiveHelloStalls w →
  watchInv w → watchInv w'.
Proof.
  intros Ht Hn Hc Hti Hpi Hs [H1 H2 H3 H4 H5].
  split; rewrite ?Ht, ?Hn, ?Hc, ?Hs; try done.
  intros t Hin. specialize (H1 t Hin). unfold timerHeld in *.
  by rewrite Hti, Hpi.
Qed.

Lemma watchInv_no_timers w :
  timers w = [] →
  consecutiveHelloStalls w < MAX_CONSECUTIVE_HELLO_STALLS →
  watchInv w.
Proof.
  intros Ht Hs. split; rewrite ?Ht; try done.
  - intros t Hin. by apply elem_of_nil in Hin.
  - constructor.
  - intros t Hin. by apply elem_of_nil in Hin.
  - intros t Hin. by apply elem_of_nil in Hin.
Qed.

(** At most one deadline timer and one confirmation poll are live. *)
Lemma watchInv_one_of_each w t1 t2 :
  watchInv w → t1 ∈ timers w → t2 ∈ timers w →
  timerRepeats t1 = timerRepeats t2 → timerId t1 = timerId t2.
Proof.
  intros [Hheld _ _ _ _] H1 H2 Hrep.
  pose proof (Hheld t1 H1) as A. pose proof (Hheld t2 H2) as B.
  unfold timerHeld in *.
  destruct (timerCallback t1), (timerCallback t2);
    destruct A as [A1 A2], B as [B1 B2]; congruence.
Qed.

Lemma removeTimer_held_poll w id :
  (∀ t, t ∈ timers w → timerHeld w t) →
  helloConnectedPollId w = Some id →
  ∀ t, t ∈ removeTimer id (timers w) → timerRepeats t = false.
Proof.
  intros Hheld Hid t Hin. apply removeTimer_elem in Hin as [Hne Hin].
  specialize (Hheld t Hin). unfold timerHeld in Hheld.
  destruct (timerCallback t); destruct Hheld as [? ?]; congruence.
Qed.

Lemma removeTimer_held_timeout w id :
  (∀ t, t ∈ timers w → timerHeld w t) →
  helloTimeoutId w = Some id →
  ∀ t, t ∈ removeTimer id (timers w) → timerRepeats t = true.
Proof.
  intros Hheld Hid t Hin. apply removeTimer_elem in Hin as [Hne Hin].
  specialize (Hheld t Hin). unfold timerHeld in Hheld.
  destruct (timerCallback t); destruct Hheld as [? ?]; congruence.
Qed.

Lemma list_nil_no_elem {A} (l : list A) : (∀ x, x ∈ l → False) → l = [].
Proof.
  destruct l as [|x l]; [done|]. intros H. exfalso. apply (H x). left.
Qed.

(** [clearHelloWatch] leaves nothing armed. *)
Lemma clearHelloWatch_timers w :
  (∀ t, t ∈ timers w → timerHeld w t) → timers (clearHelloWatch w) = [].
Proof.
  intros Hheld. apply list_nil_no_elem. intros t.
  unfold clearHelloWatch. simpl.
  destruct (helloTimeoutId w) as [tid|] eqn:Et; simpl;
    destruct (helloConnectedPollId w) as [pid|] eqn:Ep; simpl; intros Hin.
  - apply removeTimer_elem in Hin as [Hp Hin].
    apply removeTimer_elem in Hin as [Ht Hin].
    specialize (Hheld t Hin). unfold timerHeld in Hheld.
    destruct (timerCallback t); destruct Hheld as [? ?]; congruence.
  - apply removeTimer_elem in Hin as [Ht Hin].
    specialize (Hheld t Hin). unfold timerHeld in Hheld.
    destruct (timerCallback t); destruct Hheld as [? ?]; congruence.
  - apply removeTimer_elem in Hin as [Hp Hin].
    specialize (Hheld t Hin). unfold timerHeld in Hheld.
    destruct (timerCallback t); destruct Hheld as [? ?]; congruence.
  - specialize (Hheld t Hin). unfold timerHeld in Hheld.
    destruct (timerCallback t); destruct Hheld as [? ?]; congruence.
Qed.

Lemma clearHelloWatch_ids w :
  helloTimeoutId (clearHelloWatch w) = None
  ∧ helloConnectedPollId (clearHelloWatch w) = None.
Proof.
  unfold clearHelloWatch. simpl.
  destruct (helloTimeoutId w) eqn:Et; simpl;
    destruct (helloConnectedPollId w) eqn:Ep; simpl; auto.
Qed.

Lemma clearHelloWatch_other w :
  gateway (clearHelloWatch w) = gateway w
  ∧ gatewayEmitter (clearHelloWatch w) = gatewayEmitter w
  ∧ abortSignal (clearHelloWatch w) = abortSignal w
  ∧ sawConnected (clearHelloWatch w) = sawConnected w
  ∧ nextTimerId (clearHelloWatch w) = nextTimerId w
  ∧ consecutiveHelloStalls (clearHelloWatch w) = consecutiveHelloStalls w
  ∧ sawDisallowedIntents (clearHelloWatch w) = sawDisallowedIntents w
  ∧ pendingGatewayErrors (clearHelloWatch w) = pendingGatewayErrors w.
Proof.
  unfold clearHelloWatch. simpl.
  destruct (helloTimeoutId w) eqn:Et; simpl;
    destruct (helloConnectedPollId w) eqn:Ep; simpl; auto 10.
Qed.

Lemma clearHelloWatch_trace w :
  trace (clearHelloWatch w)
  = trace w ++ [ClearHelloWatch]
      ++ match helloTimeoutId w with Some id => [ClearTimeout id] | None => [] end
      ++ match helloConnectedPollId w with Some id => [ClearInterval id] | None => [] end.
Proof.
  unfold clearHelloWatch. simpl.
  destruct (helloTimeoutId w) eqn:Et; simpl;
    destruct (helloConnectedPollId w) eqn:Ep; simpl;
    rewrite <- ?app_assoc; simpl; done.
Qed.

(** ** [onGatewayDebug] *)

Lemma onGatewayDebug_closed m w :
  isClosedMessage m = true →
  onGatewayDebug m w
  = clearHelloWatch (if gatewayIsConnected w then resetHelloStallCounter w else w).
Proof. unfold isClosedMessage, onGatewayDebug. by intros ->. Qed.

Lemma onGatewayDebug_other m w :
  isClosedMessage m = false → isOpenedMessage m = false → onGatewayDebug m w = w.
Proof.
  unfold isClosedMessage, isOpenedMessage, onGatewayDebug. intros -> H.
  simpl in H. by rewrite H.
Qed.

(** The state a CONNECTION-OPENED line leaves behind: a fresh watch cycle. *)
Lemma onGatewayDebug_opened m w :
  isOpenedMessage m = true →
  let w1 := clearHelloWatch w in
  let n := nextTimerId w in
  let cell := length (sawConnected w) in
  let w' := onGatewayDebug m w in
  timers w' = timers w1
                ++ [mkTimer n true HELLO_CONNECTED_POLL_MS (HelloConnectedPoll cell);
                    mkTimer (S n) false HELLO_TIMEOUT_MS (HelloTimeout cell)]
  ∧ helloConnectedPollId w' = Some n
  ∧ helloTimeoutId w' = Some (S n)
  ∧ nextTimerId w' = S (S n)
  ∧ sawConnected w' = sawConnected w ++ [gatewayIsConnected w]
  ∧ consecutiveHelloStalls w' = consecutiveHelloStalls w
  ∧ gateway w' = gateway w
  ∧ trace w' = trace w1 ++ [SetInterval n HELLO_CONNECTED_POLL_MS;
                            SetTimeout (S n) HELLO_TIMEOUT_MS].
Proof.
  unfold isOpenedMessage. intros H. apply andb_true_iff in H as [Hc Ho].
  apply negb_true_iff in Hc.
  destruct (clearHelloWatch_other w) as (Hg & _ & _ & Hcells & Hn & Hs & _ & _).
  unfold onGatewayDebug. rewrite Hc, Ho. simpl.
  unfold gatewayIsConnected. rewrite Hg, Hcells, Hn, Hs.
  rewrite <- !app_assoc. simpl. repeat split; reflexivity.
Qed.

Lemma watchInv_clearHelloWatch w : watchInv w → watchInv (clearHelloWatch w).
Proof.
  intros [Hheld _ _ _ Hs].
  destruct (clearHelloWatch_other w) as (_ & _ & _ & _ & _ & Hst & _ & _).
  apply watchInv_no_timers; [by apply clearHelloWatch_timers | by rewrite Hst].
Qed.

Lemma watchInv_resetHelloStallCounter w :
  watchInv w → watchInv (resetHelloStallCounter w).
Proof.
  intros [H1 H2 H3 H4 H5]. split; simpl; try done.
  unfold MAX_CONSECUTIVE_HELLO_STALLS. lia.
Qed.

Lemma watchInv_onGatewayDebug m w : watchInv w → watchInv (onGatewayDebug m w).
Proof.
  intros Hinv.
  destruct (isClosedMessage m) eqn:Hc.
  { rewrite onGatewayDebug_closed by done. apply watchInv_clearHelloWatch.
    destruct (gatewayIsConnected w); [by apply watchInv_resetHelloStallCounter | done]. }
  destruct (isOpenedMessage m) eqn:Ho.
  2:{ by rewrite onGatewayDebug_other. }
  destruct (onGatewayDebug_opened m w Ho) as (Ht & Hp & Hd & Hn & Hcells & Hs & _ & _).
  rewrite (clearHelloWatch_timers w (inv_held w Hinv)) in Ht. simpl in Ht.
  split.
  - intros t. rewrite Ht. intros Hin.
    apply elem_of_cons in Hin as [-> | Hin]; [by split|].
    apply elem_of_cons in Hin as [-> | Hin]; [by split|].
    by apply elem_of_nil in Hin.
  - rewrite Ht. simpl. apply NoDup_cons. split.
    + intros Hin. apply list_elem_of_singleton in Hin. lia.
    + apply NoDup_singleton.
  - intros t. rewrite Ht, Hn. intros Hin.
    apply elem_of_cons in Hin as [-> | Hin]; [simpl; lia|].
    apply elem_of_cons in Hin as [-> | Hin]; [simpl; lia|].
    by apply elem_of_nil in Hin.
  - intros t. rewrite Ht, Hcells, length_app. simpl. intros Hin.
    apply elem_of_cons in Hin as [-> | Hin]; [simpl; lia|].
    apply elem_of_cons in Hin as [-> | Hin]; [simpl; lia|].
    by apply elem_of_nil in Hin.
  - rewrite Hs. apply (inv_stalls w Hinv).
Qed.

(** ** The two timer callbacks *)

Lemma dropPoll_fields w :
  trace (dropPoll w) = trace w ++ dropPollEffects w
  ∧ helloConnectedPollId (dropPoll w) = None
  ∧ helloTimeoutId (dropPoll w) = helloTimeoutId w
  ∧ gateway (dropPoll w) = gateway w
  ∧ sawConnected (dropPoll w) = sawConnected w
  ∧ consecutiveHelloStalls (dropPoll w) = consecutiveHelloStalls w
  ∧ nextTimerId (dropPoll w) = nextTimerId w.
Proof.
  unfold dropPoll, dropPollEffects.
  destruct (helloConnectedPollId w) eqn:E; simpl; rewrite ?app_nil_r; auto 10.
Qed.

Lemma dropPoll_timers w t :
  (∀ t, t ∈ timers w → timerHeld w t) →
  t ∈ timers (dropPoll w) → t ∈ timers w ∧ timerRepeats t = false.
Proof.
  intros Hheld. unfold dropPoll.
  destruct (helloConnectedPollId w) as [id|] eqn:E; simpl; intros Hin.
  - split; [by apply removeTimer_elem in Hin as [_ ?]|].
    by apply (removeTimer_held_poll w id).
  - split; [done|]. specialize (Hheld t Hin). unfold timerHeld in Hheld.
    destruct (timerCallback t); destruct Hheld as [? ?]; congruence.
Qed.

Lemma dropPoll_NoDup w :
  NoDup (timerId <$> timers w) → NoDup (timerId <$> timers (dropPoll w)).
Proof.
  unfold dropPoll. destruct (helloConnectedPollId w); simpl; [|done].
  intros H. unfold removeTimer.
  induction (timers w) as [|t ts IH]; [done|].
  simpl in H. apply NoDup_cons in H as [Hnin Hnd].
  rewrite filter_cons. case_decide; [|by apply IH].
  simpl. apply NoDup_cons. split; [|by apply IH].
  intros Hin. apply Hnin. apply list_elem_of_fmap in Hin as (t' & Heq & Hin).
  apply list_elem_of_fmap. exists t'. split; [done|].
  by apply list_elem_of_filter in Hin as [_ ?].
Qed.

Lemma helloConnectedPoll_idle cell w :
  gatewayIsConnected w = false → helloConnectedPoll cell w = w.
Proof. unfold helloConnectedPoll. by intros ->. Qed.

Lemma helloConnectedPoll_connected cell w :
  gatewayIsConnected w = true →
  helloConnectedPoll cell w
  = dropPoll (resetHelloStallCounter
                (setSawConnected (<[cell := true]> (sawConnected w)) w)).
Proof. unfold helloConnectedPoll. by intros ->. Qed.

Lemma watchInv_helloConnectedPoll cell w :
  watchInv w → watchInv (helloConnectedPoll cell w).
Proof.
  intros Hinv. destruct (gatewayIsConnected w) eqn:Hc.
  2:{ by rewrite helloConnectedPoll_idle. }
  rewrite helloConnectedPoll_connected by done.
  set (w1 := resetHelloStallCounter _).
  assert (Hinv1 : watchInv w1).
  { destruct Hinv as [H1 H2 H3 H4 H5]. split; simpl; try done.
    - intros t Hin. rewrite length_insert. by apply H4.
    - unfold MAX_CONSECUTIVE_HELLO_STALLS. lia. }
  destruct (dropPoll_fields w1) as (_ & Hp & Ht & _ & Hcells & Hs & Hn).
  destruct Hinv1 as [H1 H2 H3 H4 H5]. split.
  - intros t Hin. apply dropPoll_timers in Hin as [Hin Hrep]; [|done].
    specialize (H1 t Hin). unfold timerHeld in *. rewrite Ht.
    destruct (timerCallback t); destruct H1 as [? ?]; [congruence | done].
  - by apply dropPoll_NoDup.
  - intros t Hin. apply dropPoll_timers in Hin as [Hin _]; [|done].
    rewrite Hn. by apply H3.
  - intros t Hin. apply dropPoll_timers in Hin as [Hin _]; [|done].
    rewrite Hcells. by apply H4.
  - by rewrite Hs.
Qed.

Lemma confirmed_dropPoll cell w : confirmed cell (dropPoll w) = confirmed cell w.
Proof.
  destruct (dropPoll_fields w) as (_ & _ & _ & Hg & Hc & _ & _).
  unfold confirmed, gatewayIsConnected. by rewrite Hg, Hc.
Qed.

(** Deadline with the handshake confirmed: the counter is reset, nothing
    else happens beyond dropping the poll. *)
Lemma helloTimeout_confirmed cell w :
  confirmed cell w = true →
  helloTimeout cell w
  = setHelloTimeoutId None (resetHelloStallCounter (dropPoll w)).
Proof.
  intros H. rewrite <- confirmed_dropPoll in H. unfold helloTimeout.
  fold (dropPoll w). unfold confirmed in H. by rewrite H.
Qed.

(** Deadline without confirmation, below the escalation threshold. *)
Lemma helloTimeout_retry cell w :
  confirmed cell w = false →
  consecutiveHelloStalls w + 1 < MAX_CONSECUTIVE_HELLO_STALLS →
  helloTimeout cell w
  = setHelloTimeoutId None
      (gatewayConnect true
         (gatewayDisconnect
            (emit (RuntimeLog (StallLine false HELLO_TIMEOUT_MS
                                 (consecutiveHelloStalls w + 1)
                                 MAX_CONSECUTIVE_HELLO_STALLS))
               (setConsecutiveHelloStalls (consecutiveHelloStalls w + 1)
                  (dropPoll w))))).
Proof.
  intros H Hlt. rewrite <- confirmed_dropPoll in H. unfold helloTimeout.
  fold (dropPoll w). unfold confirmed in H. rewrite H.
  destruct (dropPoll_fields w) as (_ & _ & _ & _ & _ & Hs & _).
  cbn -[Nat.leb Nat.add MAX_CONSECUTIVE_HELLO_STALLS]. rewrite Hs.
  destruct (Nat.leb_spec MAX_CONSECUTIVE_HELLO_STALLS (consecutiveHelloStalls w + 1));
    [lia | done].
Qed.

(** Deadline without confirmation, at the escalation threshold. *)
Lemma helloTimeout_escalate cell w :
  confirmed cell w = false →
  (MAX_CONSECUTIVE_HELLO_STALLS ≤ consecutiveHelloStalls w + 1)%nat →
  helloTimeout cell w
  = setHelloTimeoutId None
      (gatewayConnect false
         (gatewayDisconnect
            (resetHelloStallCounter
               (clearResumeState
                  (emit (RuntimeLog (StallLine true HELLO_TIMEOUT_MS
                                       (consecutiveHelloStalls w + 1)
                                       MAX_CONSECUTIVE_HELLO_STALLS))
                     (setConsecutiveHelloStalls (consecutiveHelloStalls w + 1)
                        (dropPoll w))))))).
Proof.
  intros H Hle. rewrite <- confirmed_dropPoll in H. unfold helloTimeout.
  fold (dropPoll w). unfold confirmed in H. rewrite H.
  destruct (dropPoll_fields w) as (_ & _ & _ & _ & _ & Hs & _).
  cbn -[Nat.leb Nat.add MAX_CONSECUTIVE_HELLO_STALLS]. rewrite Hs.
  destruct (Nat.leb_spec MAX_CONSECUTIVE_HELLO_STALLS (consecutiveHelloStalls w + 1));
    [done | lia].
Qed.

(** ** Operations that leave the watchdog's variables alone *)

Lemma sameWatch_refl w : sameWatch w w.
Proof. by repeat split. Qed.

Lemma sameWatch_trans w1 w2 w3 : sameWatch w1 w2 → sameWatch w2 w3 → sameWatch w1 w3.
Proof.
  intros (A1 & A2 & A3 & A4 & A5 & A6) (B1 & B2 & B3 & B4 & B5 & B6).
  repeat split; congruence.
Qed.

Lemma watchInv_sameWatch w w' : sameWatch w w' → watchInv w → watchInv w'.
Proof. intros (A1 & A2 & A3 & A4 & A5 & A6). by apply watchInv_frame. Qed.

Lemma sameWatch_emit e w : sameWatch w (emit e w).
Proof. by repeat split. Qed.

Lemma sameWatch_gatewayDisconnect w : sameWatch w (gatewayDisconnect w).
Proof. unfold gatewayDisconnect. destruct (gateway w); by repeat split. Qed.

Lemma sameWatch_gatewayConnect b w : sameWatch w (gatewayConnect b w).
Proof. unfold gatewayConnect. destruct (gateway w); by repeat split. Qed.

Lemma sameWatch_clearResumeState w : sameWatch w (clearResumeState w).
Proof.
  unfold clearResumeState. destruct (gateway w) as [g|]; [|by repeat split].
  destruct (state g); by repeat split.
Qed.

Lemma sameWatch_onAbort w : sameWatch w (onAbort w).
Proof.
  unfold onAbort, gatewayDisconnect. destruct (gateway w) as [g|]; [|by repeat split].
  destruct (gatewayEmitter w); by repeat split.
Qed.

Lemma sameWatch_dispatchAbort w : sameWatch w (dispatchAbort w).
Proof.
  unfold dispatchAbort. destruct (abortSignal w) as [s|]; [|apply sameWatch_refl].
  set (w1 := setAbortSignal _ w).
  assert (H1 : sameWatch w w1) by by repeat split.
  revert H1. generalize w1. clear w1.
  induction (abortListeners s) as [|l ls IH]; intros w1 H1; simpl; [done|].
  apply IH. eapply sameWatch_trans; [exact H1 | apply sameWatch_onAbort].
Qed.

Lemma sameWatch_addAbortListener w : sameWatch w (addAbortListener w).
Proof. unfold addAbortListener. destruct (abortSignal w); by repeat split. Qed.

Lemma sameWatch_removeAbortListener w : sameWatch w (removeAbortListener w).
Proof. unfold removeAbortListener. destruct (abortSignal w); by repeat split. Qed.

Lemma sameWatch_addDebugListener w : sameWatch w (addDebugListener w).
Proof. unfold addDebugListener. destruct (gatewayEmitter w); by repeat split. Qed.

Lemma sameWatch_removeDebugListener w : sameWatch w (removeDebugListener w).
Proof. unfold removeDebugListener. destruct (gatewayEmitter w); by repeat split. Qed.

Lemma sameWatch_logGatewayError p err w : sameWatch w (logGatewayError p err w).
Proof.
  unfold logGatewayError. destruct (isDisallowedIntentsError p err); by repeat split.
Qed.

(** ** Firing timers preserves the invariant *)

Lemma helloTimeout_watch cell w :
  consecutiveHelloStalls w < MAX_CONSECUTIVE_HELLO_STALLS →
  let w' := helloTimeout cell w in
  timers w' = timers (dropPoll w)
  ∧ nextTimerId w' = nextTimerId w
  ∧ sawConnected w' = sawConnected w
  ∧ helloTimeoutId w' = None
  ∧ helloConnectedPollId w' = None
  ∧ consecutiveHelloStalls w' < MAX_CONSECUTIVE_HELLO_STALLS.
Proof.
  intros Hs. cbv zeta.
  destruct (dropPoll_fields w) as (_ & Hp & _ & _ & Hc & Hst & Hn).
  destruct (confirmed cell w) eqn:Hconf.
  { rewrite helloTimeout_confirmed by done. simpl.
    rewrite Hp, Hc, Hn. repeat split; try done.
    unfold MAX_CONSECUTIVE_HELLO_STALLS. lia. }
  destruct (Nat.lt_ge_cases (consecutiveHelloStalls w + 1) MAX_CONSECUTIVE_HELLO_STALLS)
    as [Hlt | Hge].
  - rewrite helloTimeout_retry by done.
    set (w1 := emit _ _).
    destruct (sameWatch_gatewayDisconnect w1) as (A1 & A2 & A3 & A4 & A5 & A6).
    destruct (sameWatch_gatewayConnect true (gatewayDisconnect w1))
      as (B1 & B2 & B3 & B4 & B5 & B6).
    simpl. rewrite B1, B2, B3, B5, B6, A1, A2, A3, A5, A6. simpl.
    rewrite Hp, Hc, Hn. repeat split; done.
  - rewrite helloTimeout_escalate by done.
    set (w1 := emit _ _). set (w2 := resetHelloStallCounter (clearResumeState w1)).
    destruct (sameWatch_clearResumeState w1) as (C1 & C2 & C3 & C4 & C5 & C6).
    destruct (sameWatch_gatewayDisconnect w2) as (A1 & A2 & A3 & A4 & A5 & A6).
    destruct (sameWatch_gatewayConnect false (gatewayDisconnect w2))
      as (B1 & B2 & B3 & B4 & B5 & B6).
    simpl. rewrite B1, B2, B3, B5, B6, A1, A2, A3, A5, A6. simpl.
    rewrite C1, C2, C3, C5. simpl.
    rewrite Hp, Hc, Hn. repeat split; try done.
    unfold MAX_CONSECUTIVE_HELLO_STALLS. lia.
Qed.

Lemma watchInv_fireTimer id w : watchInv w → watchInv (fireTimer id w).
Proof.
  intros Hinv. unfold fireTimer.
  destruct (findTimer id (timers w)) as [t|] eqn:Hfind; [|done].
  apply findTimer_Some in Hfind as [Hin Hid].
  pose proof (inv_held w Hinv t Hin) as Hheld. unfold timerHeld in Hheld.
  destruct (timerCallback t) as [cell|cell]; destruct Hheld as [Hrep Hheld];
    rewrite Hrep; simpl.
  { by apply watchInv_helloConnectedPoll. }
  set (w1 := setTimers (removeTimer id (timers w)) w).
  assert (Hheld1 : ∀ t', t' ∈ timers w1 → timerHeld w1 t').
  { intros t' Hin'. simpl in Hin'. apply removeTimer_elem in Hin' as [_ Hin'].
    apply (inv_held w Hinv t' Hin'). }
  destruct (helloTimeout_watch cell w1 (inv_stalls w Hinv))
    as (Ht & Hn & Hc & Hti & Hpi & Hs).
  apply watchInv_no_timers; [|done].
  rewrite Ht. apply list_nil_no_elem. intros t' Hin'.
  apply dropPoll_timers in Hin' as [Hin' Hrep']; [|done].
  simpl in Hin'.
  pose proof (removeTimer_held_timeout w id (inv_held w Hinv)) as Hx.
  rewrite Hid in Hheld. specialize (Hx Hheld t' Hin'). congruence.
Qed.

Lemma watchInv_deliver ev w : watchInv w → watchInv (deliver ev w).
Proof.
  intros Hinv. destruct ev as [msg|err|id|b| |err]; simpl.
  - destruct (gatewayEmitter w) as [em|]; [|done].
    revert w Hinv. induction (debugListeners em) as [|l ls IH]; intros w Hinv; simpl; [done|].
    apply IH. by apply watchInv_onGatewayDebug.
  - destruct (gatewayEmitter w); [|done].
    eapply watchInv_sameWatch; [|exact Hinv]. by repeat split.
  - by apply watchInv_fireTimer.
  - destruct (gateway w); [|done].
    eapply watchInv_sameWatch; [|exact Hinv]. by repeat split.
  - eapply watchInv_sameWatch; [apply sameWatch_dispatchAbort | exact Hinv].
  - done.
Qed.

Lemma watchInv_deliverAll evs w : watchInv w → watchInv (deliverAll evs w).
Proof.
  revert w. induction evs as [|ev evs IH]; intros w Hinv; simpl; [done|].
  apply IH. by apply watchInv_deliver.
Qed.

(** ** Stall rounds *)

Lemma handleEffects_app t1 t2 :
  handleEffects (t1 ++ t2) = handleEffects t1 ++ handleEffects t2.
Proof. apply List.filter_app. Qed.

Lemma handleEffects_dropPoll w : handleEffects (dropPollEffects w) = [].
Proof. unfold dropPollEffects. by destruct (helloConnectedPollId w). Qed.

Lemma handleEffects_clearHelloWatch w :
  handleEffects (trace (clearHelloWatch w)) = handleEffects (trace w).
Proof.
  rewrite clearHelloWatch_trace, handleEffects_app.
  destruct (helloTimeoutId w), (helloConnectedPollId w); simpl; by rewrite app_nil_r.
Qed.

(** The deadline timer found right after a CONNECTION-OPENED line. *)
Lemma opened_then_deadline m w :
  watchInv w → isOpenedMessage m = true →
  let w1 := onGatewayDebug m w in
  let cell := length (sawConnected w) in
  fireDeadline w1
  = helloTimeout cell
      (setTimers [mkTimer (nextTimerId w) true HELLO_CONNECTED_POLL_MS
                    (HelloConnectedPoll cell)] w1)
  ∧ confirmed cell w1 = gatewayIsConnected w.
Proof.
  intros Hinv Ho. cbv zeta.
  destruct (onGatewayDebug_opened m w Ho) as (Ht & Hp & Hd & Hn & Hcells & Hs & Hg & Htr).
  rewrite (clearHelloWatch_timers w (inv_held w Hinv)) in Ht. simpl in Ht.
  split.
  - unfold fireDeadline, fireTimer. rewrite Hd, Ht. unfold findTimer. simpl.
    replace (Nat.eqb (nextTimerId w) (S (nextTimerId w))) with false
      by (symmetry; apply Nat.eqb_neq; lia).
    rewrite Nat.eqb_refl. simpl. unfold removeTimer.
    rewrite filter_cons. case_decide; [|simpl in *; lia].
    rewrite filter_cons. case_decide; [simpl in *; lia|]. done.
  - unfold confirmed, gatewayIsConnected. rewrite Hcells, Hg.
    rewrite lookup_app_r by done. rewrite Nat.sub_diag. simpl.
    unfold gatewayIsConnected. by rewrite orb_diag.
Qed.

Lemma confirmed_setTimers cell ts w :
  confirmed cell (setTimers ts w) = confirmed cell w.
Proof. reflexivity. Qed.

(** One stall round below the escalation threshold, for any line that
    announces an opened connection. *)
Lemma openedRound_retry m w g :
  isOpenedMessage m = true →
  watchInv w → gateway w = Some g → isConnected g = false →
  consecutiveHelloStalls w + 1 < MAX_CONSECUTIVE_HELLO_STALLS →
  let w' := fireDeadline (onGatewayDebug m w) in
  gateway w' = Some g
  ∧ consecutiveHelloStalls w' = consecutiveHelloStalls w + 1
  ∧ (∃ quiet, trace w' = trace w ++ quiet ++ [GatewayDisconnect; GatewayConnect true]
              ∧ handleEffects quiet = [])
  ∧ watchInv w'.
Proof.
  intros Ho Hinv Hg Hconn Hlt. cbv zeta.
  assert (Hinv' : watchInv (fireDeadline (onGatewayDebug m w))).
  { unfold fireDeadline.
    pose proof (watchInv_onGatewayDebug m w Hinv).
    destruct (helloTimeoutId _); [by apply watchInv_fireTimer | done]. }
  destruct (opened_then_deadline _ w Hinv Ho) as [Hfire Hconf].
  destruct (onGatewayDebug_opened _ w Ho) as (Ht & Hp & Hd & Hn & Hcells & Hs & Hg1 & Htr).
  rewrite Hfire in *.
  remember (onGatewayDebug m w) as w1 eqn:Ew1. clear Ew1.
  remember (setTimers [mkTimer (nextTimerId w) true HELLO_CONNECTED_POLL_MS
                         (HelloConnectedPoll (length (sawConnected w)))] w1)
    as w2 eqn:Ew2.
  assert (Hconf2 : confirmed (length (sawConnected w)) w2 = false).
  { rewrite Ew2, confirmed_setTimers, Hconf. unfold gatewayIsConnected. by rewrite Hg. }
  assert (Hs2 : consecutiveHelloStalls w2 = consecutiveHelloStalls w)
    by (rewrite Ew2; exact Hs).
  assert (Hg2 : gateway w2 = Some g) by (rewrite Ew2; simpl; congruence).
  assert (Htr2 : trace w2 = trace w1) by (by rewrite Ew2).
  clear Ew2.
  rewrite helloTimeout_retry in * by (rewrite ?Hs2; done).
  rewrite Hs2 in *.
  destruct (dropPoll_fields w2) as (Dtr & _ & _ & Dg & _ & _ & _).
  split; [|split; [|split]]; try done.
  - unfold gatewayConnect, gatewayDisconnect. simpl. rewrite Dg, Hg2. simpl.
    rewrite Dg, Hg2. simpl. by rewrite Dg, Hg2.
  - unfold gatewayConnect, gatewayDisconnect. simpl. rewrite Dg, Hg2. simpl.
    by rewrite Dg, Hg2.
  - unfold gatewayConnect, gatewayDisconnect. simpl. rewrite Dg, Hg2. simpl.
    rewrite Dg, Hg2. simpl.
    rewrite Dtr, Htr2, Htr, clearHelloWatch_trace.
    exists ([ClearHelloWatch]
            ++ match helloTimeoutId w with Some id => [ClearTimeout id] | None => [] end
            ++ match helloConnectedPollId w with Some id => [ClearInterval id] | None => [] end
            ++ [SetInterval (nextTimerId w) HELLO_CONNECTED_POLL_MS;
                SetTimeout (S (nextTimerId w)) HELLO_TIMEOUT_MS]
            ++ dropPollEffects w2
            ++ [RuntimeLog (StallLine false HELLO_TIMEOUT_MS
                              (consecutiveHelloStalls w + 1)
                              MAX_CONSECUTIVE_HELLO_STALLS)]).
    split.
    + rewrite <- !app_assoc. reflexivity.
    + rewrite !handleEffects_app, handleEffects_dropPoll.
      destruct (helloTimeoutId w), (helloConnectedPollId w); reflexivity.
Qed.

(** One stall round at the escalation threshold. *)
Lemma openedRound_escalate m w g st :
  isOpenedMessage m = true →
  watchInv w → gateway w = Some g → isConnected g = false → state g = Some st →
  (MAX_CONSECUTIVE_HELLO_STALLS ≤ consecutiveHelloStalls w + 1)%nat →
  let w' := fireDeadline (onGatewayDebug m w) in
  gateway w' = Some (mkGateway false (Some (mkResumeState None None None)) None
                       (reconnectMaxAttempts g))
  ∧ consecutiveHelloStalls w' = 0
  ∧ (∃ quiet,
        trace w' = trace w ++ quiet
                     ++ [RuntimeLog (StallLine true HELLO_TIMEOUT_MS
                                       (consecutiveHelloStalls w + 1)
                                       MAX_CONSECUTIVE_HELLO_STALLS);
                         WriteSessionIdNull; WriteResumeGatewayUrlNull;
                         WriteStateSequenceNull; WriteSequenceNull;
                         GatewayDisconnect; GatewayConnect false]
        ∧ handleEffects quiet = []).
Proof.
  intros Ho Hinv Hg Hconn Hst Hge. cbv zeta.
  destruct (opened_then_deadline _ w Hinv Ho) as [Hfire Hconf].
  destruct (onGatewayDebug_opened _ w Ho) as (Ht & Hp & Hd & Hn & Hcells & Hs & Hg1 & Htr).
  rewrite Hfire in *.
  remember (onGatewayDebug m w) as w1 eqn:Ew1. clear Ew1.
  remember (setTimers [mkTimer (nextTimerId w) true HELLO_CONNECTED_POLL_MS
                         (HelloConnectedPoll (length (sawConnected w)))] w1)
    as w2 eqn:Ew2.
  assert (Hconf2 : confirmed (length (sawConnected w)) w2 = false).
  { rewrite Ew2, confirmed_setTimers, Hconf. unfold gatewayIsConnected. by rewrite Hg. }
  assert (Hs2 : consecutiveHelloStalls w2 = consecutiveHelloStalls w)
    by (rewrite Ew2; exact Hs).
  assert (Hg2 : gateway w2 = Some g) by (rewrite Ew2; simpl; congruence).
  assert (Htr2 : trace w2 = trace w1) by (by rewrite Ew2).
  clear Ew2.
  rewrite helloTimeout_escalate in * by (rewrite ?Hs2; done).
  rewrite Hs2 in *.
  destruct (dropPoll_fields w2) as (Dtr & _ & _ & Dg & _ & _ & _).
  destruct g as [conn gst gseq gmax]. simpl in Hconn, Hst. subst conn gst.
  unfold gatewayConnect, gatewayDisconnect, clearResumeState.
  simpl. rewrite Dg, Hg2. simpl.
  split; [done|]. split; [done|].
  rewrite Dtr, Htr2, Htr, clearHelloWatch_trace.
  exists ([ClearHelloWatch]
          ++ match helloTimeoutId w with Some id => [ClearTimeout id] | None => [] end
          ++ match helloConnectedPollId w with Some id => [ClearInterval id] | None => [] end
          ++ [SetInterval (nextTimerId w) HELLO_CONNECTED_POLL_MS;
              SetTimeout (S (nextTimerId w)) HELLO_TIMEOUT_MS]
          ++ dropPollEffects w2).
  split.
  - rewrite <- !app_assoc. reflexivity.
  - rewrite !handleEffects_app, handleEffects_dropPoll.
    destruct (helloTimeoutId w), (helloConnectedPollId w); reflexivity.
Qed.

Lemma concat_repeat_snoc {A} (l : list A) n :
  concat (repeat l (S n)) = concat (repeat l n) ++ l.
Proof.
  change (concat (repeat l (S n))) with (l ++ concat (repeat l n)).
  induction n as [|n IH]; [simpl; by rewrite app_nil_r|].
  change (concat (repeat l (S n))) with (l ++ concat (repeat l n)).
  by rewrite <- app_assoc, <- IH.
Qed.

(** [n] stall rounds in a row that stay below the threshold. *)
Lemma stallRounds_retry n w g :
  watchInv w → gateway w = Some g → isConnected g = false →
  consecutiveHelloStalls w + n < MAX_CONSECUTIVE_HELLO_STALLS →
  let w' := Nat.iter n stallRound w in
  handleEffects (trace w')
  = handleEffects (trace w)
      ++ concat (repeat [GatewayDisconnect; GatewayConnect true] n)
  ∧ gateway w' = Some g
  ∧ consecutiveHelloStalls w' = consecutiveHelloStalls w + n
  ∧ watchInv w'.
Proof.
  intros Hinv Hg Hconn. induction n as [|n IH]; intros Hlt.
  { simpl. rewrite app_nil_r, Nat.add_0_r. done. }
  destruct IH as (Htr & Hg' & Hs & Hinv'); [lia|].
  cbv zeta. change (Nat.iter (S n) stallRound w) with (stallRound (Nat.iter n stallRound w)).
  remember (Nat.iter n stallRound w) as wn eqn:Ewn. clear Ewn.
  unfold stallRound.
  destruct (openedRound_retry "WebSocket connection opened" wn g)
    as (Hg'' & Hs'' & (quiet & Htr'' & Hq) & Hinv'');
    [reflexivity | exact Hinv' | exact Hg' | exact Hconn | rewrite Hs; lia |].
  split; [|split; [|split]]; [| exact Hg'' | | exact Hinv''].
  - rewrite Htr'', !handleEffects_app, Hq, Htr, concat_repeat_snoc.
    simpl. by rewrite <- app_assoc.
  - rewrite Hs'', Hs. lia.
Qed.

Lemma prologue_watch p w :
  timers (prologue p w) = timers w
  ∧ consecutiveHelloStalls (prologue p w) = 0
  ∧ helloTimeoutId (prologue p w) = None
  ∧ helloConnectedPollId (prologue p w) = None.
Proof.
  unfold prologue.
  set (w1 := match gateway w with Some _ => _ | None => _ end).
  assert (H1 : sameWatch w w1).
  { subst w1. destruct (gateway w); [apply sameWatch_emit | apply sameWatch_refl]. }
  set (w2 := emit AttachGatewayLogging w1).
  set (w3 := if signalAborted w2 then _ else _).
  assert (H3 : sameWatch w2 w3).
  { subst w3. destruct (signalAborted w2);
      [apply sameWatch_onAbort | apply sameWatch_addAbortListener]. }
  set (w4 := setConsecutiveHelloStalls 0 _).
  destruct (sameWatch_addDebugListener w4) as (A1 & _ & _ & A4 & A5 & A6).
  destruct H1 as (B1 & _), H3 as (C1 & _).
  simpl. rewrite A1, A4, A5, A6. simpl. rewrite C1. simpl. by rewrite B1.
Qed.

Lemma watchInv_prologue p : watchInv (prologue p (initialWorld p)).
Proof.
  destruct (prologue_watch p (initialWorld p)) as (Ht & Hs & _ & _).
  apply watchInv_no_timers; [by rewrite Ht|].
  rewrite Hs. unfold MAX_CONSECUTIVE_HELLO_STALLS. lia.
Qed.

(** ** The watchdog claims *)

(** C3, counterexample.  The connection opens (poll 1 and deadline 2 are
    armed), the handle becomes connected, poll 1 runs: the deadline timer 2
    is still armed afterwards, so "both timers are cancelled" fails. *)
Lemma poll_confirmation_keeps_deadline_armed :
  let w0 := deliverAll [EnvDebug "WebSocket connection opened"; EnvConnected true]
              attachedWorld in
  findTimer 1 (timers w0)
  = Some (mkTimer 1 true HELLO_CONNECTED_POLL_MS (HelloConnectedPoll 0))
  ∧ gatewayIsConnected w0 = true
  ∧ helloTimeoutId w0 = Some 2
  ∧ ¬ pollConfirmationCancelsBoth 1 w0.
Proof.
  cbv zeta. split; [reflexivity|]. split; [reflexivity|]. split; [reflexivity|].
  intros (_ & Hdeadline & _). specialize (Hdeadline 2 eq_refl).
  vm_compute in Hdeadline. discriminate.
Qed.

(** C3, amended.  When the confirmation poll runs while the handle is
    connected, the poll timer is cancelled, the stall counter is reset to 0
    and the confirmation is recorded in the cycle's [sawConnected]; the
    deadline timer is left armed. *)
Theorem poll_confirmation_cancels_poll_only w id t cell :
  watchInv w →
  findTimer id (timers w) = Some t →
  timerCallback t = HelloConnectedPoll cell →
  gatewayIsConnected w = true →
  let w' := fireTimer id w in
  consecutiveHelloStalls w' = 0
  ∧ helloConnectedPollId w' = None
  ∧ (∀ t', t' ∈ timers w' → timerRepeats t' = false)
  ∧ sawConnected w' !! cell = Some true
  ∧ helloTimeoutId w' = helloTimeoutId w
  ∧ (∀ t', timerRepeats t' = false → t' ∈ timers w → t' ∈ timers w')
  ∧ trace w' = trace w ++ [ClearInterval id].
Proof.
  intros Hinv Hfind Hcb Hconn. cbv zeta.
  pose proof Hfind as Hfind'. apply findTimer_Some in Hfind' as [Hin Hid].
  pose proof (inv_held w Hinv t Hin) as Hheld. unfold timerHeld in Hheld.
  rewrite Hcb in Hheld. destruct Hheld as [Hrep Hpoll]. rewrite Hid in Hpoll.
  pose proof (inv_cells w Hinv t Hin) as Hcell. rewrite Hcb in Hcell. simpl in Hcell.
  unfold fireTimer. rewrite Hfind, Hrep, Hcb. simpl.
  rewrite helloConnectedPoll_connected by done.
  unfold dropPoll. simpl. rewrite Hpoll. simpl.
  repeat split; try done.
  - intros t' Hin'. by apply (removeTimer_held_poll w id (inv_held w Hinv)).
  - by apply list_lookup_insert_eq.
  - intros t' Hrep' Hin'. apply removeTimer_elem. split; [|done].
    intros Heq. pose proof (inv_held w Hinv t' Hin') as Hheld'.
    unfold timerHeld in Hheld'.
    assert (t' = t) as ->.
    { pose proof (inv_ids w Hinv) as Hnd.
      apply list_elem_of_lookup in Hin as [i Hi].
      apply list_elem_of_lookup in Hin' as [j Hj].
      assert (i = j) as ->; [|congruence].
      eapply NoDup_lookup; [exact Hnd | |].
      - rewrite list_lookup_fmap, Hi. reflexivity.
      - rewrite list_lookup_fmap, Hj. simpl. congruence. }
    congruence.
Qed.

(** C3, amended: the theorem at the world of the counterexample. *)
Lemma poll_confirmation_cancels_poll_only_witness :
  let w0 := deliverAll [EnvDebug "WebSocket connection opened"; EnvConnected true]
              attachedWorld in
  let w' := fireTimer 1 w0 in
  consecutiveHelloStalls w' = 0
  ∧ helloConnectedPollId w' = None
  ∧ (∀ t', t' ∈ timers w' → timerRepeats t' = false)
  ∧ sawConnected w' !! 0 = Some true
  ∧ helloTimeoutId w' = helloTimeoutId w0
  ∧ (∀ t', timerRepeats t' = false → t' ∈ timers w0 → t' ∈ timers w')
  ∧ trace w' = trace w0 ++ [ClearInterval 1].
Proof.
  cbv zeta.
  apply (poll_confirmation_cancels_poll_only _ 1
           (mkTimer 1 true HELLO_CONNECTED_POLL_MS (HelloConnectedPoll 0)) 0).
  - apply watchInv_deliverAll, watchInv_prologue.
  - reflexivity.
  - reflexivity.
  - reflexivity.
Defined.

(** C6.  A CONNECTION-CLOSED line seen while the handle is connected resets
    the stall counter to 0 and cancels the pending deadline and poll timers,
    whatever state the watchdog is in. *)
Theorem closed_while_connected_resets_and_cancels m w :
  watchInv w →
  isClosedMessage m = true →
  gatewayIsConnected w = true →
  let w' := onGatewayDebug m w in
  consecutiveHelloStalls w' = 0
  ∧ timers w' = []
  ∧ helloTimeoutId w' = None
  ∧ helloConnectedPollId w' = None
  ∧ trace w'
    = trace w ++ [ClearHelloWatch]
        ++ match helloTimeoutId w with Some id => [ClearTimeout id] | None => [] end
        ++ match helloConnectedPollId w with Some id => [ClearInterval id] | None => [] end.
Proof.
  intros Hinv Hm Hconn. cbv zeta.
  rewrite onGatewayDebug_closed by done. rewrite Hconn.
  set (w1 := resetHelloStallCounter w).
  destruct (clearHelloWatch_other w1) as (_ & _ & _ & _ & _ & Hs & _ & _).
  destruct (clearHelloWatch_ids w1) as [Ht Hp].
  rewrite Hs, Ht, Hp, clearHelloWatch_trace.
  repeat split; try done.
  apply clearHelloWatch_timers. intros t Hin. apply (inv_held w Hinv t Hin).
Qed.

(** C6 at a concrete state: a watch cycle is running with both timers armed
    and the handle connected when the socket closes with code 1006. *)
Lemma closed_while_connected_resets_and_cancels_witness :
  let w0 := deliverAll [EnvDebug "WebSocket connection opened"; EnvTimer 2;
                        EnvConnected true; EnvDebug "WebSocket connection opened"]
              attachedWorld in
  let w' := onGatewayDebug "WebSocket connection closed with code 1006" w0 in
  (consecutiveHelloStalls w0 = 1 ∧ length (timers w0) = 2)
  ∧ consecutiveHelloStalls w' = 0
  ∧ timers w' = []
  ∧ helloTimeoutId w' = None
  ∧ helloConnectedPollId w' = None
  ∧ trace w'
    = trace w0 ++ [ClearHelloWatch]
        ++ match helloTimeoutId w0 with Some id => [ClearTimeout id] | None => [] end
        ++ match helloConnectedPollId w0 with Some id => [ClearInterval id] | None => [] end.
Proof.
  cbv zeta. split; [split; reflexivity|].
  apply closed_while_connected_resets_and_cancels.
  - apply watchInv_deliverAll, watchInv_prologue.
  - reflexivity.
  - reflexivity.
Defined.

(** C4.  In every run of [n] consecutive stall timeouts during which the
    stall counter stays below 3, each timeout calls [disconnect()] and then
    [connect(true)], and nothing else touches the handle: its session id,
    resume URL and sequence fields are as before. *)
Theorem stalls_below_threshold_retry_with_resume n w g :
  watchInv w →
  gateway w = Some g →
  isConnected g = false →
  consecutiveHelloStalls w + n < MAX_CONSECUTIVE_HELLO_STALLS →
  let w' := Nat.iter n stallRound w in
  handleEffects (trace w')
  = handleEffects (trace w)
      ++ concat (repeat [GatewayDisconnect; GatewayConnect true] n)
  ∧ gateway w' = Some g
  ∧ consecutiveHelloStalls w' = consecutiveHelloStalls w + n.
Proof.
  intros Hinv Hg Hconn Hlt.
  destruct (stallRounds_retry n w g Hinv Hg Hconn Hlt) as (H1 & H2 & H3 & _).
  cbv zeta. auto.
Qed.

(** C4 on the repository's test handle: two stalls in a row. *)
Lemma stalls_below_threshold_retry_with_resume_witness :
  let w' := Nat.iter 2 stallRound attachedWorld in
  handleEffects (trace w')
  = handleEffects (trace attachedWorld)
      ++ [GatewayDisconnect; GatewayConnect true; GatewayDisconnect; GatewayConnect true]
  ∧ gateway w' = Some exampleGateway
  ∧ consecutiveHelloStalls w' = 2.
Proof.
  apply (stalls_below_threshold_retry_with_resume 2 attachedWorld exampleGateway).
  - apply watchInv_prologue.
  - reflexivity.
  - reflexivity.
  - vm_compute. lia.
Defined.

(** C5.  On the third consecutive stall timeout the watchdog writes [null]
    to the handle's session id, resume URL and sequence fields, then calls
    [disconnect()] and [connect(false)]; the stall counter is 0 afterwards. *)
Theorem third_stall_forces_fresh_identify w g st :
  watchInv w →
  gateway w = Some g →
  isConnected g = false →
  state g = Some st →
  consecutiveHelloStalls w = 0 →
  let w2 := Nat.iter 2 stallRound w in
  let w3 := stallRound w2 in
  (∃ quiet,
      trace w3 = trace w2 ++ quiet
                   ++ [RuntimeLog (StallLine true HELLO_TIMEOUT_MS 3
                                     MAX_CONSECUTIVE_HELLO_STALLS);
                       WriteSessionIdNull; WriteResumeGatewayUrlNull;
                       WriteStateSequenceNull; WriteSequenceNull;
                       GatewayDisconnect; GatewayConnect false]
      ∧ handleEffects quiet = [])
  ∧ gateway w3 = Some (mkGateway false (Some (mkResumeState None None None)) None
                         (reconnectMaxAttempts g))
  ∧ consecutiveHelloStalls w3 = 0.
Proof.
  intros Hinv Hg Hconn Hst Hs. cbv zeta.
  destruct (stallRounds_retry 2 w g Hinv Hg Hconn) as (_ & Hg2 & Hs2 & Hinv2).
  { rewrite Hs. unfold MAX_CONSECUTIVE_HELLO_STALLS. lia. }
  remember (Nat.iter 2 stallRound w) as w2 eqn:Ew2. clear Ew2.
  unfold stallRound.
  destruct (openedRound_escalate "WebSocket connection opened" w2 g st)
    as (Hg3 & Hs3 & Htr3);
    [reflexivity | exact Hinv2 | exact Hg2 | exact Hconn | exact Hst | |].
  { rewrite Hs2, Hs. unfold MAX_CONSECUTIVE_HELLO_STALLS. lia. }
  rewrite Hs2, Hs in Htr3. simpl in Htr3.
  split; [exact Htr3|]. split; [exact Hg3 | exact Hs3].
Qed.

(** C5 on the repository's test handle. *)
Lemma third_stall_forces_fresh_identify_witness :
  let w2 := Nat.iter 2 stallRound attachedWorld in
  let w3 := stallRound w2 in
  (∃ quiet,
      trace w3 = trace w2 ++ quiet
                   ++ [RuntimeLog (StallLine true HELLO_TIMEOUT_MS 3
                                     MAX_CONSECUTIVE_HELLO_STALLS);
                       WriteSessionIdNull; WriteResumeGatewayUrlNull;
                       WriteStateSequenceNull; WriteSequenceNull;
                       GatewayDisconnect; GatewayConnect false]
      ∧ handleEffects quiet = [])
  ∧ gateway w3 = Some (mkGateway false (Some (mkResumeState None None None)) None None)
  ∧ consecutiveHelloStalls w3 = 0.
Proof.
  apply (third_stall_forces_fresh_identify attachedWorld exampleGateway
           (mkResumeState (Some "session-1") (Some "wss://gateway.discord.gg")
              (Some 123%Z))).
  - apply watchInv_prologue.
  - reflexivity.
  - reflexivity.
  - reflexivity.
  - reflexivity.
Defined.

(** ** Every handler the environment runs is an [envStep] *)

Lemma envStep_refl w : envStep w w.
Proof. split; try done. exists []. by rewrite app_nil_r. Qed.

Lemma envStep_trans w1 w2 w3 : envStep w1 w2 → envStep w2 w3 → envStep w1 w3.
Proof.
  intros [A1 A2 A3 A4 A5 (e1 & A6 & A7)] [B1 B2 B3 B4 B5 (e2 & B6 & B7)].
  split; try congruence.
  - by rewrite B5.
  - exists (e1 ++ e2). rewrite B6, A6, <- app_assoc. split; [done|].
    by rewrite forallb_app, A7, B7.
Qed.

Lemma envStep_dropPoll w : envStep w (dropPoll w).
Proof.
  unfold dropPoll. destruct (helloConnectedPollId w); [|apply envStep_refl].
  step_by_computation.
Qed.

Lemma envStep_clearHelloWatch w : envStep w (clearHelloWatch w).
Proof.
  unfold clearHelloWatch. simpl.
  destruct (helloTimeoutId w); simpl; destruct (helloConnectedPollId w);
    step_by_computation.
Qed.

Lemma envStep_resetHelloStallCounter w : envStep w (resetHelloStallCounter w).
Proof. split; simpl; try done. exists []. by rewrite app_nil_r. Qed.

Lemma envStep_gatewayDisconnect w : envStep w (gatewayDisconnect w).
Proof.
  unfold gatewayDisconnect. destruct (gateway w); [|apply envStep_refl].
  step_by_computation.
Qed.

Lemma envStep_gatewayConnect b w : envStep w (gatewayConnect b w).
Proof.
  unfold gatewayConnect. destruct (gateway w); [|apply envStep_refl].
  step_by_computation.
Qed.

Lemma envStep_clearResumeState w : envStep w (clearResumeState w).
Proof.
  unfold clearResumeState. destruct (gateway w) as [g|]; [|apply envStep_refl].
  destruct (state g); [|apply envStep_refl]. step_by_computation.
Qed.

Lemma envStep_helloConnectedPoll cell w : envStep w (helloConnectedPoll cell w).
Proof.
  destruct (gatewayIsConnected w) eqn:Hc.
  2:{ rewrite helloConnectedPoll_idle by done. apply envStep_refl. }
  rewrite helloConnectedPoll_connected by done.
  eapply envStep_trans; [|apply envStep_dropPoll].
  split; simpl; try done. exists []. by rewrite app_nil_r.
Qed.

Lemma envStep_helloTimeout cell w : envStep w (helloTimeout cell w).
Proof.
  assert (Hset : ∀ x, envStep x (setHelloTimeoutId None x)).
  { intros x. split; simpl; try done. exists []. by rewrite app_nil_r. }
  destruct (confirmed cell w) eqn:Hconf.
  { rewrite helloTimeout_confirmed by done.
    eapply envStep_trans; [|apply Hset].
    eapply envStep_trans; [|apply envStep_resetHelloStallCounter].
    apply envStep_dropPoll. }
  assert (Hlog : ∀ b, envStep w
            (emit (RuntimeLog (StallLine b HELLO_TIMEOUT_MS
                                 (consecutiveHelloStalls w + 1)
                                 MAX_CONSECUTIVE_HELLO_STALLS))
               (setConsecutiveHelloStalls (consecutiveHelloStalls w + 1) (dropPoll w)))).
  { intros b. eapply envStep_trans; [apply envStep_dropPoll|]. step_by_computation. }
  destruct (Nat.lt_ge_cases (consecutiveHelloStalls w + 1) MAX_CONSECUTIVE_HELLO_STALLS)
    as [Hlt | Hge].
  - rewrite helloTimeout_retry by done.
    eapply envStep_trans; [|apply Hset].
    eapply envStep_trans; [|apply envStep_gatewayConnect].
    eapply envStep_trans; [|apply envStep_gatewayDisconnect].
    apply Hlog.
  - rewrite helloTimeout_escalate by done.
    eapply envStep_trans; [|apply Hset].
    eapply envStep_trans; [|apply envStep_gatewayConnect].
    eapply envStep_trans; [|apply envStep_gatewayDisconnect].
    eapply envStep_trans; [|apply envStep_resetHelloStallCounter].
    eapply envStep_trans; [|apply envStep_clearResumeState].
    apply Hlog.
Qed.

Lemma envStep_onGatewayDebug m w : envStep w (onGatewayDebug m w).
Proof.
  destruct (isClosedMessage m) eqn:Hc.
  { rewrite onGatewayDebug_closed by done.
    eapply envStep_trans; [|apply envStep_clearHelloWatch].
    destruct (gatewayIsConnected w);
      [apply envStep_resetHelloStallCounter | apply envStep_refl]. }
  destruct (isOpenedMessage m) eqn:Ho.
  2:{ rewrite onGatewayDebug_other by done. apply envStep_refl. }
  eapply envStep_trans; [apply (envStep_clearHelloWatch w)|].
  unfold isClosedMessage in Hc. unfold isOpenedMessage in Ho.
  rewrite Hc in Ho. simpl in Ho.
  unfold onGatewayDebug. rewrite Hc, Ho. cbn [negb].
  generalize (clearHelloWatch w). intros x. step_by_computation.
Qed.

Lemma envStep_fireTimer id w : envStep w (fireTimer id w).
Proof.
  unfold fireTimer. destruct (findTimer id (timers w)) as [t|]; [|apply envStep_refl].
  set (w1 := if timerRepeats t then w else _).
  assert (H1 : envStep w w1).
  { subst w1. destruct (timerRepeats t); [apply envStep_refl|].
    split; simpl; try done. exists []. by rewrite app_nil_r. }
  eapply envStep_trans; [exact H1|].
  destruct (timerCallback t); simpl;
    [apply envStep_helloConnectedPoll | apply envStep_helloTimeout].
Qed.

Lemma envStep_onAbort w : envStep w (onAbort w).
Proof.
  unfold onAbort, gatewayDisconnect. destruct (gateway w) as [g|]; [|apply envStep_refl].
  destruct (gatewayEmitter w) eqn:He;
    (split; simpl; rewrite ?He; try done;
     eexists; split; [rewrite <- ?app_assoc; simpl; reflexivity | reflexivity]).
Qed.

Lemma envStep_fold {A} (f : A → World → World) (l : list A) w :
  (∀ a y, envStep y (f a y)) →
  envStep w (fold_left (fun acc a => f a acc) l w).
Proof.
  intros Hf. revert w. induction l as [|a l IH]; intros w; simpl; [apply envStep_refl|].
  eapply envStep_trans; [apply Hf | apply IH].
Qed.

Lemma envStep_dispatchAbort w : envStep w (dispatchAbort w).
Proof.
  unfold dispatchAbort. destruct (abortSignal w) as [s|] eqn:Hs; [|apply envStep_refl].
  set (w1 := setAbortSignal _ w).
  assert (H1 : envStep w w1).
  { split; simpl; try done. exists []. by rewrite app_nil_r. }
  eapply envStep_trans; [exact H1|].
  apply (envStep_fold (fun _ y => onAbort y)). intros _ y. apply envStep_onAbort.
Qed.

Lemma envStep_deliver ev w : envStep w (deliver ev w).
Proof.
  destruct ev as [msg|err|id|b| |err]; simpl.
  - destruct (gatewayEmitter w) as [em|]; [|apply envStep_refl].
    apply (envStep_fold (fun _ y => onGatewayDebug msg y)).
    intros _ y. apply envStep_onGatewayDebug.
  - destruct (gatewayEmitter w) as [em|] eqn:He; [|apply envStep_refl].
    split; simpl; rewrite ?He; try done. exists []. by rewrite app_nil_r.
  - apply envStep_fireTimer.
  - destruct (gateway w); [|apply envStep_refl].
    split; simpl; try done. exists []. by rewrite app_nil_r.
  - apply envStep_dispatchAbort.
  - apply envStep_refl.
Qed.

Lemma envStep_deliverAll evs w : envStep w (deliverAll evs w).
Proof. apply (envStep_fold deliver). intros a y. apply envStep_deliver. Qed.

(** ** Running the control-flow combinators *)

Lemma run_bind {A B} (m : M A) (k : A → M B) w :
  (m ≫= k) w
  = match m w with
    | (Normal a, w1) => k a w1
    | (Returned, w1) => (Returned, w1)
    | (Threw e, w1) => (Threw e, w1)
    end.
Proof. reflexivity. Qed.

Lemma run_lift f w : lift f w = (Normal tt, f w).
Proof. reflexivity. Qed.

Lemma run_ret {A} (a : A) w : (mret a : M A) w = (Normal a, w).
Proof. reflexivity. Qed.

(** ** Teardown *)

Lemma teardown_returns p env w :
  teardownOk env → teardown p env w = (Normal tt, teardownWorld p env w).
Proof.
  intros (H1 & H2 & H3 & H4 & H5 & H6).
  unfold teardown, teardownWorld, call, await.
  rewrite H1, H2, H3, H4, H5, H6.
  destruct (releaseEarlyGatewayErrorGuard p), (voiceManager p), (execApprovalsHandler p);
    reflexivity.
Qed.

Lemma quiescent_deliver ev w :
  quiescent w → trace (deliver ev w) = trace w ∧ quiescent (deliver ev w).
Proof.
  intros Hq. pose proof Hq as (Ht & Hd & Ha).
  destruct ev as [msg|err|id|b| |err]; simpl; [| | | | |done].
  - destruct (gatewayEmitter w) as [em|] eqn:He; [|done].
    by rewrite (Hd em eq_refl).
  - destruct (gatewayEmitter w) as [em|] eqn:He; [|done].
    split; [done|]. repeat split; simpl; try done.
    intros em' [= <-]. simpl. by apply Hd.
  - unfold fireTimer. by rewrite Ht.
  - destruct (gateway w); done.
  - unfold dispatchAbort. destruct (abortSignal w) as [s|] eqn:Hs; [|done].
    rewrite (Ha s eq_refl). simpl. split; [done|]. repeat split; simpl; try done.
    intros s' [= <-]. done.
Qed.

Lemma quiescent_deliverAll evs w :
  quiescent w → trace (deliverAll evs w) = trace w ∧ quiescent (deliverAll evs w).
Proof.
  revert w. induction evs as [|ev evs IH]; intros w Hq; simpl; [done|].
  destruct (quiescent_deliver ev w Hq) as (Ht & Hq').
  destruct (IH _ Hq') as (Ht' & Hq'').
  by rewrite Ht', Ht.
Qed.

(** With no hook throwing, the [finally] clause emits exactly
    [teardownEffects] and leaves nothing attached. *)
Lemma teardownWorld_trace p env w :
  lifeInv w →
  trace (teardownWorld p env w) = trace w ++ teardownEffects p w
  ∧ quiescent (teardownWorld p env w).
Proof.
  intros [Hinv Hatt]. unfold teardownWorld, teardownEffects.
  set (w1 := if releaseEarlyGatewayErrorGuard p then _ else w).
  set (w2 := emit StopGatewayLogging _).
  assert (Hsame : sameWatch w w2).
  { subst w2 w1. destruct (releaseEarlyGatewayErrorGuard p); by repeat split. }
  assert (Hem : gatewayEmitter w2 = gatewayEmitter w).
  { subst w2 w1. by destruct (releaseEarlyGatewayErrorGuard p). }
  assert (Hsig : abortSignal w2 = abortSignal w).
  { subst w2 w1. by destruct (releaseEarlyGatewayErrorGuard p). }
  assert (Htr2 : trace w2
                 = trace w ++ (if releaseEarlyGatewayErrorGuard p
                               then [ReleaseEarlyGatewayErrorGuard] else [])
                     ++ [UnregisterGateway (accountId p); StopGatewayLogging]).
  { subst w2 w1. destruct (releaseEarlyGatewayErrorGuard p); simpl;
      rewrite <- ?app_assoc; done. }
  pose proof (watchInv_sameWatch _ _ Hsame Hinv) as Hinv2.
  destruct Hsame as (_ & _ & _ & Hti & Hpi & _).
  clearbody w2. clear w1.
  set (w3 := removeAbortListener _).
  assert (H3 : trace w3
               = trace w2 ++ [ClearHelloWatch]
                   ++ match helloTimeoutId w with Some id => [ClearTimeout id] | None => [] end
                   ++ match helloConnectedPollId w with Some id => [ClearInterval id] | None => [] end
                   ++ match gatewayEmitter w with Some _ => [EmitterRemoveDebug] | None => [] end
                   ++ match abortSignal w with Some _ => [AbortRemoveListener] | None => [] end
               ∧ quiescent w3).
  { subst w3.
    pose proof (clearHelloWatch_trace w2) as Hc.
    pose proof (clearHelloWatch_timers w2 (inv_held w2 Hinv2)) as Hct.
    destruct (clearHelloWatch_other w2) as (_ & Hce & Hcs & _).
    rewrite Hti, Hpi in Hc. rewrite Hem in Hce. rewrite Hsig in Hcs.
    generalize dependent (clearHelloWatch w2). intros x Hc Hct Hce Hcs.
    unfold removeAbortListener, removeDebugListener. rewrite Hce.
    destruct (gatewayEmitter w) as [em|] eqn:He; simpl; rewrite Hcs;
      destruct (abortSignal w) as [s|] eqn:Hs; simpl; rewrite Hc, <- ?app_assoc;
      (split; [by rewrite ?app_nil_r|]); repeat split; simpl; try done;
      try (intros ? [= <-]; simpl; try done; by rewrite (Hatt _ He)).
    all: intros ? Hx; rewrite ?Hce, ?Hcs in Hx; discriminate. }
  destruct H3 as [Htr3 Hq3]. clearbody w3.
  set (w4 := if voiceManager p then _ else w3).
  assert (H4 : trace w4
               = trace w3 ++ (if voiceManager p
                              then [VoiceManagerDestroy; VoiceManagerRefCleared] else [])
               ∧ quiescent w4).
  { subst w4. destruct (voiceManager p); [|by rewrite app_nil_r].
    destruct (quiescent_deliverAll (duringDestroy env) (emit VoiceManagerDestroy w3))
      as (Ht & Hq); [exact Hq3|].
    simpl. rewrite Ht. simpl. rewrite <- app_assoc. done. }
  destruct H4 as [Htr4 Hq4]. clearbody w4.
  set (w5 := if execApprovalsHandler p then _ else w4).
  assert (H5 : trace w5
               = trace w4 ++ (if execApprovalsHandler p then [ApprovalsStop] else [])
               ∧ quiescent w5).
  { subst w5. destruct (execApprovalsHandler p); [|by rewrite app_nil_r].
    destruct (quiescent_deliverAll (duringStop env) (emit ApprovalsStop w4))
      as (Ht & Hq); [exact Hq4|].
    by rewrite Ht. }
  destruct H5 as [Htr5 Hq5]. clearbody w5.
  split; [|exact Hq5].
  simpl. rewrite Htr5, Htr4, Htr3, Htr2. rewrite <- !app_assoc. reflexivity.
Qed.

(** ** Invariants along the [try]/[catch] statement *)

Lemma preserves_ret {A} P (a : A) : preserves P (mret a : M A).
Proof. intros w c w' HP [= <- <-]. done. Qed.

Lemma preserves_throw {A} P e : preserves P (throw e : M A).
Proof. intros w c w' HP [= <- <-]. done. Qed.

Lemma preserves_returnEarly {A} P : preserves P (returnEarly : M A).
Proof. intros w c w' HP [= <- <-]. done. Qed.

Lemma preserves_getWorld P : preserves P getWorld.
Proof. intros w c w' HP [= <- <-]. done. Qed.

Lemma preserves_lift P f : (∀ w, P w → P (f w)) → preserves P (lift f).
Proof. intros Hf w c w' HP [= <- <-]. by apply Hf. Qed.

Lemma preserves_bind {A B} P (m : M A) (k : A → M B) :
  preserves P m → (∀ a, preserves P (k a)) → preserves P (m ≫= k).
Proof.
  intros Hm Hk w c w' HP. rewrite run_bind.
  destruct (m w) as [[a| |e] w1] eqn:Em; intros H.
  - eapply Hk; [|exact H]. eapply Hm; eauto.
  - injection H as <- <-. eapply Hm; eauto.
  - injection H as <- <-. eapply Hm; eauto.
Qed.

Lemma preserves_tryCatch {A} P (m : M A) (h : Thrown → M A) :
  preserves P m → (∀ e, preserves P (h e)) → preserves P (tryCatch m h).
Proof.
  intros Hm Hh w c w' HP. unfold tryCatch.
  destruct (m w) as [[a| |e] w1] eqn:Em; intros H.
  - injection H as <- <-. eapply Hm; eauto.
  - injection H as <- <-. eapply Hm; eauto.
  - eapply Hh; [|exact H]. eapply Hm; eauto.
Qed.

Lemma preserves_await P eff during result :
  (∀ w, P w → P (emit eff w)) →
  (∀ w, P w → P (deliverAll during w)) →
  preserves P (await eff during result).
Proof.
  intros He Hd w c w' HP. unfold await.
  destruct result; intros [= <- <-]; by apply Hd, He.
Qed.

Lemma preserves_call P eff result :
  (∀ w, P w → P (emit eff w)) → preserves P (call eff result).
Proof.
  intros He w c w' HP. unfold call. destruct result; intros [= <- <-]; by apply He.
Qed.

Lemma runInv_envStep p w w' : watchInv w' → envStep w w' → runInv p w → runInv p w'.
Proof.
  intros Hinv' [_ _ _ Hl Hs _] ([Hinv Hatt] & He & Hsig).
  split; [split|split]; try done.
  - intros em Hem. rewrite Hem in Hl.
    destruct (gatewayEmitter w) as [em0|] eqn:E0; [|done].
    simpl in Hl. injection Hl as ->. by apply Hatt.
  - rewrite <- He. destruct (gatewayEmitter w), (gatewayEmitter w'); simpl in Hl;
      try done; split; intros [? ?]; done.
  - by rewrite Hs.
Qed.

Lemma runInv_deliverAll p evs w : runInv p w → runInv p (deliverAll evs w).
Proof.
  intros H. eapply runInv_envStep; [|apply envStep_deliverAll|exact H].
  apply watchInv_deliverAll. apply H.
Qed.

Lemma runInv_deliver p ev w : runInv p w → runInv p (deliver ev w).
Proof.
  intros H. eapply runInv_envStep; [|apply envStep_deliver|exact H].
  apply watchInv_deliver. apply H.
Qed.

Lemma runInv_emit p e w : runInv p w → runInv p (emit e w).
Proof.
  intros ([Hinv Hatt] & He & Hsig). split; [split|split]; try done.
  eapply watchInv_sameWatch; [apply sameWatch_emit | done].
Qed.

Lemma runInv_logGatewayError p q err w : runInv p w → runInv p (logGatewayError q err w).
Proof.
  intros ([Hinv Hatt] & He & Hsig). unfold logGatewayError.
  destruct (isDisallowedIntentsError q err); (split; [split|split]); try done;
    (eapply watchInv_sameWatch; [|exact Hinv]); by repeat split.
Qed.

Lemma runInv_clearPendingGatewayErrors p w :
  runInv p w → runInv p (clearPendingGatewayErrors w).
Proof.
  intros ([Hinv Hatt] & He & Hsig). split; [split|split]; try done.
  eapply watchInv_sameWatch; [|exact Hinv]. by repeat split.
Qed.

Lemma preserves_drainQueued p q queued : preserves (runInv p) (drainQueued q queued).
Proof.
  induction queued as [|err rest IH]; simpl; [apply preserves_ret|].
  apply preserves_bind; [apply preserves_lift, runInv_logGatewayError|].
  intros _. destruct (negb _); [exact IH|].
  destruct (isDisallowedIntentsError q err);
    [apply preserves_returnEarly | apply preserves_throw].
Qed.

Lemma preserves_waitForStop p q stream :
  preserves (runInv p)
    (waitForStop (logGatewayError q) (shouldStopOnGatewayError q) stream).
Proof.
  induction stream as [|ev rest IH]; [apply preserves_ret|].
  destruct ev as [msg|err|id|b| |err]; simpl.
  - apply preserves_bind; [apply preserves_lift, runInv_deliver | intros _; exact IH].
  - apply preserves_bind; [apply preserves_lift, (runInv_deliver p (EnvError err))|].
    intros _. apply preserves_bind; [apply preserves_lift, runInv_logGatewayError|].
    intros _. destruct (shouldStopOnGatewayError q err); [apply preserves_throw | exact IH].
  - apply preserves_bind; [apply preserves_lift, runInv_deliver | intros _; exact IH].
  - apply preserves_bind; [apply preserves_lift, runInv_deliver | intros _; exact IH].
  - apply preserves_lift, (runInv_deliver p EnvAbort).
  - apply preserves_throw.
Qed.

Lemma preserves_lifecycleBody p env : preserves (runInv p) (lifecycleBody p env).
Proof.
  apply preserves_tryCatch.
  - unfold lifecycleTry. apply preserves_bind; [|intros _; apply preserves_bind].
    + unfold startExecApprovals. destruct (execApprovalsHandler p); [|apply preserves_ret].
      apply preserves_await; [apply runInv_emit | apply runInv_deliverAll].
    + unfold drainPendingGatewayErrors. apply preserves_bind; [apply preserves_getWorld|].
      intros w. destruct (0 <? _)%nat; [|apply preserves_ret].
      apply preserves_bind; [apply preserves_lift, runInv_clearPendingGatewayErrors|].
      intros _. apply preserves_drainQueued.
    + intros _. unfold waitForDiscordGatewayStop.
      apply preserves_bind; [apply preserves_lift, runInv_emit|].
      intros _. apply preserves_bind; [apply preserves_getWorld|].
      intros w. destruct (signalAborted w); [apply preserves_ret|].
      apply preserves_waitForStop.
  - intros e. unfold lifecycleCatch. apply preserves_bind; [apply preserves_getWorld|].
    intros w. destruct (_ && _); [apply preserves_throw | apply preserves_ret].
Qed.

Lemma runInv_prologue p : runInv p (prologue p (initialWorld p)).
Proof.
  split; [split|]; [apply watchInv_prologue | |].
  - unfold emitterAttached, prologue, initialWorld, onAbort, addAbortListener,
      addDebugListener, signalAborted, gatewayDisconnect. simpl.
    destruct (clientGateway p), (emitterPresent p), (signal p) as [[|]|]; simpl;
      intros em [= <-]; reflexivity.
  - unfold prologue, initialWorld, onAbort, addAbortListener,
      addDebugListener, signalAborted, gatewayDisconnect. simpl.
    destruct (clientGateway p), (emitterPresent p), (signal p) as [[|]|]; simpl;
      split; split; try done; try (intros [? ?]; done); eauto.
Qed.

(** ** C1: teardown *)

Lemma configuredHooks_NoDup p : NoDup (configuredHooks p).
Proof.
  unfold configuredHooks.
  destruct (releaseEarlyGatewayErrorGuard p), (emitterPresent p), (signal p),
    (voiceManager p), (execApprovalsHandler p); simpl;
    repeat (apply NoDup_cons; split;
            [let Hin := fresh "Hin" in
             intros Hin;
             repeat (apply elem_of_cons in Hin as [Hin|Hin]; [discriminate|]);
             by apply elem_of_nil in Hin|]);
    apply NoDup_nil_2.
Qed.

Lemma teardownEffects_hooks p w :
  runInv p w → List.filter isTeardownHook (teardownEffects p w) = configuredHooks p.
Proof.
  intros (_ & He & Hs). unfold teardownEffects, configuredHooks.
  assert (Hem : match gatewayEmitter w with Some _ => true | None => false end
                = emitterPresent p).
  { destruct (gatewayEmitter w), (emitterPresent p); try done.
    - destruct He as [He _]. by specialize (He (mk_is_Some _ _ eq_refl)).
    - destruct He as [_ He]. destruct (He eq_refl) as [? ?]. done. }
  assert (Hsg : match abortSignal w with Some _ => true | None => false end
                = match signal p with Some _ => true | None => false end).
  { destruct (abortSignal w), (signal p); try done.
    - destruct Hs as [Hs _]. destruct (Hs (mk_is_Some _ _ eq_refl)). done.
    - destruct Hs as [_ Hs]. destruct (Hs (mk_is_Some _ _ eq_refl)). done. }
  destruct (releaseEarlyGatewayErrorGuard p), (voiceManager p),
    (execApprovalsHandler p), (helloTimeoutId w), (helloConnectedPollId w),
    (gatewayEmitter w), (emitterPresent p), (abortSignal w), (signal p);
    try discriminate; reflexivity.
Qed.

Lemma run_with_teardownOk p env :
  teardownOk env →
  ∀ c w1, lifecycleBody p env (prologue p (initialWorld p)) = (c, w1) →
  runDiscordGatewayLifecycle p env = (settle c, teardownWorld p env w1).
Proof.
  intros Hok c w1 Hbody.
  unfold runDiscordGatewayLifecycle, runFrom, tryFinally.
  rewrite Hbody, (teardown_returns p env w1 Hok). reflexivity.
Qed.

(** C1, counterexample.  [voiceManager.destroy()] rejects during teardown:
    the approvals handler and the thread bindings are never stopped, and
    the caller receives the teardown error although the run had stopped
    gracefully. *)
Lemma rejecting_destroy_skips_later_hooks :
  let '(outcome, w) := runDiscordGatewayLifecycle exampleParams envDestroyRejects in
  outcome = Rejected (mkThrown 7 "Error: voice teardown failed")
  ∧ count_occ Effect_eq_dec (trace w) VoiceManagerDestroy = 1
  ∧ count_occ Effect_eq_dec (trace w) ApprovalsStop = 0
  ∧ count_occ Effect_eq_dec (trace w) ThreadBindingsStop = 0
  ∧ ¬ everyHookRunsOnce exampleParams envDestroyRejects.
Proof.
  vm_compute runDiscordGatewayLifecycle.
  split; [reflexivity|]. split; [reflexivity|]. split; [reflexivity|].
  split; [reflexivity|].
  intros (c & w1 & w2 & segment & Hbody & Hrun & _).
  vm_compute in Hbody. vm_compute in Hrun.
  injection Hbody as <- _. discriminate Hrun.
Qed.

(** What the [try]/[catch] statement can do to the trace: it appends the
    start call, the effects of the drain and of the wait, and whatever the
    events that arrive meanwhile cause. *)
Lemma body_trace_invariant (Q : list Effect → Prop) p env :
  (∀ t e, isDrainEffect e = true ∨ e = ApprovalsStart → Q t → Q (t ++ [e])) →
  (∀ ev w, ev ∈ duringStart env ++ duringWait env →
           Q (trace w) → Q (trace (deliver ev w))) →
  preserves (fun w => Q (trace w)) (lifecycleBody p env).
Proof.
  intros Hemit Hdeliver.
  assert (Hem : ∀ e w, isDrainEffect e = true ∨ e = ApprovalsStart →
                       Q (trace w) → Q (trace (emit e w))).
  { intros e w He Hq. rewrite trace_emit. by apply Hemit. }
  assert (Hlog : ∀ err w, Q (trace w) → Q (trace (logGatewayError p err w))).
  { intros err w Hq. unfold logGatewayError.
    destruct (isDisallowedIntentsError p err); rewrite trace_emit;
      (apply Hemit; [by left | done]). }
  assert (Hall : ∀ evs w, (∀ ev, ev ∈ evs → ev ∈ duringStart env ++ duringWait env) →
                          Q (trace w) → Q (trace (deliverAll evs w))).
  { induction evs as [|ev evs IH]; intros w Hin Hq; [done|]. simpl.
    apply IH; [intros ev' Hev'; apply Hin; by apply list_elem_of_further|].
    apply Hdeliver; [apply Hin, list_elem_of_here | done]. }
  assert (Hwait : ∀ stream,
             (∀ ev, ev ∈ stream → ev ∈ duringStart env ++ duringWait env) →
             preserves (fun w => Q (trace w))
               (waitForStop (logGatewayError p) (shouldStopOnGatewayError p) stream)).
  { induction stream as [|ev rest IH]; intros Hin; [apply preserves_ret|].
    assert (Hev : ∀ w, Q (trace w) → Q (trace (deliver ev w))).
    { intros w. apply Hdeliver, Hin, list_elem_of_here. }
    assert (Hrest : preserves (fun w => Q (trace w))
              (waitForStop (logGatewayError p) (shouldStopOnGatewayError p) rest)).
    { apply IH. intros ev' Hev'. apply Hin. by apply list_elem_of_further. }
    destruct ev as [msg|err|id|b| |err]; simpl.
    - apply preserves_bind; [apply preserves_lift, Hev | intros _; exact Hrest].
    - apply preserves_bind; [apply preserves_lift, Hev|].
      intros _. apply preserves_bind; [apply preserves_lift, Hlog|].
      intros _. destruct (shouldStopOnGatewayError p err);
        [apply preserves_throw | exact Hrest].
    - apply preserves_bind; [apply preserves_lift, Hev | intros _; exact Hrest].
    - apply preserves_bind; [apply preserves_lift, Hev | intros _; exact Hrest].
    - apply preserves_lift, Hev.
    - apply preserves_throw. }
  apply preserves_tryCatch.
  - unfold lifecycleTry. apply preserves_bind; [|intros _; apply preserves_bind].
    + unfold startExecApprovals. destruct (execApprovalsHandler p); [|apply preserves_ret].
      apply preserves_await; [intros w; apply Hem; by right|].
      intros w. apply Hall. intros ev Hev. apply elem_of_app. by left.
    + unfold drainPendingGatewayErrors. apply preserves_bind; [apply preserves_getWorld|].
      intros w. destruct (0 <? _)%nat; [|apply preserves_ret].
      apply preserves_bind.
      { apply preserves_lift. intros x. apply (Hem PendingErrorsCleared). by left. }
      intros _. generalize (default [] (pendingGatewayErrors w)). intros queued.
      induction queued as [|err rest IH]; simpl; [apply preserves_ret|].
      apply preserves_bind; [apply preserves_lift, Hlog|].
      intros _. destruct (negb _); [exact IH|].
      destruct (isDisallowedIntentsError p err);
        [apply preserves_returnEarly | apply preserves_throw].
    + intros _. unfold waitForDiscordGatewayStop.
      apply preserves_bind.
      { apply preserves_lift. intros x. apply (Hem WaitForGatewayStop). by left. }
      intros _. apply preserves_bind; [apply preserves_getWorld|].
      intros w. destruct (signalAborted w); [apply preserves_ret|].
      apply Hwait. intros ev Hev. apply elem_of_app. by right.
  - intros e. unfold lifecycleCatch. apply preserves_bind; [apply preserves_getWorld|].
    intros w. destruct (_ && _); [apply preserves_throw | apply preserves_ret].
Qed.

Lemma prologue_no_hooks p :
  List.filter isTeardownHook (trace (prologue p (initialWorld p))) = [].
Proof.
  unfold prologue, initialWorld, onAbort, addAbortListener, addDebugListener,
    signalAborted, gatewayDisconnect. simpl.
  destruct (clientGateway p), (emitterPresent p), (signal p) as [[|]|]; reflexivity.
Qed.

(** A handler run by the environment calls no teardown hook other than
    the watchdog's own [clearHelloWatch]. *)
Lemma watchEffects_hooks ext :
  forallb watchEffect ext = true →
  Forall (fun e => e = ClearHelloWatch) (List.filter isTeardownHook ext).
Proof.
  induction ext as [|e ext IH]; simpl; [constructor|].
  intros H. apply andb_true_iff in H as [He Hext].
  destruct (isTeardownHook e) eqn:Hh; [|by apply IH].
  constructor; [|by apply IH]. by destruct e.
Qed.

(** The hooks run before teardown are the watchdog's timer clearings. *)
Lemma body_hooks p env c w1 :
  lifecycleBody p env (prologue p (initialWorld p)) = (c, w1) →
  Forall (fun e => e = ClearHelloWatch) (List.filter isTeardownHook (trace w1)).
Proof.
  apply (body_trace_invariant
           (fun t => Forall (fun e => e = ClearHelloWatch) (List.filter isTeardownHook t))).
  - intros t e He Hq. rewrite List.filter_app. apply Forall_app. split; [done|].
    destruct He as [He | ->]; [|simpl; constructor].
    destruct e; try discriminate; simpl; constructor.
  - intros ev w _ Hq.
    destruct (envStep_deliver ev w) as [_ _ _ _ _ (ext & -> & Hw)].
    rewrite List.filter_app. apply Forall_app. split; [done|].
    by apply watchEffects_hooks.
  - rewrite prologue_no_hooks. constructor.
Qed.

Lemma hooksKept_refl w : hooksKept w w.
Proof. reflexivity. Qed.

Lemma hooksKept_trans w1 w2 w3 : hooksKept w1 w2 → hooksKept w2 w3 → hooksKept w1 w3.
Proof. unfold hooksKept. congruence. Qed.

Lemma hooksKept_same w w' : trace w' = trace w → hooksKept w w'.
Proof. unfold hooksKept. by intros ->. Qed.

Lemma hooksKept_emit e w : isTeardownHook e = false → hooksKept w (emit e w).
Proof.
  intros He. unfold hooksKept. rewrite trace_emit, List.filter_app. simpl.
  by rewrite He, app_nil_r.
Qed.

Lemma hooksKept_dropPoll w : hooksKept w (dropPoll w).
Proof.
  unfold dropPoll. destruct (helloConnectedPollId w); [|apply hooksKept_refl].
  unfold hooksKept. simpl. rewrite List.filter_app. simpl. by rewrite app_nil_r.
Qed.

Lemma hooksKept_gatewayDisconnect w : hooksKept w (gatewayDisconnect w).
Proof.
  unfold gatewayDisconnect. destruct (gateway w); [by apply hooksKept_emit | apply hooksKept_refl].
Qed.

Lemma hooksKept_gatewayConnect b w : hooksKept w (gatewayConnect b w).
Proof.
  unfold gatewayConnect. destruct (gateway w); [by apply hooksKept_emit | apply hooksKept_refl].
Qed.

Lemma hooksKept_clearResumeState w : hooksKept w (clearResumeState w).
Proof.
  unfold clearResumeState. destruct (gateway w) as [g|]; [|apply hooksKept_refl].
  destruct (state g); [|apply hooksKept_refl].
  repeat (eapply hooksKept_trans; [|by apply hooksKept_emit]).
  by apply hooksKept_same.
Qed.

Lemma hooksKept_helloConnectedPoll cell w : hooksKept w (helloConnectedPoll cell w).
Proof.
  destruct (gatewayIsConnected w) eqn:Hc.
  2:{ rewrite helloConnectedPoll_idle by done. apply hooksKept_refl. }
  rewrite helloConnectedPoll_connected by done.
  eapply hooksKept_trans; [|apply hooksKept_dropPoll]. by apply hooksKept_same.
Qed.

Lemma hooksKept_helloTimeout cell w : hooksKept w (helloTimeout cell w).
Proof.
  assert (Hset : ∀ x, hooksKept x (setHelloTimeoutId None x))
    by (intros x; by apply hooksKept_same).
  assert (Hreset : ∀ x, hooksKept x (resetHelloStallCounter x))
    by (intros x; by apply hooksKept_same).
  destruct (confirmed cell w) eqn:Hconf.
  { rewrite helloTimeout_confirmed by done.
    eapply hooksKept_trans; [|apply Hset].
    eapply hooksKept_trans; [|apply Hreset].
    apply hooksKept_dropPoll. }
  assert (Hlog : ∀ b, hooksKept w
            (emit (RuntimeLog (StallLine b HELLO_TIMEOUT_MS
                                 (consecutiveHelloStalls w + 1)
                                 MAX_CONSECUTIVE_HELLO_STALLS))
               (setConsecutiveHelloStalls (consecutiveHelloStalls w + 1) (dropPoll w)))).
  { intros b. eapply hooksKept_trans; [apply hooksKept_dropPoll|].
    eapply hooksKept_trans; [|by apply hooksKept_emit]. by apply hooksKept_same. }
  destruct (Nat.lt_ge_cases (consecutiveHelloStalls w + 1) MAX_CONSECUTIVE_HELLO_STALLS)
    as [Hlt | Hge].
  - rewrite helloTimeout_retry by done.
    eapply hooksKept_trans; [|apply Hset].
    eapply hooksKept_trans; [|apply hooksKept_gatewayConnect].
    eapply hooksKept_trans; [|apply hooksKept_gatewayDisconnect].
    apply Hlog.
  - rewrite helloTimeout_escalate by done.
    eapply hooksKept_trans; [|apply Hset].
    eapply hooksKept_trans; [|apply hooksKept_gatewayConnect].
    eapply hooksKept_trans; [|apply hooksKept_gatewayDisconnect].
    eapply hooksKept_trans; [|apply Hreset].
    eapply hooksKept_trans; [|apply hooksKept_clearResumeState].
    apply Hlog.
Qed.

Lemma hooksKept_fireTimer id w : hooksKept w (fireTimer id w).
Proof.
  unfold fireTimer. destruct (findTimer id (timers w)) as [t|]; [|apply hooksKept_refl].
  set (w1 := if timerRepeats t then w else _).
  assert (H1 : hooksKept w w1).
  { subst w1. destruct (timerRepeats t); [apply hooksKept_refl | by apply hooksKept_same]. }
  eapply hooksKept_trans; [exact H1|].
  destruct (timerCallback t); simpl;
    [apply hooksKept_helloConnectedPoll | apply hooksKept_helloTimeout].
Qed.

Lemma hooksKept_onAbort w : hooksKept w (onAbort w).
Proof.
  unfold onAbort, gatewayDisconnect, hooksKept.
  destruct (gateway w) as [g|]; [|done].
  destruct (gatewayEmitter w) eqn:He; simpl; rewrite ?He; simpl;
    rewrite !List.filter_app; simpl; by rewrite ?app_nil_r.
Qed.

Lemma hooksKept_fold {A} (f : A → World → World) (l : list A) w :
  (∀ a y, hooksKept y (f a y)) →
  hooksKept w (fold_left (fun acc a => f a acc) l w).
Proof.
  intros Hf. revert w. induction l as [|a l IH]; intros w; simpl; [apply hooksKept_refl|].
  eapply hooksKept_trans; [apply Hf | apply IH].
Qed.

(** Only a debug line the watchdog reacts to makes it clear its timers. *)
Lemma hooksKept_deliver ev w : watchLine ev = false → hooksKept w (deliver ev w).
Proof.
  destruct ev as [msg|err|id|b| |err]; simpl; intros Hq.
  - apply orb_false_iff in Hq as [Hc Ho].
    destruct (gatewayEmitter w) as [em|]; [|apply hooksKept_refl].
    apply (hooksKept_fold (fun _ y => onGatewayDebug msg y)).
    intros _ y. rewrite onGatewayDebug_other by done. apply hooksKept_refl.
  - destruct (gatewayEmitter w); [by apply hooksKept_same | apply hooksKept_refl].
  - apply hooksKept_fireTimer.
  - destruct (gateway w); [by apply hooksKept_same | apply hooksKept_refl].
  - unfold dispatchAbort. destruct (abortSignal w) as [s|]; [|apply hooksKept_refl].
    set (w1 := setAbortSignal _ w).
    apply (hooksKept_trans w w1); [by apply hooksKept_same|].
    apply (hooksKept_fold (fun _ y => onAbort y)). intros _ y. apply hooksKept_onAbort.
  - apply hooksKept_refl.
Qed.

(** With no such line arriving, no hook runs before teardown. *)
Lemma body_no_hooks p env c w1 :
  Forall (fun ev => watchLine ev = false) (duringStart env ++ duringWait env) →
  lifecycleBody p env (prologue p (initialWorld p)) = (c, w1) →
  List.filter isTeardownHook (trace w1) = [].
Proof.
  intros Hquiet.
  apply (body_trace_invariant (fun t => List.filter isTeardownHook t = [])).
  - intros t e He Hq. rewrite List.filter_app, Hq. simpl.
    destruct He as [He | ->]; [|done]. by destruct e.
  - intros ev w Hin Hq. rewrite Forall_forall in Hquiet.
    rewrite (hooksKept_deliver ev w); [done|]. by apply Hquiet.
  - apply prologue_no_hooks.
Qed.

Lemma all_equal_repeat {A} (x : A) (l : list A) :
  Forall (fun y => y = x) l → l = repeat x (length l).
Proof. induction 1 as [|y l -> _ IH]; simpl; [done | by rewrite <- IH]. Qed.

Lemma count_occ_hooks (t : list Effect) h :
  isTeardownHook h = true →
  count_occ Effect_eq_dec (List.filter isTeardownHook t) h = count_occ Effect_eq_dec t h.
Proof.
  intros Hh. induction t as [|e t IH]; [done|]. simpl.
  destruct (isTeardownHook e) eqn:He; simpl; destruct (Effect_eq_dec e h) as [->|Hne];
    try (by rewrite IH); congruence.
Qed.

Lemma count_occ_NoDup (l : list Effect) h :
  NoDup l →
  count_occ Effect_eq_dec l h = if bool_decide (h ∈ l) then 1 else 0.
Proof.
  intros Hnd. case_bool_decide as Hin.
  - apply list_elem_of_In in Hin.
    pose proof (proj1 (NoDup_count_occ Effect_eq_dec l) (proj1 (NoDup_ListNoDup l) Hnd) h) as Hle.
    apply (count_occ_In Effect_eq_dec) in Hin. lia.
  - apply count_occ_not_In. by rewrite <- list_elem_of_In.
Qed.

(** C1, amended.  In every run whose teardown hooks return normally, and
    however the [try]/[catch] statement ends (graceful stop, throwing start
    hook, rejected wait, queued fatal error, cancellation), each configured
    teardown hook is executed exactly once in the whole run, in the fixed
    order, as the last things the run does; nothing of the lifecycle stays
    attached, and only then does the caller receive the outcome of the
    [try]/[catch] statement.  The one hook that also runs earlier is the
    clearing of the watchdog timers: the watchdog does it itself on every
    opened or closed debug line ([resets] times), and not at all when no
    such line arrives. *)
Theorem teardown_runs_configured_hooks_once p env :
  teardownOk env →
  ∃ c w1 w2 resets,
    lifecycleBody p env (prologue p (initialWorld p)) = (c, w1)
    ∧ runDiscordGatewayLifecycle p env = (settle c, w2)
    ∧ trace w2 = trace w1 ++ teardownEffects p w1
    ∧ List.filter isTeardownHook (teardownEffects p w1) = configuredHooks p
    ∧ NoDup (configuredHooks p)
    ∧ quiescent w2
    ∧ List.filter isTeardownHook (trace w2)
      = repeat ClearHelloWatch resets ++ configuredHooks p
    ∧ (∀ h, isTeardownHook h = true → h ≠ ClearHelloWatch →
         count_occ Effect_eq_dec (trace w2) h
         = if bool_decide (h ∈ configuredHooks p) then 1 else 0)
    ∧ count_occ Effect_eq_dec (trace w2) ClearHelloWatch = S resets
    ∧ (Forall (fun ev => watchLine ev = false) (duringStart env ++ duringWait env) →
       resets = 0).
Proof.
  intros Hok.
  destruct (lifecycleBody p env (prologue p (initialWorld p))) as [c w1] eqn:Hbody.
  assert (Hinv : runInv p w1).
  { eapply preserves_lifecycleBody; [apply runInv_prologue | exact Hbody]. }
  destruct (teardownWorld_trace p env w1 (proj1 Hinv)) as [Htr Hq].
  pose proof (teardownEffects_hooks p w1 Hinv) as Hhooks.
  pose proof (configuredHooks_NoDup p) as Hnd.
  pose proof (all_equal_repeat _ _ (body_hooks p env c w1 Hbody)) as Hrep.
  set (resets := length (List.filter isTeardownHook (trace w1))) in *.
  assert (Hall : List.filter isTeardownHook (trace (teardownWorld p env w1))
                 = repeat ClearHelloWatch resets ++ configuredHooks p).
  { by rewrite Htr, List.filter_app, Hhooks, <- Hrep. }
  assert (Hclear : ClearHelloWatch ∈ configuredHooks p).
  { unfold configuredHooks. apply elem_of_app. right.
    do 2 apply list_elem_of_further. apply list_elem_of_here. }
  exists c, w1, (teardownWorld p env w1), resets.
  split; [reflexivity|]. split; [by apply run_with_teardownOk|].
  split; [exact Htr|]. split; [exact Hhooks|]. split; [exact Hnd|].
  split; [exact Hq|]. split; [exact Hall|]. split; [|split].
  - intros h Hh Hne.
    rewrite <- (count_occ_hooks _ h Hh), Hall, count_occ_app.
    rewrite (count_occ_repeat_neq Effect_eq_dec) by congruence.
    by rewrite (count_occ_NoDup _ h Hnd).
  - rewrite <- (count_occ_hooks _ ClearHelloWatch eq_refl), Hall, count_occ_app.
    rewrite (count_occ_repeat_eq Effect_eq_dec) by reflexivity.
    rewrite (count_occ_NoDup _ _ Hnd), bool_decide_eq_true_2 by exact Hclear. lia.
  - intros Hquiet. subst resets.
    by rewrite (body_no_hooks p env c w1 Hquiet Hbody).
Qed.

(** C1, amended, on the repository's "startup failed" scenario. *)
Lemma teardown_runs_configured_hooks_once_witness :
  teardownOk envStartRejects
  ∧ ∃ c w1 w2 resets,
      lifecycleBody exampleParams envStartRejects
        (prologue exampleParams (initialWorld exampleParams)) = (c, w1)
      ∧ runDiscordGatewayLifecycle exampleParams envStartRejects = (settle c, w2)
      ∧ trace w2 = trace w1 ++ teardownEffects exampleParams w1
      ∧ List.filter isTeardownHook (teardownEffects exampleParams w1)
        = configuredHooks exampleParams
      ∧ NoDup (configuredHooks exampleParams)
      ∧ quiescent w2
      ∧ List.filter isTeardownHook (trace w2)
        = repeat ClearHelloWatch resets ++ configuredHooks exampleParams
      ∧ (∀ h, isTeardownHook h = true → h ≠ ClearHelloWatch →
           count_occ Effect_eq_dec (trace w2) h
           = if bool_decide (h ∈ configuredHooks exampleParams) then 1 else 0)
      ∧ count_occ Effect_eq_dec (trace w2) ClearHelloWatch = S resets
      ∧ (Forall (fun ev => watchLine ev = false)
           (duringStart envStartRejects ++ duringWait envStartRejects) →
         resets = 0).
Proof.
  assert (Hok : teardownOk envStartRejects) by (repeat split; reflexivity).
  split; [exact Hok|].
  apply (teardown_runs_configured_hooks_once exampleParams envStartRejects Hok).
Defined.

(** The watchdog's own clearing, seen in a run: one opened line arrives
    while the lifecycle waits, so the timers are cleared twice, once by the
    watchdog and once by teardown; every other hook runs once. *)
Example opened_line_clears_the_timers_before_teardown :
  let w := snd (runDiscordGatewayLifecycle exampleParams
                  (mkEnv [] None [EnvDebug "WebSocket connection opened"] None None
                     None [] None [] None None)) in
  List.filter isTeardownHook (trace w) = ClearHelloWatch :: configuredHooks exampleParams.
Proof. vm_compute. reflexivity. Qed.

(** ** C2: classification of a rejected wait *)

Lemma shouldStop_of_disallowed p err :
  isDisallowedIntentsError p err = true → shouldStopOnGatewayError p err = true.
Proof. unfold shouldStopOnGatewayError. intros ->. by rewrite !orb_true_r. Qed.

Lemma logGatewayError_saw p err w :
  sawDisallowedIntents (logGatewayError p err w)
  = isDisallowedIntentsError p err || sawDisallowedIntents w.
Proof. unfold logGatewayError. by destruct (isDisallowedIntentsError p err). Qed.

Lemma drainQueued_normal_saw p queued w w' :
  drainQueued p queued w = (Normal tt, w') →
  sawDisallowedIntents w' = sawDisallowedIntents w.
Proof.
  revert w. induction queued as [|err rest IH]; intros w; simpl.
  { by intros [= <-]. }
  rewrite run_bind, run_lift.
  destruct (shouldStopOnGatewayError p err) eqn:Hstop; simpl.
  - destruct (isDisallowedIntentsError p err); discriminate.
  - intros H. rewrite (IH _ H), logGatewayError_saw.
    destruct (isDisallowedIntentsError p err) eqn:Hd; [|done].
    by rewrite (shouldStop_of_disallowed p err Hd) in Hstop.
Qed.

Lemma startExecApprovals_saw p env w c w' :
  startExecApprovals p env w = (c, w') →
  sawDisallowedIntents w' = sawDisallowedIntents w.
Proof.
  unfold startExecApprovals, await.
  destruct (execApprovalsHandler p); [|by intros [= _ <-]].
  pose proof (step_saw _ _ (envStep_deliverAll (duringStart env) (emit ApprovalsStart w)))
    as Hs.
  destruct (startResult env); intros [= _ <-]; exact Hs.
Qed.

Lemma drainPendingGatewayErrors_normal_saw p w w' :
  drainPendingGatewayErrors p w = (Normal tt, w') →
  sawDisallowedIntents w' = sawDisallowedIntents w.
Proof.
  unfold drainPendingGatewayErrors. rewrite run_bind. simpl.
  destruct (0 <? _)%nat; [|by intros [= <-]].
  rewrite run_bind, run_lift. intros H.
  by rewrite (drainQueued_normal_saw _ _ _ _ H).
Qed.

Lemma prologue_saw p w : sawDisallowedIntents (prologue p w) = false.
Proof. reflexivity. Qed.

(** While no disallowed error has been seen, a wait that rejects has seen
    one only if the rejecting error is one. *)
Lemma waitForStop_threw_saw p stream w e w' :
  sawDisallowedIntents w = false →
  waitForStop (logGatewayError p) (shouldStopOnGatewayError p) stream w = (Threw e, w') →
  sawDisallowedIntents w' = true → isDisallowedIntentsError p e = true.
Proof.
  revert w. induction stream as [|ev rest IH]; intros w Hsaw; [discriminate|].
  pose proof (step_saw _ _ (envStep_deliver ev w)) as Hd.
  destruct ev as [msg|err|id|b| |err]; cbn [waitForStop];
    rewrite ?run_bind, ?run_lift; try (apply IH; congruence).
  - rewrite run_bind, run_lift. pose proof Hd as Hd'. simpl in Hd'.
    destruct (shouldStopOnGatewayError p err) eqn:Hstop.
    + intros [= <- <-]. rewrite logGatewayError_saw, Hd', Hsaw, orb_false_r. done.
    + apply IH. rewrite logGatewayError_saw, Hd, Hsaw.
      destruct (isDisallowedIntentsError p err) eqn:Hdis; [|done].
      by rewrite (shouldStop_of_disallowed p err Hdis) in Hstop.
  - discriminate.
  - intros [= <- <-]. congruence.
Qed.

Lemma waitForDiscordGatewayStop_threw_saw p stream w e w' :
  sawDisallowedIntents w = false →
  waitForDiscordGatewayStop (logGatewayError p) (shouldStopOnGatewayError p) stream w
  = (Threw e, w') →
  sawDisallowedIntents w' = true → isDisallowedIntentsError p e = true.
Proof.
  intros Hsaw. unfold waitForDiscordGatewayStop.
  rewrite run_bind, run_lift, run_bind. simpl.
  destruct (signalAborted _); [discriminate|].
  by apply waitForStop_threw_saw.
Qed.

Lemma lifecycleTry_after_beforeWait p env w wb :
  beforeWait p env w = (Normal tt, wb) →
  lifecycleTry p env w
  = waitForDiscordGatewayStop (logGatewayError p) (shouldStopOnGatewayError p)
      (duringWait env) wb.
Proof.
  unfold beforeWait, lifecycleTry. rewrite !run_bind.
  destruct (startExecApprovals p env w) as [[[]| |e0] wa]; try discriminate.
  rewrite run_bind.
  destruct (drainPendingGatewayErrors p wa) as [[[]| |e0] wb']; try discriminate.
  by intros [= <-].
Qed.

Lemma beforeWait_normal_saw p env wb :
  beforeWait p env (prologue p (initialWorld p)) = (Normal tt, wb) →
  sawDisallowedIntents wb = false.
Proof.
  unfold beforeWait. rewrite run_bind.
  destruct (startExecApprovals p env _) as [[[]| |e0] wa] eqn:Hstart; try discriminate.
  intros Hdrain.
  rewrite (drainPendingGatewayErrors_normal_saw _ _ _ Hdrain).
  by rewrite (startExecApprovals_saw _ _ _ _ _ Hstart).
Qed.

(** C2.  Let the lifecycle reach its wait and let the wait reject with
    [e].  The [catch] clause swallows [e] when it is classified disallowed
    and rethrows that same [e] otherwise; with a teardown that returns
    normally this is what the caller sees: success, or a rejection with [e]. *)
Theorem rejected_wait_swallowed_iff_disallowed p env wb wc e :
  beforeWait p env (prologue p (initialWorld p)) = (Normal tt, wb) →
  waitForDiscordGatewayStop (logGatewayError p) (shouldStopOnGatewayError p)
    (duringWait env) wb = (Threw e, wc) →
  lifecycleBody p env (prologue p (initialWorld p))
  = (if isDisallowedIntentsError p e then Normal tt else Threw e, wc)
  ∧ (teardownOk env →
     fst (runDiscordGatewayLifecycle p env)
     = if isDisallowedIntentsError p e then Resolved else Rejected e).
Proof.
  intros Hbefore Hwait.
  assert (Hbody : lifecycleBody p env (prologue p (initialWorld p))
                  = (if isDisallowedIntentsError p e then Normal tt else Threw e, wc)).
  { unfold lifecycleBody, tryCatch.
    rewrite (lifecycleTry_after_beforeWait _ _ _ _ Hbefore), Hwait.
    unfold lifecycleCatch. rewrite run_bind. simpl.
    pose proof (waitForDiscordGatewayStop_threw_saw _ _ _ _ _
                  (beforeWait_normal_saw _ _ _ Hbefore) Hwait) as Hsaw.
    destruct (isDisallowedIntentsError p e); [by rewrite andb_false_r|].
    destruct (sawDisallowedIntents wc); [by specialize (Hsaw eq_refl) | done]. }
  split; [exact Hbody|].
  intros Hok. rewrite (run_with_teardownOk p env Hok _ _ Hbody). simpl.
  by destruct (isDisallowedIntentsError p e).
Qed.

(** C2 on a fatal error observed during the wait. *)
Lemma rejected_wait_swallowed_iff_disallowed_witness :
  let e := mkThrown 2 "Error: Max reconnect attempts reached" in
  isDisallowedIntentsError exampleParams e = false
  ∧ teardownOk envWaitFatal
  ∧ fst (lifecycleBody exampleParams envWaitFatal attachedWorld) = Threw e
  ∧ fst (runDiscordGatewayLifecycle exampleParams envWaitFatal) = Rejected e.
Proof.
  cbv zeta.
  assert (Hok : teardownOk envWaitFatal) by (repeat split; reflexivity).
  destruct (rejected_wait_swallowed_iff_disallowed exampleParams envWaitFatal
              (snd (beforeWait exampleParams envWaitFatal attachedWorld))
              (snd (lifecycleTry exampleParams envWaitFatal attachedWorld))
              (mkThrown 2 "Error: Max reconnect attempts reached"))
    as [Hbody Hrun].
  - vm_compute. reflexivity.
  - vm_compute. reflexivity.
  - split; [vm_compute; reflexivity|]. split; [exact Hok|].
    split; [unfold attachedWorld; rewrite Hbody; vm_compute; reflexivity|].
    rewrite (Hrun Hok). vm_compute. reflexivity.
Defined.

(** ** C7: draining the queued errors *)

Lemma drainView_app t1 t2 : drainView (t1 ++ t2) = drainView t1 ++ drainView t2.
Proof. apply List.filter_app. Qed.

Lemma drainView_watchEffects ext : forallb watchEffect ext = true → drainView ext = [].
Proof.
  induction ext as [|e ext IH]; [done|]. simpl. intros H.
  apply andb_true_iff in H as [He Hext]. rewrite (IH Hext).
  by destruct e.
Qed.

Lemma logGatewayError_trace p err w :
  trace (logGatewayError p err w) = trace w ++ [RuntimeError (errorLine p err)].
Proof.
  unfold logGatewayError, errorLine. by destruct (isDisallowedIntentsError p err).
Qed.

Lemma logGatewayError_pending p err w :
  pendingGatewayErrors (logGatewayError p err w) = pendingGatewayErrors w.
Proof. unfold logGatewayError. by destruct (isDisallowedIntentsError p err). Qed.

Lemma logAll_snoc p errs err w :
  logAll p (errs ++ [err]) w = logGatewayError p err (logAll p errs w).
Proof. unfold logAll. by rewrite fold_left_app. Qed.

Lemma logAll_fields p errs w :
  trace (logAll p errs w) = trace w ++ map (fun err => RuntimeError (errorLine p err)) errs
  ∧ pendingGatewayErrors (logAll p errs w) = pendingGatewayErrors w
  ∧ sawDisallowedIntents (logAll p errs w)
    = existsb (isDisallowedIntentsError p) errs || sawDisallowedIntents w.
Proof.
  revert w. induction errs as [|err errs IH]; intros w; simpl.
  { by rewrite app_nil_r. }
  destruct (IH (logGatewayError p err w)) as (Ht & Hp & Hs).
  unfold logAll in *. rewrite Ht, Hp, Hs.
  rewrite logGatewayError_trace, logGatewayError_pending, logGatewayError_saw.
  rewrite <- app_assoc. repeat split; try done.
  by destruct (isDisallowedIntentsError p err), (existsb _ errs).
Qed.

(** The loop stops at the first queued error the stop predicate accepts. *)
Lemma drainQueued_stop p before e after w :
  Forall (fun err => shouldStopOnGatewayError p err = false) before →
  shouldStopOnGatewayError p e = true →
  drainQueued p (before ++ e :: after) w
  = (if isDisallowedIntentsError p e then Returned else Threw e,
     logAll p (before ++ [e]) w).
Proof.
  intros Hbefore Hstop. revert w.
  induction Hbefore as [|err before Herr _ IH]; intros w; simpl.
  - rewrite run_bind, run_lift, Hstop. simpl.
    by destruct (isDisallowedIntentsError p e).
  - rewrite run_bind, run_lift, Herr. simpl. apply IH.
Qed.

Lemma drainQueued_pass p queued w :
  Forall (fun err => shouldStopOnGatewayError p err = false) queued →
  drainQueued p queued w = (Normal tt, logAll p queued w).
Proof.
  intros Hq. revert w. induction Hq as [|err queued Herr _ IH]; intros w; simpl; [done|].
  rewrite run_bind, run_lift, Herr. simpl. apply IH.
Qed.

Lemma nonstop_not_disallowed p errs :
  Forall (fun err => shouldStopOnGatewayError p err = false) errs →
  existsb (isDisallowedIntentsError p) errs = false.
Proof.
  induction 1 as [|err errs Herr _ IH]; [done|]. simpl. rewrite IH.
  destruct (isDisallowedIntentsError p err) eqn:Hd; [|done].
  by rewrite (shouldStop_of_disallowed p err Hd) in Herr.
Qed.

(** The world in which the drain begins: the prologue and the start hook
    have run; the queue is as the caller left it, nothing is logged yet. *)
Lemma prologue_fields p :
  pendingGatewayErrors (prologue p (initialWorld p)) = queuedGatewayErrors p
  ∧ drainView (trace (prologue p (initialWorld p))) = [].
Proof.
  unfold prologue, initialWorld, onAbort, addAbortListener, addDebugListener,
    signalAborted, gatewayDisconnect. simpl.
  destruct (clientGateway p), (emitterPresent p), (signal p) as [[|]|]; simpl; done.
Qed.

Lemma startExecApprovals_fields p env w :
  execApprovalsHandler p = false ∨ startResult env = None →
  ∃ wa, startExecApprovals p env w = (Normal tt, wa)
        ∧ pendingGatewayErrors wa = pendingGatewayErrors w
        ∧ sawDisallowedIntents wa = sawDisallowedIntents w
        ∧ drainView (trace wa) = drainView (trace w).
Proof.
  intros Hstart. unfold startExecApprovals, await.
  destruct (execApprovalsHandler p) eqn:Hh.
  2:{ exists w. done. }
  destruct Hstart as [? | ->]; [done|].
  eexists. split; [reflexivity|].
  destruct (envStep_deliverAll (duringStart env) (emit ApprovalsStart w))
    as [Hp Hs _ _ _ (ext & Htr & Hext)].
  rewrite Hp, Hs, Htr. simpl. repeat split; try done.
  rewrite !drainView_app, (drainView_watchEffects _ Hext). simpl.
  by rewrite !app_nil_r.
Qed.

Lemma grows_waitForStop p stream :
  grows (waitForStop (logGatewayError p) (shouldStopOnGatewayError p) stream).
Proof.
  induction stream as [|ev rest IH]; intros w c w'.
  { intros [= <- <-]. split; [exists []; by rewrite app_nil_r | done]. }
  destruct (envStep_deliver ev w) as [Hp _ _ _ _ (ext & Htr & _)].
  assert (Hrest : ∀ c w', waitForStop (logGatewayError p) (shouldStopOnGatewayError p)
                            rest (deliver ev w) = (c, w') →
                          (∃ ext, trace w' = trace w ++ ext)
                          ∧ pendingGatewayErrors w' = pendingGatewayErrors w).
  { intros c0 w0 H. destruct (IH _ _ _ H) as [(ext' & Htr') Hp'].
    split; [|congruence]. exists (ext ++ ext'). by rewrite Htr', Htr, app_assoc. }
  destruct ev as [msg|err|id|b| |err]; cbn [waitForStop];
    rewrite ?run_bind, ?run_lift; try apply Hrest;
    [| |intros [= <- <-]; split; [exists []; by rewrite app_nil_r | done]].
  - rewrite run_bind, run_lift.
    set (w1 := logGatewayError p err (deliver (EnvError err) w)).
    assert (H1 : trace w1 = trace w ++ ext ++ [RuntimeError (errorLine p err)]
                 ∧ pendingGatewayErrors w1 = pendingGatewayErrors w).
    { subst w1. rewrite logGatewayError_trace, logGatewayError_pending, Htr, Hp.
      by rewrite app_assoc. }
    destruct H1 as [Htr1 Hp1]. clearbody w1.
    destruct (shouldStopOnGatewayError p err).
    + intros [= <- <-]. split; [eauto | done].
    + intros H. destruct (IH _ _ _ H) as [(ext' & Htr') Hp'].
      split; [|congruence]. eexists. by rewrite Htr', Htr1, <- app_assoc.
  - intros [= <- <-]. split; [eauto | done].
Qed.

Lemma grows_waitForDiscordGatewayStop p stream w c w' :
  waitForDiscordGatewayStop (logGatewayError p) (shouldStopOnGatewayError p) stream w
  = (c, w') →
  (∃ ext, trace w' = trace w ++ WaitForGatewayStop :: ext)
  ∧ pendingGatewayErrors w' = pendingGatewayErrors w.
Proof.
  unfold waitForDiscordGatewayStop. rewrite run_bind, run_lift, run_bind. simpl.
  destruct (signalAborted _).
  - intros [= <- <-]. split; [by exists [] | done].
  - intros H. destruct (grows_waitForStop p stream _ _ _ H) as [(ext & Htr) Hp].
    split; [|exact Hp]. exists ext. rewrite Htr. simpl. by rewrite <- app_assoc.
Qed.

Lemma teardownWorld_pending p env w :
  pendingGatewayErrors (teardownWorld p env w) = pendingGatewayErrors w.
Proof.
  unfold teardownWorld.
  set (w1 := if releaseEarlyGatewayErrorGuard p then _ else w).
  set (w2 := emit StopGatewayLogging _).
  assert (H2 : pendingGatewayErrors w2 = pendingGatewayErrors w).
  { subst w2 w1. by destruct (releaseEarlyGatewayErrorGuard p). }
  clearbody w2. clear w1.
  set (w3 := removeAbortListener _).
  assert (H3 : pendingGatewayErrors w3 = pendingGatewayErrors w).
  { subst w3. destruct (clearHelloWatch_other w2) as (_ & _ & _ & _ & _ & _ & _ & Hp).
    unfold removeAbortListener, removeDebugListener.
    generalize dependent (clearHelloWatch w2). intros x Hp.
    destruct (gatewayEmitter x); simpl; destruct (abortSignal x); simpl; congruence. }
  clearbody w3.
  set (w4 := if voiceManager p then _ else w3).
  assert (H4 : pendingGatewayErrors w4 = pendingGatewayErrors w).
  { subst w4. destruct (voiceManager p); [|done]. simpl.
    by rewrite (step_pending _ _ (envStep_deliverAll _ _)). }
  clearbody w4.
  set (w5 := if execApprovalsHandler p then _ else w4).
  assert (H5 : pendingGatewayErrors w5 = pendingGatewayErrors w).
  { subst w5. destruct (execApprovalsHandler p); [|done].
    by rewrite (step_pending _ _ (envStep_deliverAll _ _)). }
  clearbody w5. exact H5.
Qed.

Lemma drainView_teardownEffects p w : drainView (teardownEffects p w) = [].
Proof.
  unfold teardownEffects.
  destruct (releaseEarlyGatewayErrorGuard p), (helloTimeoutId w),
    (helloConnectedPollId w), (gatewayEmitter w), (abortSignal w),
    (voiceManager p), (execApprovalsHandler p); reflexivity.
Qed.

Lemma drainQueued_pending p queued w c w' :
  drainQueued p queued w = (c, w') →
  pendingGatewayErrors w' = pendingGatewayErrors w.
Proof.
  revert w. induction queued as [|err rest IH]; intros w; simpl.
  { by intros [= _ <-]. }
  rewrite run_bind, run_lift.
  destruct (negb _).
  - intros H. by rewrite (IH _ H), logGatewayError_pending.
  - destruct (isDisallowedIntentsError p err); intros [= _ <-];
      apply logGatewayError_pending.
Qed.

Lemma drainView_errorLines p errs :
  drainView (map (fun err => RuntimeError (errorLine p err)) errs)
  = map (fun err => RuntimeError (errorLine p err)) errs.
Proof. induction errs as [|err errs IH]; [done|]. simpl. by rewrite IH. Qed.

(** How the [try] block unfolds when the start hook succeeds and the queue
    holds [q]: the queue is cleared, the loop runs over the snapshot [q],
    and the wait is reached only if the loop falls through. *)
Lemma lifecycleTry_drain p env q :
  queuedGatewayErrors p = Some q → q ≠ [] →
  execApprovalsHandler p = false ∨ startResult env = None →
  ∃ wa,
    startExecApprovals p env (prologue p (initialWorld p)) = (Normal tt, wa)
    ∧ drainView (trace wa) = []
    ∧ sawDisallowedIntents wa = false
    ∧ lifecycleTry p env (prologue p (initialWorld p))
      = match drainQueued p q (clearPendingGatewayErrors wa) with
        | (Normal _, wd) =>
            waitForDiscordGatewayStop (logGatewayError p)
              (shouldStopOnGatewayError p) (duringWait env) wd
        | (Returned, wd) => (Returned, wd)
        | (Threw e, wd) => (Threw e, wd)
        end.
Proof.
  intros Hq Hne Hstart.
  destruct (prologue_fields p) as [Hp0 Hv0].
  destruct (startExecApprovals_fields p env (prologue p (initialWorld p)) Hstart)
    as (wa & Hrun & Hpa & Hsa & Hva).
  exists wa. split; [exact Hrun|]. split; [congruence|].
  split; [by rewrite Hsa|].
  unfold lifecycleTry. rewrite run_bind, Hrun, run_bind.
  unfold drainPendingGatewayErrors at 1. rewrite run_bind. simpl.
  rewrite Hpa, Hp0, Hq. simpl.
  destruct q as [|err q']; [done|]. simpl.
  rewrite run_bind, run_lift.
  destruct (drainQueued p (err :: q') (clearPendingGatewayErrors wa)) as [[[]| |e] wd];
    reflexivity.
Qed.

(** C7.  Let the queue hold [q], non-empty, when the lifecycle starts, and
    let the start hook and the teardown return normally.  The queue is
    emptied before anything is logged and stays empty.  If [e] is the first
    queued error the stop predicate accepts, the errors up to and including
    [e] are logged in order, the wait primitive is never called, and the run
    resolves when [e] is disallowed and rejects with [e] otherwise (a fatal
    error).  If the predicate accepts none, every queued error is logged in
    order and the wait primitive is called next. *)
Theorem queued_errors_drained_in_order p env q :
  queuedGatewayErrors p = Some q →
  q ≠ [] →
  execApprovalsHandler p = false ∨ startResult env = None →
  teardownOk env →
  ∃ outcome w,
    runDiscordGatewayLifecycle p env = (outcome, w)
    ∧ pendingGatewayErrors w = Some []
    ∧ (∀ before e after,
         q = before ++ e :: after →
         Forall (fun err => shouldStopOnGatewayError p err = false) before →
         shouldStopOnGatewayError p e = true →
         drainView (trace w)
         = PendingErrorsCleared
             :: map (fun err => RuntimeError (errorLine p err)) (before ++ [e])
         ∧ outcome = if isDisallowedIntentsError p e then Resolved else Rejected e)
    ∧ (Forall (fun err => shouldStopOnGatewayError p err = false) q →
       ∃ rest,
         drainView (trace w)
         = PendingErrorsCleared
             :: map (fun err => RuntimeError (errorLine p err)) q
             ++ WaitForGatewayStop :: rest).
Proof.
  intros Hq Hne Hstart Hok.
  destruct (lifecycleTry_drain p env q Hq Hne Hstart) as (wa & Hrun & Hva & Hsa & Htry).
  destruct (lifecycleBody p env (prologue p (initialWorld p))) as [c w1] eqn:Hbody.
  assert (Hinv : runInv p w1).
  { eapply preserves_lifecycleBody; [apply runInv_prologue | exact Hbody]. }
  destruct (teardownWorld_trace p env w1 (proj1 Hinv)) as [Htr _].
  exists (settle c), (teardownWorld p env w1).
  split; [by apply run_with_teardownOk|].
  set (wc := clearPendingGatewayErrors wa) in *.
  assert (Hwc : trace wc = trace wa ++ [PendingErrorsCleared]
                ∧ pendingGatewayErrors wc = Some []
                ∧ sawDisallowedIntents wc = false) by (subst wc; simpl; auto).
  destruct Hwc as (Htc & Hpc & Hsc). clearbody wc.
  unfold lifecycleBody, tryCatch, lifecycleCatch in Hbody. rewrite Htry in Hbody.
  rewrite teardownWorld_pending, Htr, drainView_app, drainView_teardownEffects, app_nil_r.
  split; [|split].
  - destruct (drainQueued p q wc) as [[[]| |e] wd] eqn:Hd;
      pose proof (drainQueued_pending _ _ _ _ _ Hd) as Hpd.
    + destruct (waitForDiscordGatewayStop _ _ _ wd) as [[[]| |e] we] eqn:Hw;
        destruct (grows_waitForDiscordGatewayStop _ _ _ _ _ Hw) as [_ Hpw].
      * injection Hbody as _ <-. congruence.
      * injection Hbody as _ <-. congruence.
      * rewrite run_bind in Hbody. simpl in Hbody.
        destruct (_ && _); injection Hbody as _ <-; congruence.
    + injection Hbody as _ <-. congruence.
    + rewrite run_bind in Hbody. simpl in Hbody.
      destruct (_ && _); injection Hbody as _ <-; congruence.
  - intros before e after -> Hbefore Hstop.
    rewrite (drainQueued_stop p before e after wc Hbefore Hstop) in Hbody.
    destruct (logAll_fields p (before ++ [e]) wc) as (Htl & _ & Hsl).
    assert (Hw1 : w1 = logAll p (before ++ [e]) wc
                  ∧ settle c = if isDisallowedIntentsError p e
                               then Resolved else Rejected e).
    { destruct (isDisallowedIntentsError p e) eqn:Hdis.
      - injection Hbody as <- <-. done.
      - rewrite run_bind in Hbody. simpl in Hbody.
        rewrite Hsl, Hsc, existsb_app, (nonstop_not_disallowed p before Hbefore) in Hbody.
        simpl in Hbody. rewrite Hdis in Hbody. simpl in Hbody.
        injection Hbody as <- <-. done. }
    destruct Hw1 as [-> ->]. split; [|done].
    rewrite Htl, Htc, !drainView_app, Hva, drainView_errorLines. reflexivity.
  - intros Hpass. rewrite (drainQueued_pass p q wc Hpass) in Hbody.
    destruct (logAll_fields p q wc) as (Htl & _ & _).
    assert (Hw1 : ∃ ext, trace w1 = trace (logAll p q wc) ++ WaitForGatewayStop :: ext).
    { destruct (waitForDiscordGatewayStop _ _ _ (logAll p q wc)) as [[[]| |e] we] eqn:Hw;
        destruct (grows_waitForDiscordGatewayStop _ _ _ _ _ Hw) as [Hext _].
      - by injection Hbody as _ <-.
      - by injection Hbody as _ <-.
      - rewrite run_bind in Hbody. simpl in Hbody.
        destruct (_ && _); by injection Hbody as _ <-. }
    destruct Hw1 as (ext & Htw).
    exists (drainView ext).
    rewrite Htw, Htl, Htc, !drainView_app, Hva, drainView_errorLines. reflexivity.
Qed.

Lemma queued_errors_drained_in_order_witness :
  ∃ outcome w,
    runDiscordGatewayLifecycle paramsWithQueue quietEnv = (outcome, w)
    ∧ pendingGatewayErrors w = Some []
    ∧ (∀ before e after,
         queuedExample = before ++ e :: after →
         Forall (fun err => shouldStopOnGatewayError paramsWithQueue err = false) before →
         shouldStopOnGatewayError paramsWithQueue e = true →
         drainView (trace w)
         = PendingErrorsCleared
             :: map (fun err => RuntimeError (errorLine paramsWithQueue err))
                  (before ++ [e])
         ∧ outcome = if isDisallowedIntentsError paramsWithQueue e
                     then Resolved else Rejected e)
    ∧ (Forall (fun err => shouldStopOnGatewayError paramsWithQueue err = false)
         queuedExample →
       ∃ rest,
         drainView (trace w)
         = PendingErrorsCleared
             :: map (fun err => RuntimeError (errorLine paramsWithQueue err))
                  queuedExample
             ++ WaitForGatewayStop :: rest).
Proof.
  apply (queued_errors_drained_in_order paramsWithQueue quietEnv queuedExample).
  - reflexivity.
  - discriminate.
  - right. reflexivity.
  - repeat split; reflexivity.
Defined.

(** ** C8: cancellation *)

Lemma dispatchAbort_spent w s :
  abortSignal w = Some s → aborted s = true → abortListeners s = [] →
  dispatchAbort w = w.
Proof.
  intros Hs Ha Hl. unfold dispatchAbort. rewrite Hs, Hl. simpl.
  destruct w, s. simpl in *. by subst.
Qed.

Lemma dispatchAbort_once w s g :
  abortSignal w = Some s → abortListeners s = [OnAbort true] → gateway w = Some g →
  let w' := dispatchAbort w in
  handleEffects (trace w')
  = handleEffects (trace w) ++ [WriteReconnect 0; GatewayDisconnect]
  ∧ gateway w' = Some (mkGateway (isConnected g) (state g) (sequence g) (Some 0%Z))
  ∧ abortSignal w' = Some (mkAbortSignal true []).
Proof.
  intros Hs Hl Hg. unfold dispatchAbort. rewrite Hs, Hl. simpl.
  unfold onAbort, gatewayDisconnect. simpl. rewrite Hg.
  destruct (gatewayEmitter w); simpl; rewrite !handleEffects_app; simpl;
    rewrite ?app_nil_r, <- ?app_assoc; done.
Qed.

(** C8.  With a gateway handle [g]:
    - if the signal is already aborted on entry, the lifecycle at once sets
      the reconnect policy to [maxAttempts: 0] and disconnects, and
      registers no listener;
    - otherwise it registers one one-shot listener and touches the handle
      no further; wherever that listener is still registered, an abort
      event sets [maxAttempts: 0] and disconnects, once: the listener is
      gone afterwards and a further abort event changes nothing;
    - when teardown returns normally, no abort listener is left on the
      signal after the run. *)
Theorem cancellation_disconnects_once p env g :
  clientGateway p = Some g →
  let w0 := prologue p (initialWorld p) in
  (signal p = Some true →
     handleEffects (trace w0) = [WriteReconnect 0; GatewayDisconnect]
     ∧ gateway w0 = Some (mkGateway (isConnected g) (state g) (sequence g) (Some 0%Z))
     ∧ abortSignal w0 = Some (mkAbortSignal true [])
     ∧ deliver EnvAbort w0 = w0)
  ∧ (signal p = Some false →
     handleEffects (trace w0) = []
     ∧ gateway w0 = Some g
     ∧ abortSignal w0 = Some (mkAbortSignal false [OnAbort true]))
  ∧ (∀ w s g',
       abortSignal w = Some s → abortListeners s = [OnAbort true] →
       gateway w = Some g' →
       let w1 := deliver EnvAbort w in
       handleEffects (trace w1)
       = handleEffects (trace w) ++ [WriteReconnect 0; GatewayDisconnect]
       ∧ gateway w1
         = Some (mkGateway (isConnected g') (state g') (sequence g') (Some 0%Z))
       ∧ abortSignal w1 = Some (mkAbortSignal true [])
       ∧ deliver EnvAbort w1 = w1)
  ∧ (teardownOk env →
     ∀ s, abortSignal (snd (runDiscordGatewayLifecycle p env)) = Some s →
          abortListeners s = []).
Proof.
  intros Hg. cbv zeta. split; [|split; [|split]].
  - intros Hsig.
    assert (Hs : abortSignal (prologue p (initialWorld p))
                 = Some (mkAbortSignal true [])).
    { unfold prologue, initialWorld, signalAborted, onAbort,
        addDebugListener, gatewayDisconnect. simpl. rewrite Hg, Hsig. simpl.
      destruct (emitterPresent p); simpl; done. }
    split; [|split; [|split]]; [| | exact Hs | by apply (dispatchAbort_spent _ _ Hs)].
    + unfold prologue, initialWorld, signalAborted, onAbort,
        addDebugListener, gatewayDisconnect. simpl. rewrite Hg, Hsig. simpl.
      destruct (emitterPresent p); simpl; done.
    + unfold prologue, initialWorld, signalAborted, onAbort,
        addDebugListener, gatewayDisconnect. simpl. rewrite Hg, Hsig. simpl.
      destruct (emitterPresent p); simpl; done.
  - intros Hsig. unfold prologue, initialWorld, signalAborted, addAbortListener,
      addDebugListener. simpl. rewrite Hg, Hsig. simpl.
    destruct (emitterPresent p); simpl; done.
  - intros w s g' Hs Hl Hg'. simpl.
    destruct (dispatchAbort_once w s g' Hs Hl Hg') as (H1 & H2 & H3).
    repeat split; try done.
    by apply (dispatchAbort_spent _ _ H3).
  - intros Hok s.
    destruct (lifecycleBody p env (prologue p (initialWorld p))) as [c w1] eqn:Hbody.
    assert (Hinv : runInv p w1).
    { eapply preserves_lifecycleBody; [apply runInv_prologue | exact Hbody]. }
    rewrite (run_with_teardownOk p env Hok c w1 Hbody). simpl.
    destruct (teardownWorld_trace p env w1 (proj1 Hinv)) as [_ (_ & _ & Hq)].
    apply Hq.
Qed.

(** C8 on the repository's test handle. *)
Lemma cancellation_disconnects_once_witness :
  let w0 := attachedWorld in
  (handleEffects (trace w0) = []
   ∧ gateway w0 = Some exampleGateway
   ∧ abortSignal w0 = Some (mkAbortSignal false [OnAbort true]))
  ∧ (let w1 := deliver EnvAbort w0 in
     handleEffects (trace w1) = [WriteReconnect 0; GatewayDisconnect]
     ∧ deliver EnvAbort w1 = w1)
  ∧ (∀ s, abortSignal (snd (runDiscordGatewayLifecycle exampleParams envAbortTwice))
          = Some s → abortListeners s = []).
Proof.
  cbv zeta.
  destruct (cancellation_disconnects_once exampleParams envAbortTwice exampleGateway
              eq_refl) as (_ & Hidle & Hfire & Hdown).
  split; [exact (Hidle eq_refl)|]. split.
  - destruct (Hfire attachedWorld (mkAbortSignal false [OnAbort true]) exampleGateway
                eq_refl eq_refl eq_refl) as (H1 & _ & _ & H4).
    split; [exact H1 | exact H4].
  - apply Hdown. repeat split; reflexivity.
Defined.

(** ** C10: a confirmed handshake is remembered *)

Lemma cellsKept_refl w : cellsKept w w.
Proof. by intros c. Qed.

Lemma cellsKept_trans w1 w2 w3 : cellsKept w1 w2 → cellsKept w2 w3 → cellsKept w1 w3.
Proof. intros H1 H2 c Hc. by apply H2, H1. Qed.

Lemma cellsKept_same w w' : sawConnected w' = sawConnected w → cellsKept w w'.
Proof. intros H c. by rewrite H. Qed.

Lemma cellsKept_sameWatch w w' : sameWatch w w' → cellsKept w w'.
Proof. intros (_ & _ & H & _). by apply cellsKept_same. Qed.

Lemma helloTimeout_cells cell w : sawConnected (helloTimeout cell w) = sawConnected w.
Proof.
  destruct (dropPoll_fields w) as (_ & _ & _ & _ & Hc & _ & _).
  destruct (confirmed cell w) eqn:Hconf.
  { rewrite helloTimeout_confirmed by done. simpl. exact Hc. }
  destruct (Nat.lt_ge_cases (consecutiveHelloStalls w + 1) MAX_CONSECUTIVE_HELLO_STALLS)
    as [Hlt | Hge].
  - rewrite helloTimeout_retry by done.
    set (w1 := emit _ _).
    destruct (sameWatch_gatewayDisconnect w1) as (_ & _ & A3 & _).
    destruct (sameWatch_gatewayConnect true (gatewayDisconnect w1)) as (_ & _ & B3 & _).
    simpl. rewrite B3, A3. simpl. exact Hc.
  - rewrite helloTimeout_escalate by done.
    set (w1 := emit _ _). set (w2 := resetHelloStallCounter (clearResumeState w1)).
    destruct (sameWatch_clearResumeState w1) as (_ & _ & C3 & _).
    destruct (sameWatch_gatewayDisconnect w2) as (_ & _ & A3 & _).
    destruct (sameWatch_gatewayConnect false (gatewayDisconnect w2)) as (_ & _ & B3 & _).
    simpl. rewrite B3, A3. simpl. rewrite C3. simpl. exact Hc.
Qed.

Lemma cellsKept_helloConnectedPoll cell w : cellsKept w (helloConnectedPoll cell w).
Proof.
  destruct (gatewayIsConnected w) eqn:Hconn.
  2:{ rewrite helloConnectedPoll_idle by done. apply cellsKept_refl. }
  rewrite helloConnectedPoll_connected by done.
  set (w1 := resetHelloStallCounter _).
  destruct (dropPoll_fields w1) as (_ & _ & _ & _ & Hc & _ & _).
  intros c Hin. rewrite Hc. simpl.
  destruct (decide (cell = c)) as [->|Hne].
  - apply list_lookup_insert_eq. by apply lookup_lt_Some in Hin.
  - by rewrite list_lookup_insert_ne.
Qed.

Lemma cellsKept_onGatewayDebug m w : cellsKept w (onGatewayDebug m w).
Proof.
  destruct (clearHelloWatch_other w) as (_ & _ & _ & Hcw & _).
  destruct (isClosedMessage m) eqn:Hc.
  { rewrite onGatewayDebug_closed by done.
    destruct (clearHelloWatch_other
                (if gatewayIsConnected w then resetHelloStallCounter w else w))
      as (_ & _ & _ & Hcells & _).
    apply cellsKept_same. rewrite Hcells. by destruct (gatewayIsConnected w). }
  destruct (isOpenedMessage m) eqn:Ho.
  2:{ rewrite onGatewayDebug_other by done. apply cellsKept_refl. }
  destruct (onGatewayDebug_opened m w Ho) as (_ & _ & _ & _ & Hcells & _).
  intros c Hin. rewrite Hcells. by apply lookup_app_l_Some.
Qed.

Lemma cellsKept_fireTimer id w : cellsKept w (fireTimer id w).
Proof.
  unfold fireTimer. destruct (findTimer id (timers w)) as [t|]; [|apply cellsKept_refl].
  set (w1 := if timerRepeats t then w else _).
  assert (H1 : cellsKept w w1).
  { subst w1. destruct (timerRepeats t); apply cellsKept_same; reflexivity. }
  eapply cellsKept_trans; [exact H1|].
  destruct (timerCallback t); simpl;
    [apply cellsKept_helloConnectedPoll | apply cellsKept_same, helloTimeout_cells].
Qed.

Lemma cellsKept_fold {A} (f : A → World → World) (l : list A) w :
  (∀ a y, cellsKept y (f a y)) →
  cellsKept w (fold_left (fun acc a => f a acc) l w).
Proof.
  intros Hf. revert w. induction l as [|a l IH]; intros w; simpl; [apply cellsKept_refl|].
  eapply cellsKept_trans; [apply Hf | apply IH].
Qed.

Lemma cellsKept_deliver ev w : cellsKept w (deliver ev w).
Proof.
  destruct ev as [msg|err|id|b| |err]; simpl.
  - destruct (gatewayEmitter w) as [em|]; [|apply cellsKept_refl].
    apply (cellsKept_fold (fun _ y => onGatewayDebug msg y)).
    intros _ y. apply cellsKept_onGatewayDebug.
  - destruct (gatewayEmitter w); apply cellsKept_same; reflexivity.
  - apply cellsKept_fireTimer.
  - destruct (gateway w); apply cellsKept_same; reflexivity.
  - apply cellsKept_sameWatch, sameWatch_dispatchAbort.
  - apply cellsKept_refl.
Qed.

Lemma cellsKept_deliverAll evs w : cellsKept w (deliverAll evs w).
Proof. apply (cellsKept_fold deliver). intros a y. apply cellsKept_deliver. Qed.

(** C10.  Let the handshake of a watch cycle be confirmed: its
    [sawConnected] was set at some point of the window (world [w]; the poll
    sets it, see [poll_confirmation_cancels_poll_only]), or the handle is
    connected when the deadline fires.  Whatever happens in between
    ([evs]), when the cycle's deadline timer fires the watchdog resets the
    stall counter to 0 and does nothing to the handle: no [disconnect], no
    [connect], no write to its fields, no stall line; the only effect is
    dropping a poll that is still armed. *)
Theorem confirmed_deadline_only_resets_counter w evs id t cell :
  let w1 := deliverAll evs w in
  findTimer id (timers w1) = Some t →
  timerCallback t = HelloTimeout cell →
  sawConnected w !! cell = Some true ∨ gatewayIsConnected w1 = true →
  let w' := fireTimer id w1 in
  consecutiveHelloStalls w' = 0
  ∧ gateway w' = gateway w1
  ∧ trace w' = trace w1 ++ dropPollEffects w1
  ∧ handleEffects (trace w') = handleEffects (trace w1)
  ∧ helloTimeoutId w' = None
  ∧ helloConnectedPollId w' = None.
Proof.
  cbv zeta. intros Hfind Hcb Hconf.
  pose proof (cellsKept_deliverAll evs w cell) as Hkept.
  remember (deliverAll evs w) as w1 eqn:Ew1. clear Ew1.
  assert (Hc : confirmed cell w1 = true).
  { unfold confirmed. destruct Hconf as [Hsaw | ->]; [|by rewrite orb_true_r].
    by rewrite (Hkept Hsaw). }
  unfold fireTimer. rewrite Hfind, Hcb. cbn [runCallback].
  set (w2 := if timerRepeats t then w1 else _).
  assert (Hc2 : confirmed cell w2 = true) by (subst w2; by destruct (timerRepeats t)).
  assert (Htr : trace w2 = trace w1) by (subst w2; by destruct (timerRepeats t)).
  assert (Hg : gateway w2 = gateway w1) by (subst w2; by destruct (timerRepeats t)).
  assert (Hd : dropPollEffects w2 = dropPollEffects w1)
    by (subst w2; by destruct (timerRepeats t)).
  rewrite helloTimeout_confirmed by done.
  destruct (dropPoll_fields w2) as (Dtr & Dp & _ & Dg & _ & _ & _).
  simpl. rewrite Dtr, Dp, Dg, Htr, Hg, Hd.
  repeat split; try done.
  by rewrite handleEffects_app, handleEffects_dropPoll, app_nil_r.
Qed.

(** C10 at a concrete window: the connection opens, the handle becomes
    connected and poll 1 sees it; then the handle drops again and some time
    passes before deadline 2 fires. *)
Lemma confirmed_deadline_only_resets_counter_witness :
  let w := deliverAll [EnvDebug "WebSocket connection opened"; EnvConnected true;
                       EnvTimer 1] attachedWorld in
  let w1 := deliverAll [EnvConnected false; EnvTimer 1] w in
  let w' := fireTimer 2 w1 in
  (sawConnected w !! 0 = Some true ∧ gatewayIsConnected w1 = false)
  ∧ consecutiveHelloStalls w' = 0
  ∧ gateway w' = gateway w1
  ∧ trace w' = trace w1 ++ dropPollEffects w1
  ∧ handleEffects (trace w') = handleEffects (trace w1)
  ∧ helloTimeoutId w' = None
  ∧ helloConnectedPollId w' = None.
Proof.
  cbv zeta. split; [split; reflexivity|].
  apply (confirmed_deadline_only_resets_counter _ [EnvConnected false; EnvTimer 1] 2
           (mkTimer 2 false HELLO_TIMEOUT_MS (HelloTimeout 0)) 0).
  - reflexivity.
  - reflexivity.
  - left. reflexivity.
Defined.

(** ** The scenarios of provider.lifecycle.test.ts *)

Example cleans_up_when_startup_fails :
  let '(outcome, w) :=
    runDiscordGatewayLifecycle (harness None false (fun _ => false) None)
      envStartRejects in
  outcome = Rejected (mkThrown 1 "Error: startup failed")
  ∧ cleanupCounts w = [1; 1; 0; 1; 1; 1; 1].
Proof. vm_compute. split; reflexivity. Qed.

Example cleans_up_when_wait_fails :
  let '(outcome, w) :=
    runDiscordGatewayLifecycle (harness None false (fun _ => false) None)
      (mkEnv [] None [EnvStreamFailure (mkThrown 6 "Error: gateway wait failed")]
         None None None [] None [] None None) in
  outcome = Rejected (mkThrown 6 "Error: gateway wait failed")
  ∧ cleanupCounts w = [1; 1; 1; 1; 1; 1; 1].
Proof. vm_compute. split; reflexivity. Qed.

Example cleans_up_after_successful_wait :
  let '(outcome, w) :=
    runDiscordGatewayLifecycle (harness None false (fun _ => false) None) quietEnv in
  outcome = Resolved ∧ cleanupCounts w = [1; 1; 1; 1; 1; 1; 1].
Proof. vm_compute. split; reflexivity. Qed.

Example queued_disallowed_intents_resolve_without_waiting :
  let '(outcome, w) :=
    runDiscordGatewayLifecycle
      (harness None false (fun err => includes (thrown_text err) "4014")
         (Some [mkThrown 5 "Error: Fatal Gateway error: 4014"]))
      quietEnv in
  outcome = Resolved
  ∧ count_occ Effect_eq_dec (trace w) (RuntimeError DisallowedIntentsLine) = 1
  ∧ cleanupCounts w = [1; 1; 0; 1; 1; 1; 1].
Proof. vm_compute. repeat split; reflexivity. Qed.

Example queued_fatal_error_is_thrown :
  let '(outcome, w) :=
    runDiscordGatewayLifecycle
      (harness None false (fun _ => false)
         (Some [mkThrown 4 "Error: Fatal Gateway error: 4000"]))
      quietEnv in
  outcome = Rejected (mkThrown 4 "Error: Fatal Gateway error: 4000")
  ∧ cleanupCounts w = [1; 1; 0; 1; 1; 1; 1].
Proof. vm_compute. split; reflexivity. Qed.

(** Three connections open in a row and none completes its handshake; the
    poll ticks in between find the handle disconnected. *)
Example stalled_hello_retries_then_reidentifies :
  let '(outcome, w) :=
    runDiscordGatewayLifecycle
      (harness (Some exampleGateway) true (fun _ => false) None)
      (mkEnv [] None
         [EnvDebug "WebSocket connection opened"; EnvTimer 1; EnvTimer 1; EnvTimer 2;
          EnvDebug "WebSocket connection opened"; EnvTimer 3; EnvTimer 4;
          EnvDebug "WebSocket connection opened"; EnvTimer 5; EnvTimer 6]
         None None None [] None [] None None) in
  outcome = Resolved
  ∧ count_occ Effect_eq_dec (trace w) GatewayDisconnect = 3
  ∧ connectCalls w = [GatewayConnect true; GatewayConnect true; GatewayConnect false]
  ∧ gateway w = Some (mkGateway false (Some (mkResumeState None None None)) None None).
Proof. vm_compute. repeat split; reflexivity. Qed.

(** A stall, then a reconnect that succeeds and drops at once, then two
    more stalls: the drop resets the counter, so no fresh identify. *)
Example quick_drop_after_reconnect_resets_counter :
  let '(outcome, w) :=
    runDiscordGatewayLifecycle
      (harness (Some exampleGateway) true (fun _ => false) None)
      (mkEnv [] None
         [EnvDebug "WebSocket connection opened"; EnvTimer 2;
          EnvConnected true;
          EnvDebug "WebSocket connection opened";
          EnvDebug "WebSocket connection closed with code 1006";
          EnvConnected false;
          EnvDebug "WebSocket connection opened"; EnvTimer 6;
          EnvDebug "WebSocket connection opened"; EnvTimer 8]
         None None None [] None [] None None) in
  outcome = Resolved
  ∧ connectCalls w = [GatewayConnect true; GatewayConnect true; GatewayConnect true].
Proof. vm_compute. split; reflexivity. Qed.

(** * Further properties of the lifecycle *)

(** ** The watchdog never doubles its timers *)

Lemma filter_none {A} (P : A → bool) (l : list A) :
  (∀ x, x ∈ l → P x = false) → List.filter P l = [].
Proof.
  induction l as [|x l IH]; intros H; [done|]. simpl.
  rewrite (H x) by apply list_elem_of_here.
  apply IH. intros y Hy. apply H. by apply list_elem_of_further.
Qed.

Lemma filter_at_most_one (P : Timer → bool) (l : list Timer) :
  NoDup (timerId <$> l) →
  (∀ t1 t2, t1 ∈ l → t2 ∈ l → P t1 = true → P t2 = true → timerId t1 = timerId t2) →
  (length (List.filter P l) ≤ 1)%nat.
Proof.
  induction l as [|t l IH]; intros Hnd Hsame; [simpl; lia|].
  rewrite fmap_cons in Hnd. apply NoDup_cons in Hnd as [Hnotin Hnd].
  simpl. destruct (P t) eqn:Ht.
  - rewrite filter_none; [simpl; lia|].
    intros x Hx. destruct (P x) eqn:Hpx; [|done]. exfalso. apply Hnotin.
    rewrite (Hsame t x); [| apply list_elem_of_here | by apply list_elem_of_further | done | done].
    by apply list_elem_of_fmap_2.
  - apply IH; [done|]. intros t1 t2 H1 H2. apply Hsame; by apply list_elem_of_further.
Qed.

Lemma watchInv_at_most_one w :
  watchInv w →
  (length (List.filter timerRepeats (timers w)) ≤ 1)%nat
  ∧ (length (List.filter (fun t => negb (timerRepeats t)) (timers w)) ≤ 1)%nat.
Proof.
  intros Hinv. split; apply filter_at_most_one; try apply (inv_ids w Hinv).
  - intros t1 t2 H1 H2 P1 P2. apply (watchInv_one_of_each w); try done. congruence.
  - intros t1 t2 H1 H2 P1 P2. apply (watchInv_one_of_each w); try done.
    apply negb_true_iff in P1, P2. congruence.
Qed.

(** X1.  However debug lines, timer expiries, connection changes, errors
    and abort events interleave after the lifecycle has attached its
    listeners, and at the end of the [try]/[catch] statement of any run, at
    most one confirmation poll and at most one deadline timer are live, and
    the stall counter is below the escalation threshold. *)
Theorem at_most_one_poll_and_one_deadline p env evs :
  let bounded w :=
    (length (List.filter timerRepeats (timers w)) ≤ 1)%nat
    ∧ (length (List.filter (fun t => negb (timerRepeats t)) (timers w)) ≤ 1)%nat
    ∧ consecutiveHelloStalls w < MAX_CONSECUTIVE_HELLO_STALLS in
  bounded (deliverAll evs (prologue p (initialWorld p)))
  ∧ bounded (snd (lifecycleBody p env (prologue p (initialWorld p)))).
Proof.
  cbv zeta. split.
  - pose proof (watchInv_deliverAll evs _ (watchInv_prologue p)) as Hinv.
    destruct (watchInv_at_most_one _ Hinv). repeat split; try done. apply Hinv.
  - destruct (lifecycleBody p env (prologue p (initialWorld p))) as [c w] eqn:E.
    pose proof (preserves_lifecycleBody p env _ _ _ (runInv_prologue p) E) as [[Hinv _] _].
    destruct (watchInv_at_most_one _ Hinv). repeat split; try done. apply Hinv.
Qed.

(** ** Debug lines *)

(** X2.  A line that mentions a closed connection, seen while the handle is
    not connected, cancels whatever the watchdog has armed and keeps the
    stall count: stalls keep adding up across failed handshakes.  The test
    for "closed" comes first, so this holds also for a line that mentions
    an opened connection as well. *)
Theorem closed_while_disconnected_keeps_stall_count m w :
  watchInv w →
  isClosedMessage m = true →
  gatewayIsConnected w = false →
  let w' := onGatewayDebug m w in
  consecutiveHelloStalls w' = consecutiveHelloStalls w
  ∧ timers w' = []
  ∧ helloTimeoutId w' = None
  ∧ helloConnectedPollId w' = None
  ∧ gateway w' = gateway w
  ∧ handleEffects (trace w') = handleEffects (trace w).
Proof.
  intros Hinv Hm Hc. cbv zeta. rewrite (onGatewayDebug_closed m w Hm), Hc.
  destruct (clearHelloWatch_other w) as (Hg & _ & _ & _ & _ & Hs & _).
  destruct (clearHelloWatch_ids w) as [Ht Hp].
  repeat split; try done.
  - by apply clearHelloWatch_timers, inv_held.
  - apply handleEffects_clearHelloWatch.
Qed.

Lemma closed_while_disconnected_keeps_stall_count_witness :
  let m := "WebSocket connection closed before WebSocket connection opened" in
  let w0 := deliverAll [EnvDebug "WebSocket connection opened"; EnvTimer 2;
                        EnvDebug "WebSocket connection opened"]
              attachedWorld in
  let w' := onGatewayDebug m w0 in
  (consecutiveHelloStalls w0 = 1 ∧ length (timers w0) = 2)
  ∧ consecutiveHelloStalls w' = consecutiveHelloStalls w0
  ∧ timers w' = []
  ∧ helloTimeoutId w' = None
  ∧ helloConnectedPollId w' = None
  ∧ gateway w' = gateway w0
  ∧ handleEffects (trace w') = handleEffects (trace w0).
Proof.
  cbv zeta. split; [split; reflexivity|].
  apply closed_while_disconnected_keeps_stall_count.
  - apply watchInv_deliverAll, watchInv_prologue.
  - reflexivity.
  - reflexivity.
Defined.

Lemma findTimer_fresh id ts :
  (∀ t, t ∈ ts → timerId t ≠ id) → findTimer id ts = None.
Proof.
  intros H. unfold findTimer. induction ts as [|t ts IH]; [done|]. simpl.
  destruct (Nat.eqb (timerId t) id) eqn:E.
  - apply Nat.eqb_eq in E. exfalso. by apply (H t (list_elem_of_here _ _)).
  - apply IH. intros t' Ht'. apply H. by apply list_elem_of_further.
Qed.

(** X3.  A line that announces an opened connection starts a fresh watch
    cycle: whatever was armed is cancelled, exactly one poll (every 250 ms)
    and one deadline (30000 ms) are armed under new ids, the cycle's
    [sawConnected] starts as the handle's [isConnected], and the stall count
    and the handle are left alone.  A timer of an earlier cycle can no
    longer run. *)
Theorem opened_line_starts_a_fresh_cycle m w :
  watchInv w →
  isOpenedMessage m = true →
  let w' := onGatewayDebug m w in
  let n := nextTimerId w in
  let cell := length (sawConnected w) in
  timers w' = [mkTimer n true 250 (HelloConnectedPoll cell);
               mkTimer (S n) false 30000 (HelloTimeout cell)]
  ∧ helloConnectedPollId w' = Some n
  ∧ helloTimeoutId w' = Some (S n)
  ∧ sawConnected w' !! cell = Some (gatewayIsConnected w)
  ∧ consecutiveHelloStalls w' = consecutiveHelloStalls w
  ∧ gateway w' = gateway w
  ∧ handleEffects (trace w') = handleEffects (trace w)
  ∧ (∀ t, t ∈ timers w → fireTimer (timerId t) w' = w').
Proof.
  intros Hinv Ho. cbv zeta.
  destruct (onGatewayDebug_opened m w Ho) as (Ht & Hp & Hd & Hn & Hcells & Hs & Hg & Htr).
  rewrite (clearHelloWatch_timers w (inv_held w Hinv)) in Ht. simpl in Ht.
  repeat split; try done.
  - rewrite Hcells, lookup_app_r by done. by rewrite Nat.sub_diag.
  - rewrite Htr, handleEffects_app, handleEffects_clearHelloWatch. simpl.
    by rewrite app_nil_r.
  - intros t Hin. unfold fireTimer. rewrite findTimer_fresh; [done|].
    pose proof (inv_fresh w Hinv t Hin) as Hlt.
    rewrite Ht. intros t' Ht'.
    apply elem_of_cons in Ht' as [->|Ht']; [simpl; lia|].
    apply elem_of_cons in Ht' as [->|Ht']; [simpl; lia|].
    by apply elem_of_nil in Ht'.
Qed.

Lemma opened_line_starts_a_fresh_cycle_witness :
  let w := deliverAll [EnvDebug "WebSocket connection opened"] attachedWorld in
  let w' := onGatewayDebug "WebSocket connection opened" w in
  timers w = [mkTimer 1 true 250 (HelloConnectedPoll 0);
              mkTimer 2 false 30000 (HelloTimeout 0)]
  ∧ timers w' = [mkTimer 3 true 250 (HelloConnectedPoll 1);
                 mkTimer 4 false 30000 (HelloTimeout 1)]
  ∧ fireTimer 2 w' = w'.
Proof.
  cbv zeta. split; [reflexivity|].
  destruct (opened_line_starts_a_fresh_cycle "WebSocket connection opened"
              (deliverAll [EnvDebug "WebSocket connection opened"] attachedWorld))
    as (Ht & _ & _ & _ & _ & _ & _ & Hold).
  - apply watchInv_deliverAll, watchInv_prologue.
  - reflexivity.
  - split; [exact Ht|].
    apply (Hold (mkTimer 2 false 30000 (HelloTimeout 0))).
    apply list_elem_of_further, list_elem_of_here.
Defined.

(** X4.  Until the handle reports a connection, the confirmation poll
    changes nothing, however often it runs, and stays armed. *)
Theorem poll_is_idle_until_connected k w id t cell :
  watchInv w →
  findTimer id (timers w) = Some t →
  timerCallback t = HelloConnectedPoll cell →
  gatewayIsConnected w = false →
  Nat.iter k (fireTimer id) w = w.
Proof.
  intros Hinv Hf Hcb Hc.
  assert (H1 : fireTimer id w = w).
  { unfold fireTimer. rewrite Hf.
    destruct (findTimer_Some _ _ _ Hf) as [Hin _].
    pose proof (inv_held w Hinv t Hin) as Hheld. unfold timerHeld in Hheld.
    rewrite Hcb in Hheld. destruct Hheld as [-> _]. rewrite Hcb.
    cbn [runCallback]. by apply helloConnectedPoll_idle. }
  induction k as [|k IH]; [done|]. simpl. by rewrite IH.
Qed.

Lemma poll_is_idle_until_connected_witness :
  let w := deliverAll [EnvDebug "WebSocket connection opened"] attachedWorld in
  Nat.iter 5 (fireTimer 1) w = w.
Proof.
  cbv zeta.
  apply (poll_is_idle_until_connected 5 _ 1 (mkTimer 1 true 250 (HelloConnectedPoll 0)) 0).
  - apply watchInv_deliverAll, watchInv_prologue.
  - reflexivity.
  - reflexivity.
  - reflexivity.
Defined.

(** ** Stalls in general *)

Lemma timerEffect_handle t : forallb timerEffect t = true → handleEffects t = [].
Proof.
  intros H. apply filter_none. intros e He.
  rewrite forallb_forall in H. specialize (H e (proj1 (list_elem_of_In _ _) He)).
  by destruct e.
Qed.

Lemma timerEffect_lines t : forallb timerEffect t = true → stallLines t = [].
Proof.
  induction t as [|e t IH]; [done|]. simpl. intros H.
  apply andb_true_iff in H as [He Ht]. unfold stallLines in *. simpl.
  destruct e; try discriminate; by apply IH.
Qed.

Lemma stallLines_app t1 t2 : stallLines (t1 ++ t2) = stallLines t1 ++ stallLines t2.
Proof. apply omap_app. Qed.

(** One stall round, whatever the handle is: the connection opens while
    the handle is not connected and the cycle's deadline fires with nothing
    in between. *)
Lemma openedRound_unconfirmed m w :
  isOpenedMessage m = true →
  watchInv w →
  gatewayIsConnected w = false →
  let stalls := (consecutiveHelloStalls w + 1)%nat in
  let force := (MAX_CONSECUTIVE_HELLO_STALLS <=? stalls)%nat in
  let w' := fireDeadline (onGatewayDebug m w) in
  consecutiveHelloStalls w' = (if force then 0 else stalls)
  ∧ gateway w' = (if force then gateway (clearResumeState w) else gateway w)
  ∧ (∃ quiet, trace w' = trace w ++ quiet ++ stallEffects w
              ∧ forallb timerEffect quiet = true)
  ∧ watchInv w'
  ∧ timers w' = [].
Proof.
  intros Ho Hinv Hconn. cbv zeta.
  assert (Hinv' : watchInv (fireDeadline (onGatewayDebug m w))).
  { unfold fireDeadline.
    pose proof (watchInv_onGatewayDebug m w Hinv).
    destruct (helloTimeoutId _); [by apply watchInv_fireTimer | done]. }
  destruct (opened_then_deadline _ w Hinv Ho) as [Hfire Hconf].
  destruct (onGatewayDebug_opened _ w Ho) as (Ht & Hp & Hd & Hn & Hcells & Hs & Hg1 & Htr).
  rewrite Hfire in *.
  remember (onGatewayDebug m w) as w1 eqn:Ew1. clear Ew1.
  remember (setTimers [mkTimer (nextTimerId w) true HELLO_CONNECTED_POLL_MS
                         (HelloConnectedPoll (length (sawConnected w)))] w1)
    as w2 eqn:Ew2.
  assert (Hconf2 : confirmed (length (sawConnected w)) w2 = false).
  { by rewrite Ew2, confirmed_setTimers, Hconf. }
  assert (Hs2 : consecutiveHelloStalls w2 = consecutiveHelloStalls w)
    by (rewrite Ew2; exact Hs).
  assert (Hg2 : gateway w2 = gateway w) by (rewrite Ew2; simpl; congruence).
  assert (Htr2 : trace w2 = trace w1) by (by rewrite Ew2).
  assert (Hheld2 : ∀ t, t ∈ timers w2 → timerHeld w2 t).
  { rewrite Ew2. simpl. intros t Hin. apply list_elem_of_singleton in Hin as ->.
    unfold timerHeld. simpl. by rewrite Hp. }
  assert (Htimers : timers (dropPoll w2) = []).
  { apply list_nil_no_elem. intros t Hin.
    destruct (dropPoll_timers w2 t Hheld2 Hin) as [Hin2 Hrep].
    rewrite Ew2 in Hin2. simpl in Hin2. apply list_elem_of_singleton in Hin2 as ->.
    discriminate. }
  clear Ew2.
  destruct (dropPoll_fields w2) as (Dtr & _ & _ & Dg & _ & _ & _).
  set (quiet := [ClearHelloWatch]
          ++ match helloTimeoutId w with Some id => [ClearTimeout id] | None => [] end
          ++ match helloConnectedPollId w with Some id => [ClearInterval id] | None => [] end
          ++ [SetInterval (nextTimerId w) HELLO_CONNECTED_POLL_MS;
              SetTimeout (S (nextTimerId w)) HELLO_TIMEOUT_MS]
          ++ dropPollEffects w2).
  assert (Hquiet : forallb timerEffect quiet = true).
  { subst quiet. unfold dropPollEffects.
    destruct (helloTimeoutId w), (helloConnectedPollId w), (helloConnectedPollId w2);
      reflexivity. }
  assert (Htrq : trace (dropPoll w2) = trace w ++ quiet).
  { subst quiet. rewrite Dtr, Htr2, Htr, clearHelloWatch_trace, <- !app_assoc. done. }
  clearbody quiet.
  assert (Hfinal : timers (helloTimeout (length (sawConnected w)) w2) = []).
  { destruct (helloTimeout_watch (length (sawConnected w)) w2) as (A & _).
    - rewrite Hs2. apply Hinv.
    - by rewrite A. }
  cut (consecutiveHelloStalls (helloTimeout (length (sawConnected w)) w2)
       = (if (MAX_CONSECUTIVE_HELLO_STALLS <=? consecutiveHelloStalls w + 1)%nat
          then 0 else (consecutiveHelloStalls w + 1)%nat)
       ∧ gateway (helloTimeout (length (sawConnected w)) w2)
         = (if (MAX_CONSECUTIVE_HELLO_STALLS <=? consecutiveHelloStalls w + 1)%nat
            then gateway (clearResumeState w) else gateway w)
       ∧ trace (helloTimeout (length (sawConnected w)) w2)
         = trace w ++ quiet ++ stallEffects w).
  { intros (A & B & C).
    split; [exact A|]. split; [exact B|]. split; [by exists quiet|]. by split. }
  clear Hinv' Hfinal Hfire.
  unfold stallEffects, resumeWrites.
  destruct (Nat.lt_ge_cases (consecutiveHelloStalls w + 1) MAX_CONSECUTIVE_HELLO_STALLS)
    as [Hlt | Hge].
  - rewrite helloTimeout_retry by (rewrite ?Hs2; done).
    rewrite Hs2.
    replace (MAX_CONSECUTIVE_HELLO_STALLS <=? consecutiveHelloStalls w + 1)%nat
      with false by (symmetry; apply Nat.leb_gt; done).
    unfold gatewayConnect, gatewayDisconnect.
    destruct (gateway w) as [g|] eqn:Hg; simpl; rewrite Dg, Hg2; simpl;
      rewrite ?Dg, ?Hg2; simpl; rewrite ?Dg, ?Hg2; rewrite Htrq;
      (split; [done|]); (split; [by rewrite ?Dg, ?Hg2, ?Hg|]);
      rewrite <- ?app_assoc; done.
  - rewrite helloTimeout_escalate by (rewrite ?Hs2; done).
    rewrite Hs2.
    replace (MAX_CONSECUTIVE_HELLO_STALLS <=? consecutiveHelloStalls w + 1)%nat
      with true by (symmetry; apply Nat.leb_le; done).
    unfold gatewayConnect, gatewayDisconnect, clearResumeState.
    destruct (gateway w) as [g|] eqn:Hg; [destruct (state g) as [st|] eqn:Hst|];
      simpl; rewrite Dg, Hg2; simpl; rewrite ?Hst; simpl;
      rewrite ?Dg, ?Hg2; simpl; rewrite ?Dg, ?Hg2; simpl; rewrite Htrq;
      (split; [done|]); (split; [by rewrite ?Dg, ?Hg2, ?Hg|]);
      rewrite <- ?app_assoc; done.
Qed.

Lemma connectCalls_app w w' ext :
  trace w' = trace w ++ ext →
  connectCalls w'
  = connectCalls w
      ++ List.filter (fun e => match e with GatewayConnect _ => true | _ => false end) ext.
Proof. intros H. unfold connectCalls. by rewrite H, List.filter_app. Qed.

Lemma timerEffect_connects t :
  forallb timerEffect t = true →
  List.filter (fun e => match e with GatewayConnect _ => true | _ => false end) t = [].
Proof.
  intros H. apply filter_none. intros e He.
  rewrite forallb_forall in H. specialize (H e (proj1 (list_elem_of_In _ _) He)).
  by destruct e.
Qed.

Lemma stallEffects_views w :
  let stalls := (consecutiveHelloStalls w + 1)%nat in
  let force := (MAX_CONSECUTIVE_HELLO_STALLS <=? stalls)%nat in
  stallLines (stallEffects w)
  = [StallLine force HELLO_TIMEOUT_MS stalls MAX_CONSECUTIVE_HELLO_STALLS]
  ∧ List.filter (fun e => match e with GatewayConnect _ => true | _ => false end)
      (stallEffects w)
    = match gateway w with Some _ => [GatewayConnect (negb force)] | None => [] end
  ∧ (gateway w = None → handleEffects (stallEffects w) = []).
Proof.
  cbv zeta. unfold stallEffects, resumeWrites.
  destruct (MAX_CONSECUTIVE_HELLO_STALLS <=? _)%nat;
    (destruct (gateway w) as [g|]; [destruct (state g)|]); repeat split; done.
Qed.

Lemma clearResumeState_gateway w :
  gatewayIsConnected (clearResumeState w) = gatewayIsConnected w
  ∧ (gateway (clearResumeState w) = None ↔ gateway w = None).
Proof.
  unfold clearResumeState, gatewayIsConnected.
  destruct (gateway w) as [g|] eqn:Hg; [destruct (state g)|]; simpl; rewrite ?Hg; done.
Qed.

Lemma mod3_next n :
  (MAX_CONSECUTIVE_HELLO_STALLS <=? n mod 3 + 1)%nat = ((n + 1) mod 3 =? 0)%nat
  ∧ (if (MAX_CONSECUTIVE_HELLO_STALLS <=? n mod 3 + 1)%nat then 0%nat else (n mod 3 + 1)%nat)
    = (S n mod 3)%nat.
Proof.
  replace (S n) with (n + 1)%nat by lia.
  rewrite <- (Nat.Div0.add_mod_idemp_l n 1 3).
  pose proof (Nat.mod_upper_bound n 3 ltac:(lia)) as Hlt.
  unfold MAX_CONSECUTIVE_HELLO_STALLS.
  destruct (n mod 3)%nat as [|[|[|k]]]; [done | done | done | lia].
Qed.

(** [n] stall rounds in a row, from a stall count of 0. *)
Lemma stallRounds_general n w :
  watchInv w →
  gatewayIsConnected w = false →
  consecutiveHelloStalls w = 0 →
  let w' := Nat.iter n stallRound w in
  stallLines (trace w')
  = stallLines (trace w)
      ++ map (fun i => StallLine ((i + 1) mod 3 =? 0)%nat HELLO_TIMEOUT_MS
                         (i mod 3 + 1)%nat MAX_CONSECUTIVE_HELLO_STALLS) (seq 0 n)
  ∧ connectCalls w'
    = connectCalls w
        ++ match gateway w with
           | Some _ => map (fun i => GatewayConnect (negb ((i + 1) mod 3 =? 0)%nat)) (seq 0 n)
           | None => []
           end
  ∧ consecutiveHelloStalls w' = (n mod 3)%nat
  ∧ (gateway w = None →
     gateway w' = None ∧ handleEffects (trace w') = handleEffects (trace w))
  ∧ watchInv w'
  ∧ gatewayIsConnected w' = false
  ∧ (gateway w' = None ↔ gateway w = None).
Proof.
  intros Hinv Hconn Hzero. induction n as [|n IH].
  { simpl. rewrite !app_nil_r, Hzero.
    split; [done|]. split; [destruct (gateway w); by rewrite app_nil_r|].
    split; [done|]. split; [done|]. split; [done|]. by split. }
  destruct IH as (Hlines & Hcalls & Hs & Hnone & Hinv' & Hconn' & Hsome).
  cbv zeta. change (Nat.iter (S n) stallRound w) with (stallRound (Nat.iter n stallRound w)).
  remember (Nat.iter n stallRound w) as wn eqn:Ewn. clear Ewn.
  unfold stallRound.
  destruct (openedRound_unconfirmed "WebSocket connection opened" wn)
    as (Hs' & Hg' & (quiet & Htr' & Hq) & Hinv'' & _);
    [reflexivity | exact Hinv' | exact Hconn' |].
  remember (fireDeadline (onGatewayDebug "WebSocket connection opened" wn)) as wn' eqn:E.
  clear E.
  destruct (stallEffects_views wn) as (Vl & Vc & Vh). cbv zeta in Vl, Vc.
  destruct (mod3_next n) as [Hforce Hnext].
  rewrite Hs in Hs', Hg', Vl, Vc. rewrite Hforce in Hg', Vl, Vc.
  rewrite seq_S, !map_app. simpl.
  destruct (clearResumeState_gateway wn) as [Rc Rn].
  assert (Hgn : gateway wn' = None ↔ gateway wn = None).
  { rewrite Hg'. destruct ((n + 1) mod 3 =? 0)%nat; [exact Rn | done]. }
  split; [|split; [|split; [|split; [|split; [|split]]]]].
  - rewrite Htr', !stallLines_app, (timerEffect_lines _ Hq), Vl, Hlines.
    by rewrite <- app_assoc.
  - rewrite (connectCalls_app wn wn' _ Htr'), List.filter_app, (timerEffect_connects _ Hq), Vc, Hcalls.
    simpl. destruct (gateway w) as [g|] eqn:Hgw.
    + destruct (gateway wn) as [gn|] eqn:Hgwn; [by rewrite <- app_assoc|].
      destruct Hsome as [Hx _]. by specialize (Hx eq_refl).
    + destruct Hsome as [_ Hx]. rewrite (Hx eq_refl). by rewrite !app_nil_r.
  - rewrite Hs'. exact Hnext.
  - intros Hgw. destruct (Hnone Hgw) as [Hgn0 Hh]. split; [by apply Hgn|].
    rewrite Htr', !handleEffects_app, (timerEffect_handle _ Hq), (Vh Hgn0), Hh.
    by rewrite !app_nil_r.
  - exact Hinv''.
  - unfold gatewayIsConnected. rewrite Hg'.
    destruct ((n + 1) mod 3 =? 0)%nat; [exact (eq_trans Rc Hconn') | exact Hconn'].
  - by rewrite Hgn.
Qed.

(** X5.  With a handle that never reports a connection, stall after stall
    from a count of 0: the [i]-th stall (from 0) logs the count
    [i mod 3 + 1] of 3, and calls [connect] with [resume = true] except on
    every third stall, where it forces a fresh identify and the count
    starts over.  After [n] stalls the count is [n mod 3]. *)
Theorem every_third_stall_forces_fresh_identify n w g :
  watchInv w →
  gateway w = Some g →
  isConnected g = false →
  consecutiveHelloStalls w = 0 →
  let w' := Nat.iter n stallRound w in
  connectCalls w'
  = connectCalls w
      ++ map (fun i => GatewayConnect (negb ((i + 1) mod 3 =? 0)%nat)) (seq 0 n)
  ∧ stallLines (trace w')
    = stallLines (trace w)
        ++ map (fun i => StallLine ((i + 1) mod 3 =? 0)%nat 30000 (i mod 3 + 1)%nat 3)
             (seq 0 n)
  ∧ consecutiveHelloStalls w' = (n mod 3)%nat.
Proof.
  intros Hinv Hg Hconn Hzero.
  destruct (stallRounds_general n w Hinv) as (Hl & Hc & Hs & _); [|done|].
  { unfold gatewayIsConnected. by rewrite Hg. }
  rewrite Hg in Hc. cbv zeta. auto.
Qed.

Lemma every_third_stall_forces_fresh_identify_witness :
  let w' := Nat.iter 7 stallRound attachedWorld in
  connectCalls w'
  = connectCalls attachedWorld
      ++ map GatewayConnect [true; true; false; true; true; false; true]
  ∧ stallLines (trace w')
    = stallLines (trace attachedWorld)
        ++ map (fun i => StallLine ((i + 1) mod 3 =? 0)%nat 30000 (i mod 3 + 1)%nat 3)
             (seq 0 7)
  ∧ consecutiveHelloStalls w' = 1.
Proof.
  apply (every_third_stall_forces_fresh_identify 7 attachedWorld exampleGateway).
  - apply watchInv_prologue.
  - reflexivity.
  - reflexivity.
  - reflexivity.
Defined.

(** X6.  [clearResumeState] returns early when the handle has no [state]
    object: a stall that reaches the threshold then writes to no field of
    the handle, not even to [sequence], and still disconnects and connects
    with [resume = false]; the stall count starts over. *)
Theorem forced_identify_without_state_writes_nothing m w g :
  isOpenedMessage m = true →
  watchInv w →
  gateway w = Some g →
  isConnected g = false →
  state g = None →
  consecutiveHelloStalls w = 2 →
  let w' := fireDeadline (onGatewayDebug m w) in
  gateway w' = Some g
  ∧ handleEffects (trace w')
    = handleEffects (trace w) ++ [GatewayDisconnect; GatewayConnect false]
  ∧ stallLines (trace w') = stallLines (trace w) ++ [StallLine true 30000 3 3]
  ∧ consecutiveHelloStalls w' = 0.
Proof.
  intros Ho Hinv Hg Hconn Hst Htwo. cbv zeta.
  destruct (openedRound_unconfirmed m w Ho Hinv)
    as (Hs' & Hg' & (quiet & Htr' & Hq) & _ & _).
  { unfold gatewayIsConnected. by rewrite Hg. }
  rewrite Htwo in Hs', Hg'. simpl in Hs', Hg'.
  assert (Hse : stallEffects w
                = [RuntimeLog (StallLine true 30000 3 3); GatewayDisconnect;
                   GatewayConnect false]).
  { unfold stallEffects, resumeWrites. rewrite Htwo, Hg, Hst. reflexivity. }
  rewrite Hse in Htr'.
  repeat split.
  - rewrite Hg'. unfold clearResumeState. by rewrite Hg, Hst.
  - rewrite Htr', !handleEffects_app, (timerEffect_handle _ Hq). done.
  - rewrite Htr', !stallLines_app, (timerEffect_lines _ Hq). done.
  - exact Hs'.
Qed.

Lemma forced_identify_without_state_writes_nothing_witness :
  let w := deliverAll [EnvDebug "WebSocket connection opened"; EnvTimer 2;
                       EnvDebug "WebSocket connection opened"; EnvTimer 4]
             (prologue statelessParams (initialWorld statelessParams)) in
  let w' := fireDeadline (onGatewayDebug "WebSocket connection opened" w) in
  gateway w' = Some statelessGateway
  ∧ handleEffects (trace w')
    = handleEffects (trace w) ++ [GatewayDisconnect; GatewayConnect false]
  ∧ stallLines (trace w') = stallLines (trace w) ++ [StallLine true 30000 3 3]
  ∧ consecutiveHelloStalls w' = 0.
Proof.
  cbv zeta.
  apply forced_identify_without_state_writes_nothing.
  - reflexivity.
  - apply watchInv_deliverAll, watchInv_prologue.
  - reflexivity.
  - reflexivity.
  - reflexivity.
  - reflexivity.
Defined.

(** X7.  Without a gateway handle the deadline still counts and logs each
    stall, with the same escalation every third time, and calls nothing:
    no [disconnect], no [connect], no write. *)
Theorem stalls_without_handle_only_log n w :
  watchInv w →
  gateway w = None →
  consecutiveHelloStalls w = 0 →
  let w' := Nat.iter n stallRound w in
  handleEffects (trace w') = handleEffects (trace w)
  ∧ stallLines (trace w')
    = stallLines (trace w)
        ++ map (fun i => StallLine ((i + 1) mod 3 =? 0)%nat 30000 (i mod 3 + 1)%nat 3)
             (seq 0 n)
  ∧ consecutiveHelloStalls w' = (n mod 3)%nat
  ∧ gateway w' = None.
Proof.
  intros Hinv Hg Hzero.
  destruct (stallRounds_general n w Hinv) as (Hl & _ & Hs & Hnone & _); [|done|].
  { unfold gatewayIsConnected. by rewrite Hg. }
  destruct (Hnone Hg) as [Hg' Hh]. cbv zeta. auto.
Qed.

Lemma stalls_without_handle_only_log_witness :
  let w := prologue handlelessParams (initialWorld handlelessParams) in
  let w' := Nat.iter 4 stallRound w in
  handleEffects (trace w') = handleEffects (trace w)
  ∧ stallLines (trace w')
    = stallLines (trace w)
        ++ [StallLine false 30000 1 3; StallLine false 30000 2 3;
            StallLine true 30000 3 3; StallLine false 30000 1 3]
  ∧ consecutiveHelloStalls w' = 1
  ∧ gateway w' = None.
Proof.
  cbv zeta.
  apply (stalls_without_handle_only_log 4).
  - apply watchInv_prologue.
  - reflexivity.
  - reflexivity.
Defined.

(** ** Failures around the [try] statement *)

Lemma bind_normal {A B} (m : M A) (k : A → M B) w a w1 :
  m w = (Normal a, w1) → (m ≫= k) w = k a w1.
Proof. intros H. by rewrite run_bind, H. Qed.

Lemma bind_threw {A B} (m : M A) (k : A → M B) w e w1 :
  m w = (Threw e, w1) → (m ≫= k) w = (Threw e, w1).
Proof. intros H. by rewrite run_bind, H. Qed.

Lemma prologue_no_start p :
  count_occ Effect_eq_dec (trace (prologue p (initialWorld p))) ApprovalsStart = 0.
Proof.
  apply count_occ_not_In.
  unfold prologue, initialWorld, onAbort, addAbortListener, addDebugListener,
    signalAborted, gatewayDisconnect. simpl.
  destruct (clientGateway p), (emitterPresent p), (signal p) as [[|]|]; simpl;
    intuition discriminate.
Qed.

Lemma teardownEffects_no_start p w :
  count_occ Effect_eq_dec (teardownEffects p w) ApprovalsStart = 0.
Proof.
  unfold teardownEffects. rewrite !count_occ_app.
  destruct (releaseEarlyGatewayErrorGuard p), (helloTimeoutId w),
    (helloConnectedPollId w), (gatewayEmitter w), (abortSignal w),
    (voiceManager p), (execApprovalsHandler p); reflexivity.
Qed.

Lemma watchEffects_no_start ext :
  forallb watchEffect ext = true → count_occ Effect_eq_dec ext ApprovalsStart = 0.
Proof.
  intros Hw. apply count_occ_not_In. intros Hin. rewrite forallb_forall in Hw.
  by specialize (Hw _ Hin).
Qed.

Lemma lifecycleBody_start_failure p env e w0 :
  execApprovalsHandler p = true →
  startResult env = Some e →
  sawDisallowedIntents w0 = false →
  lifecycleBody p env w0
  = (if isDisallowedIntentsError p e then Normal tt else Threw e,
     deliverAll (duringStart env) (emit ApprovalsStart w0)).
Proof.
  intros Hh Hr Hs0.
  assert (Hstart : startExecApprovals p env w0
                   = (Threw e, deliverAll (duringStart env) (emit ApprovalsStart w0))).
  { unfold startExecApprovals, await. by rewrite Hh, Hr. }
  pose proof (startExecApprovals_saw p env w0 _ _ Hstart) as Hsaw.
  remember (deliverAll (duringStart env) (emit ApprovalsStart w0)) as wa eqn:Ea. clear Ea.
  unfold lifecycleBody, tryCatch, lifecycleTry.
  rewrite (bind_threw _ _ w0 e wa Hstart).
  unfold lifecycleCatch. rewrite run_bind. unfold getWorld.
  rewrite Hsaw, Hs0.
  by destruct (isDisallowedIntentsError p e).
Qed.

Lemma start_failure_after_prologue p env e w0 :
  execApprovalsHandler p = true →
  startResult env = Some e →
  teardownOk env →
  runInv p w0 →
  sawDisallowedIntents w0 = false →
  ∃ w,
    tryFinally (lifecycleBody p env) (teardown p env) w0
    = (if isDisallowedIntentsError p e then Normal tt else Threw e, w)
    ∧ pendingGatewayErrors w = pendingGatewayErrors w0
    ∧ drainView (trace w) = drainView (trace w0)
    ∧ count_occ Effect_eq_dec (trace w) ApprovalsStart
      = S (count_occ Effect_eq_dec (trace w0) ApprovalsStart).
Proof.
  intros Hh Hr Hok Hi0 Hs0. unfold tryFinally.
  destruct (envStep_deliverAll (duringStart env) (emit ApprovalsStart w0))
    as [Hpend Hsaw _ _ _ (ext & Hext & Hw)].
  assert (Hinv : runInv p (deliverAll (duringStart env) (emit ApprovalsStart w0))).
  { by apply runInv_deliverAll, runInv_emit. }
  rewrite (lifecycleBody_start_failure p env e w0 Hh Hr Hs0).
  remember (deliverAll (duringStart env) (emit ApprovalsStart w0)) as wa eqn:Ea. clear Ea.
  exists (teardownWorld p env wa).
  destruct (teardownWorld_trace p env wa (proj1 Hinv)) as [Htr _].
  rewrite (teardown_returns p env wa Hok).
  split; [done|]. split; [|split].
  - rewrite teardownWorld_pending. exact Hpend.
  - rewrite Htr, drainView_app, drainView_teardownEffects, Hext, trace_emit.
    rewrite !drainView_app, (drainView_watchEffects _ Hw). simpl.
    by rewrite !app_nil_r.
  - rewrite Htr, Hext, trace_emit, !count_occ_app,
      (watchEffects_no_start _ Hw), teardownEffects_no_start. simpl. lia.
Qed.

(** X8.  When the approvals handler's [start()] rejects with [e], the
    queued errors are not drained and the wait primitive is not called:
    the caller's queue is as it was and nothing is cleared or logged.  The
    [catch] clause treats [e] like any other error, so the run resolves if
    [e] is classified disallowed and rejects with [e] otherwise (teardown
    returning normally). *)
Theorem start_failure_skips_drain_and_wait p env e :
  execApprovalsHandler p = true →
  startResult env = Some e →
  teardownOk env →
  ∃ w,
    runDiscordGatewayLifecycle p env
    = (if isDisallowedIntentsError p e then Resolved else Rejected e, w)
    ∧ pendingGatewayErrors w = queuedGatewayErrors p
    ∧ drainView (trace w) = []
    ∧ count_occ Effect_eq_dec (trace w) ApprovalsStart = 1.
Proof.
  intros Hh Hr Hok.
  destruct (start_failure_after_prologue p env e (prologue p (initialWorld p)) Hh Hr Hok
              (runInv_prologue p) (prologue_saw p _))
    as (w & Hrun & Hpend & Hview & Hcount).
  destruct (prologue_fields p) as [Hp0 Hv0].
  exists w. unfold runDiscordGatewayLifecycle, runFrom. rewrite Hrun.
  split; [by destruct (isDisallowedIntentsError p e)|].
  split; [by rewrite Hpend|].
  split; [by rewrite Hview|].
  by rewrite Hcount, prologue_no_start.
Qed.

Lemma start_failure_skips_drain_and_wait_witness :
  ∃ w,
    runDiscordGatewayLifecycle
      (mkParams "default" None false None (fun _ => false) false false true
         (Some queuedExample) true)
      envStartRejects
    = (Rejected (mkThrown 1 "Error: startup failed"), w)
    ∧ pendingGatewayErrors w = Some queuedExample
    ∧ drainView (trace w) = []
    ∧ count_occ Effect_eq_dec (trace w) ApprovalsStart = 1.
Proof.
  apply (start_failure_skips_drain_and_wait
           (mkParams "default" None false None (fun _ => false) false false true
              (Some queuedExample) true)
           envStartRejects (mkThrown 1 "Error: startup failed")).
  - reflexivity.
  - reflexivity.
  - repeat split.
Defined.

(** ** Failures inside the [finally] clause *)

Lemma teardown_completion p env w :
  fst (teardown p env w)
  = match teardownFailure p env with
    | Some e => Threw e
    | None => Normal tt
    end.
Proof.
  unfold teardown, teardownFailure, call, await.
  destruct (releaseEarlyGatewayErrorGuard p), (releaseResult env),
    (unregisterResult env), (stopLoggingResult env); try reflexivity;
    destruct (voiceManager p), (destroyResult env); try reflexivity;
    destruct (execApprovalsHandler p), (stopResult env); try reflexivity;
    destruct (threadStopResult env); reflexivity.
Qed.

(** X9.  The caller receives the outcome of the [try]/[catch] statement
    only if every teardown hook returns.  When a hook throws, the error of
    the first one that does is what the caller gets, whatever the
    [try]/[catch] statement had produced: a success or another error. *)
Theorem teardown_error_replaces_outcome p env :
  fst (runDiscordGatewayLifecycle p env)
  = match teardownFailure p env with
    | Some e => Rejected e
    | None => settle (fst (lifecycleBody p env (prologue p (initialWorld p))))
    end.
Proof.
  unfold runDiscordGatewayLifecycle, runFrom, tryFinally.
  destruct (lifecycleBody p env (prologue p (initialWorld p))) as [c w1].
  pose proof (teardown_completion p env w1) as H.
  destruct (teardown p env w1) as [[[]| |e] w2]; simpl in H;
    destruct (teardownFailure p env); try discriminate; try done.
  by injection H as ->.
Qed.

Lemma lifeInv_emit e w : lifeInv w → lifeInv (emit e w).
Proof.
  intros [Hinv Hatt]. split; [|done].
  eapply watchInv_sameWatch; [apply sameWatch_emit | done].
Qed.

Lemma quiescent_after_detach w :
  lifeInv w →
  quiescent (removeAbortListener (removeDebugListener (clearHelloWatch w))).
Proof.
  intros [Hinv Hatt].
  pose proof (clearHelloWatch_timers w (inv_held w Hinv)) as Hct.
  destruct (clearHelloWatch_other w) as (_ & Hce & Hcs & _).
  generalize dependent (clearHelloWatch w). intros x Hct Hce Hcs.
  unfold removeAbortListener, removeDebugListener. rewrite Hce.
  destruct (gatewayEmitter w) as [em|] eqn:He; simpl; rewrite Hcs;
    destruct (abortSignal w) as [s|] eqn:Hs; simpl;
    repeat split; simpl; try done;
    try (intros ? [= <-]; simpl; try done; by rewrite (Hatt _ He)).
  all: intros ? Hx; rewrite ?Hce, ?Hcs in Hx; discriminate.
Qed.

Lemma quiescent_emit e w : quiescent w → quiescent (emit e w).
Proof. by intros (? & ? & ?). Qed.

Lemma quiescent_setVoiceManagerRef b w : quiescent w → quiescent (setVoiceManagerRef b w).
Proof. by intros (? & ? & ?). Qed.

Lemma preserves_teardownLate p env : preserves quiescent (teardownLate p env).
Proof.
  assert (Hd : ∀ evs w, quiescent w → quiescent (deliverAll evs w)).
  { intros evs w Hq. by apply (quiescent_deliverAll evs w). }
  unfold teardownLate.
  apply preserves_bind; [|intros _; apply preserves_bind; [|intros _]].
  - destruct (voiceManager p); [|apply preserves_ret].
    apply preserves_bind.
    + apply preserves_await; [apply quiescent_emit | apply Hd].
    + intros _. apply preserves_lift. intros w Hq.
      by apply quiescent_emit, quiescent_setVoiceManagerRef.
  - destruct (execApprovalsHandler p); [|apply preserves_ret].
    apply preserves_await; [apply quiescent_emit | apply Hd].
  - apply preserves_call, quiescent_emit.
Qed.

(** With its first three hooks returning, the [finally] clause is its
    second half run from [detachedWorld]. *)
Lemma teardown_early_ok p env w :
  earlyHooksOk p env →
  teardown p env w = teardownLate p env (detachedWorld p w).
Proof.
  intros (Hrel & Hun & Hlog). unfold teardown, detachedWorld. cbv zeta.
  set (w1 := if releaseEarlyGatewayErrorGuard p
             then emit ReleaseEarlyGatewayErrorGuard w else w).
  assert (H1 : (if releaseEarlyGatewayErrorGuard p
                then call ReleaseEarlyGatewayErrorGuard (releaseResult env)
                else mret tt) w = (Normal tt, w1)).
  { subst w1. destruct (releaseEarlyGatewayErrorGuard p); [|done].
    unfold call. by rewrite (Hrel eq_refl). }
  clearbody w1.
  rewrite (bind_normal _ _ w tt w1 H1).
  rewrite (bind_normal _ _ w1 tt (emit (UnregisterGateway (accountId p)) w1))
    by (unfold call; by rewrite Hun).
  rewrite (bind_normal _ _ _ tt
             (emit StopGatewayLogging (emit (UnregisterGateway (accountId p)) w1)))
    by (unfold call; by rewrite Hlog).
  remember (emit StopGatewayLogging (emit (UnregisterGateway (accountId p)) w1))
    as w2 eqn:E2. clear E2.
  rewrite (bind_normal _ _ w2 tt (clearHelloWatch w2)) by reflexivity.
  rewrite (bind_normal _ _ _ tt (removeDebugListener (clearHelloWatch w2)))
    by reflexivity.
  rewrite (bind_normal _ _ _ tt
             (removeAbortListener (removeDebugListener (clearHelloWatch w2))))
    by reflexivity.
  reflexivity.
Qed.

Lemma quiescent_detachedWorld p w : lifeInv w → quiescent (detachedWorld p w).
Proof.
  intros Hinv. unfold detachedWorld. cbv zeta. apply quiescent_after_detach.
  apply lifeInv_emit, lifeInv_emit.
  destruct (releaseEarlyGatewayErrorGuard p); [by apply lifeInv_emit | done].
Qed.

Lemma teardown_quiescent p env w c w' :
  earlyHooksOk p env →
  lifeInv w →
  teardown p env w = (c, w') →
  quiescent w'.
Proof.
  intros Hearly Hinv. rewrite (teardown_early_ok p env w Hearly). intros Hrest.
  exact (preserves_teardownLate p env _ _ _ (quiescent_detachedWorld p w Hinv) Hrest).
Qed.

(** X10.  If the three hooks the [finally] clause calls first (release,
    unregister, stop logging) return, then the run leaves no timer armed
    and no listener attached, whatever the [try] block did and whether or
    not [voiceManager.destroy()], the approvals handler's [stop()] or
    [threadBindings.stop()] fail.  From then on no debug line, timer,
    connection change, error or abort event has any effect: in particular
    the watchdog cannot reconnect a handle after the run has ended. *)
Theorem ended_run_reacts_to_nothing p env evs :
  earlyHooksOk p env →
  let w := snd (runDiscordGatewayLifecycle p env) in
  quiescent w
  ∧ trace (deliverAll evs w) = trace w
  ∧ quiescent (deliverAll evs w).
Proof.
  intros Hearly. cbv zeta.
  assert (Hq : quiescent (snd (runDiscordGatewayLifecycle p env))).
  { unfold runDiscordGatewayLifecycle, runFrom, tryFinally.
    destruct (lifecycleBody p env (prologue p (initialWorld p))) as [c w1] eqn:Eb.
    pose proof (preserves_lifecycleBody p env _ _ _ (runInv_prologue p) Eb) as [Hinv _].
    destruct (teardown p env w1) as [c2 w2] eqn:Et.
    pose proof (teardown_quiescent p env w1 c2 w2 Hearly Hinv Et) as Hq.
    by destruct c2 as [[]| |e2]. }
  split; [exact Hq|]. by apply quiescent_deliverAll.
Qed.

Lemma ended_run_reacts_to_nothing_witness :
  let w := snd (runDiscordGatewayLifecycle exampleParams envDestroyRejects) in
  let late := [EnvDebug "WebSocket connection opened"; EnvTimer 1; EnvTimer 2; EnvAbort] in
  quiescent w
  ∧ trace (deliverAll late w) = trace w
  ∧ quiescent (deliverAll late w).
Proof.
  apply (ended_run_reacts_to_nothing exampleParams envDestroyRejects).
  repeat split.
Defined.

(** ** The reference to the voice manager *)

Lemma voiceRef_envStep b w w' : envStep w w' → voiceManagerRef w = b → voiceManagerRef w' = b.
Proof. intros [_ _ Hv _ _ _] H. by rewrite Hv. Qed.

Lemma voiceRef_logGatewayError b p err w :
  voiceManagerRef w = b → voiceManagerRef (logGatewayError p err w) = b.
Proof. unfold logGatewayError. by destruct (isDisallowedIntentsError p err). Qed.

Lemma voiceRef_drainQueued b p queued :
  preserves (fun w => voiceManagerRef w = b) (drainQueued p queued).
Proof.
  induction queued as [|err rest IH]; simpl; [apply preserves_ret|].
  apply preserves_bind; [apply preserves_lift, voiceRef_logGatewayError|].
  intros _. destruct (negb _); [exact IH|].
  destruct (isDisallowedIntentsError p err);
    [apply preserves_returnEarly | apply preserves_throw].
Qed.

Lemma voiceRef_waitForStop b p stream :
  preserves (fun w => voiceManagerRef w = b)
    (waitForStop (logGatewayError p) (shouldStopOnGatewayError p) stream).
Proof.
  assert (Hd : ∀ ev w, voiceManagerRef w = b → voiceManagerRef (deliver ev w) = b).
  { intros ev w. apply voiceRef_envStep, envStep_deliver. }
  induction stream as [|ev rest IH]; [apply preserves_ret|].
  destruct ev as [msg|err|id|c| |err]; simpl.
  - apply preserves_bind; [apply preserves_lift, Hd | intros _; exact IH].
  - apply preserves_bind; [apply preserves_lift, (Hd (EnvError err))|].
    intros _. apply preserves_bind; [apply preserves_lift, voiceRef_logGatewayError|].
    intros _. destruct (shouldStopOnGatewayError p err); [apply preserves_throw | exact IH].
  - apply preserves_bind; [apply preserves_lift, Hd | intros _; exact IH].
  - apply preserves_bind; [apply preserves_lift, Hd | intros _; exact IH].
  - apply preserves_lift, (Hd EnvAbort).
  - apply preserves_throw.
Qed.

Lemma voiceRef_deliverAll b evs w :
  voiceManagerRef w = b → voiceManagerRef (deliverAll evs w) = b.
Proof. apply voiceRef_envStep, envStep_deliverAll. Qed.

Lemma voiceRef_lifecycleBody b p env :
  preserves (fun w => voiceManagerRef w = b) (lifecycleBody p env).
Proof.
  apply preserves_tryCatch.
  - unfold lifecycleTry. apply preserves_bind; [|intros _; apply preserves_bind].
    + unfold startExecApprovals. destruct (execApprovalsHandler p); [|apply preserves_ret].
      apply preserves_await; [done | apply voiceRef_deliverAll].
    + unfold drainPendingGatewayErrors. apply preserves_bind; [apply preserves_getWorld|].
      intros w. destruct (0 <? _)%nat; [|apply preserves_ret].
      apply preserves_bind; [by apply preserves_lift|].
      intros _. apply voiceRef_drainQueued.
    + intros _. unfold waitForDiscordGatewayStop.
      apply preserves_bind; [by apply preserves_lift|].
      intros _. apply preserves_bind; [apply preserves_getWorld|].
      intros w. destruct (signalAborted w); [apply preserves_ret|].
      apply voiceRef_waitForStop.
  - intros e. unfold lifecycleCatch. apply preserves_bind; [apply preserves_getWorld|].
    intros w. destruct (_ && _); [apply preserves_throw | apply preserves_ret].
Qed.

Lemma voiceRef_prologue p w : voiceManagerRef (prologue p w) = voiceManagerRef w.
Proof.
  destruct w as [[g|] [em|] [[[] l]|] ? ? ? ? ? ? ? ? ? ?]; reflexivity.
Qed.

Lemma voiceRef_clearHelloWatch w : voiceManagerRef (clearHelloWatch w) = voiceManagerRef w.
Proof.
  destruct w as [? ? ? ? ? ? ? ? [t|] [i|] ? ? ?]; reflexivity.
Qed.

Lemma voiceRef_teardown_kept b p env :
  voiceManager p = false ∨ is_Some (destroyResult env) →
  preserves (fun w => voiceManagerRef w = b) (teardown p env).
Proof.
  intros Hkept. unfold teardown.
  repeat (apply preserves_bind; [|intros _]).
  - destruct (releaseEarlyGatewayErrorGuard p); [by apply preserves_call | apply preserves_ret].
  - by apply preserves_call.
  - by apply preserves_call.
  - apply preserves_lift. intros w. by rewrite voiceRef_clearHelloWatch.
  - apply preserves_lift. intros w. unfold removeDebugListener.
    by destruct (gatewayEmitter w).
  - apply preserves_lift. intros w. unfold removeAbortListener.
    by destruct (abortSignal w).
  - destruct (voiceManager p) eqn:Hv; [|apply preserves_ret].
    destruct Hkept as [?|[e He]]; [done|].
    intros w c w' Hw. rewrite run_bind. unfold await. rewrite He.
    intros [= <- <-]. by apply voiceRef_deliverAll.
  - destruct (execApprovalsHandler p); [|apply preserves_ret].
    apply preserves_await; [done | apply voiceRef_deliverAll].
  - by apply preserves_call.
Qed.

Lemma voiceRef_teardownLate_cleared p env w c w' :
  voiceManager p = true →
  destroyResult env = None →
  teardownLate p env w = (c, w') →
  voiceManagerRef w' = false.
Proof.
  intros Hv Hd. unfold teardownLate. rewrite Hv, Hd.
  rewrite (bind_normal _ _ w tt
             (emit VoiceManagerRefCleared
                (setVoiceManagerRef false
                   (deliverAll (duringDestroy env) (emit VoiceManagerDestroy w)))))
    by reflexivity.
  assert (Hrest : preserves (fun w => voiceManagerRef w = false)
            ((if execApprovalsHandler p
              then await ApprovalsStop (duringStop env) (stopResult env)
              else mret tt) ;;
             call ThreadBindingsStop (threadStopResult env))).
  { apply preserves_bind; [|intros _; by apply preserves_call].
    destruct (execApprovalsHandler p); [|apply preserves_ret].
    apply preserves_await; [done | apply voiceRef_deliverAll]. }
  intros H. eapply Hrest; [|exact H]. reflexivity.
Qed.

(** X11.  [voiceManagerRef.current] is set to [null] only after
    [voiceManager.destroy()] has resolved.  When the first three teardown
    hooks return and [destroy()] resolves, the reference is cleared,
    whatever happens afterwards.  When there is no voice manager, or when
    [destroy()] rejects, the reference still holds what the caller had put
    there. *)
Theorem voice_reference_cleared_only_after_destroy p env :
  let w := snd (runDiscordGatewayLifecycle p env) in
  (earlyHooksOk p env → voiceManager p = true → destroyResult env = None →
   voiceManagerRef w = false)
  ∧ (voiceManager p = false ∨ is_Some (destroyResult env) →
     voiceManagerRef w = voiceManagerRefCurrent p).
Proof.
  cbv zeta. unfold runDiscordGatewayLifecycle, runFrom, tryFinally.
  destruct (lifecycleBody p env (prologue p (initialWorld p))) as [c w1] eqn:Eb.
  assert (H1 : voiceManagerRef w1 = voiceManagerRefCurrent p).
  { apply (voiceRef_lifecycleBody _ p env _ _ _ (voiceRef_prologue p (initialWorld p)) Eb). }
  destruct (teardown p env w1) as [c2 w2] eqn:Et.
  assert (Hsnd : snd (let '(c0, w') := match c2 with
                                       | Normal _ => (c, w2)
                                       | Returned => (Returned, w2)
                                       | Threw e => (Threw e, w2)
                                       end in (settle c0, w')) = w2)
    by (by destruct c2 as [[]| |e2]).
  rewrite Hsnd. split.
  - intros Hearly Hv Hd. rewrite (teardown_early_ok p env w1 Hearly) in Et.
    exact (voiceRef_teardownLate_cleared p env _ _ _ Hv Hd Et).
  - intros Hkept. exact (voiceRef_teardown_kept _ p env Hkept _ _ _ H1 Et).
Qed.

Lemma voice_reference_cleared_only_after_destroy_witness :
  voiceManagerRef (snd (runDiscordGatewayLifecycle exampleParams quietEnv)) = false
  ∧ voiceManagerRef (snd (runDiscordGatewayLifecycle exampleParams envDestroyRejects))
    = true.
Proof.
  split.
  - apply (voice_reference_cleared_only_after_destroy exampleParams quietEnv).
    + repeat split.
    + reflexivity.
    + reflexivity.
  - apply (voice_reference_cleared_only_after_destroy exampleParams envDestroyRejects).
    right. eexists. reflexivity.
Defined.

(** ** A run with nothing queued *)

Lemma cleared_emit e w :
  e ≠ PendingErrorsCleared →
  count_occ Effect_eq_dec (trace (emit e w)) PendingErrorsCleared
  = count_occ Effect_eq_dec (trace w) PendingErrorsCleared.
Proof.
  intros He. rewrite trace_emit, count_occ_app. simpl.
  destruct (Effect_eq_dec e PendingErrorsCleared); [done | lia].
Qed.

Lemma cleared_envStep w w' :
  envStep w w' →
  count_occ Effect_eq_dec (trace w') PendingErrorsCleared
  = count_occ Effect_eq_dec (trace w) PendingErrorsCleared.
Proof.
  intros [_ _ _ _ _ (ext & Htr & Hw)]. rewrite Htr, count_occ_app.
  assert (H : count_occ Effect_eq_dec ext PendingErrorsCleared = 0).
  { apply count_occ_not_In. intros Hin. rewrite forallb_forall in Hw.
    by specialize (Hw _ Hin). }
  lia.
Qed.

Lemma cleared_logGatewayError p err w :
  count_occ Effect_eq_dec (trace (logGatewayError p err w)) PendingErrorsCleared
  = count_occ Effect_eq_dec (trace w) PendingErrorsCleared.
Proof. rewrite logGatewayError_trace, count_occ_app. simpl. lia. Qed.

Lemma cleared_waitForStop n p stream :
  preserves (fun w => count_occ Effect_eq_dec (trace w) PendingErrorsCleared = n)
    (waitForStop (logGatewayError p) (shouldStopOnGatewayError p) stream).
Proof.
  assert (Hd : ∀ ev w,
             count_occ Effect_eq_dec (trace w) PendingErrorsCleared = n →
             count_occ Effect_eq_dec (trace (deliver ev w)) PendingErrorsCleared = n).
  { intros ev w <-. apply cleared_envStep, envStep_deliver. }
  assert (Hl : ∀ err w,
             count_occ Effect_eq_dec (trace w) PendingErrorsCleared = n →
             count_occ Effect_eq_dec (trace (logGatewayError p err w))
               PendingErrorsCleared = n).
  { intros err w <-. apply cleared_logGatewayError. }
  induction stream as [|ev rest IH]; [apply preserves_ret|].
  destruct ev as [msg|err|id|c| |err]; simpl.
  - apply preserves_bind; [apply preserves_lift, Hd | intros _; exact IH].
  - apply preserves_bind; [apply preserves_lift, (Hd (EnvError err))|].
    intros _. apply preserves_bind; [apply preserves_lift, Hl|].
    intros _. destruct (shouldStopOnGatewayError p err); [apply preserves_throw | exact IH].
  - apply preserves_bind; [apply preserves_lift, Hd | intros _; exact IH].
  - apply preserves_bind; [apply preserves_lift, Hd | intros _; exact IH].
  - apply preserves_lift, (Hd EnvAbort).
  - apply preserves_throw.
Qed.

Lemma cleared_wait n p stream :
  preserves (fun w => count_occ Effect_eq_dec (trace w) PendingErrorsCleared = n)
    (waitForDiscordGatewayStop (logGatewayError p) (shouldStopOnGatewayError p) stream).
Proof.
  unfold waitForDiscordGatewayStop.
  apply preserves_bind; [apply preserves_lift; intros w <-; by apply cleared_emit|].
  intros _. apply preserves_bind; [apply preserves_getWorld|].
  intros w. destruct (signalAborted w); [apply preserves_ret|].
  apply cleared_waitForStop.
Qed.

Lemma teardownEffects_no_clear p w :
  count_occ Effect_eq_dec (teardownEffects p w) PendingErrorsCleared = 0.
Proof.
  unfold teardownEffects. rewrite !count_occ_app.
  destruct (releaseEarlyGatewayErrorGuard p), (helloTimeoutId w),
    (helloConnectedPollId w), (gatewayEmitter w), (abortSignal w),
    (voiceManager p), (execApprovalsHandler p); reflexivity.
Qed.

Lemma prologue_no_clear p :
  count_occ Effect_eq_dec (trace (prologue p (initialWorld p))) PendingErrorsCleared = 0.
Proof.
  apply count_occ_not_In.
  unfold prologue, initialWorld, onAbort, addAbortListener, addDebugListener,
    signalAborted, gatewayDisconnect. simpl.
  destruct (clientGateway p), (emitterPresent p), (signal p) as [[|]|]; simpl;
    intuition discriminate.
Qed.

Lemma nothing_queued_after_prologue p env w0 :
  default [] (pendingGatewayErrors w0) = [] →
  execApprovalsHandler p = false ∨ startResult env = None →
  teardownOk env →
  runInv p w0 →
  ∃ c w rest,
    tryFinally (lifecycleBody p env) (teardown p env) w0 = (c, w)
    ∧ pendingGatewayErrors w = pendingGatewayErrors w0
    ∧ drainView (trace w) = drainView (trace w0) ++ WaitForGatewayStop :: rest
    ∧ count_occ Effect_eq_dec (trace w) PendingErrorsCleared
      = count_occ Effect_eq_dec (trace w0) PendingErrorsCleared.
Proof.
  intros Hempty Hstart Hok Hinv0. unfold tryFinally.
  destruct (lifecycleBody p env w0) as [c w1] eqn:Eb.
  pose proof (preserves_lifecycleBody p env _ _ _ Hinv0 Eb) as [Hlife _].
  destruct (teardownWorld_trace p env w1 Hlife) as [Htr _].
  rewrite (teardown_returns p env w1 Hok).
  exists c, (teardownWorld p env w1).
  destruct (startExecApprovals_fields p env w0 Hstart) as (wa & Hrun & Hpa & _ & Hva).
  assert (Hca : count_occ Effect_eq_dec (trace wa) PendingErrorsCleared
                = count_occ Effect_eq_dec (trace w0) PendingErrorsCleared).
  { revert Hrun. unfold startExecApprovals, await.
    destruct (execApprovalsHandler p); [|by intros [= <-]].
    destruct (startResult env); intros [= <-].
    rewrite (cleared_envStep _ _ (envStep_deliverAll _ _)). by apply cleared_emit. }
  assert (Hdrain : drainPendingGatewayErrors p wa = (Normal tt, wa)).
  { unfold drainPendingGatewayErrors. rewrite run_bind. unfold getWorld.
    by rewrite Hpa, Hempty. }
  revert Eb. unfold lifecycleBody, tryCatch, lifecycleTry.
  rewrite (bind_normal _ _ w0 tt wa Hrun), (bind_normal _ _ wa tt wa Hdrain).
  destruct (waitForDiscordGatewayStop _ _ _ wa) as [cw wc] eqn:Ew.
  destruct (grows_waitForDiscordGatewayStop p _ _ _ _ Ew) as [(ext & Hext) Hpc].
  pose proof (cleared_wait _ p _ _ _ _ eq_refl Ew) as Hcc.
  intros Eb.
  assert (Hw1 : w1 = wc).
  { destruct cw as [[]| |e]; try (by injection Eb as _ <-).
    revert Eb. unfold lifecycleCatch. rewrite run_bind. unfold getWorld.
    destruct (_ && _); by intros [= _ <-]. }
  subst w1.
  exists (drainView ext).
  split; [done|]. split; [|split].
  - by rewrite teardownWorld_pending, Hpc, Hpa.
  - rewrite Htr, drainView_app, drainView_teardownEffects, Hext.
    rewrite drainView_app, Hva. simpl. by rewrite app_nil_r.
  - rewrite Htr, count_occ_app, teardownEffects_no_clear, Hcc, Hca. lia.
Qed.

(** X12.  With nothing queued ([pendingGatewayErrors] absent or empty), and
    the start hook and the teardown returning normally, the lifecycle goes
    straight to the wait primitive: nothing is logged before it is called,
    the caller's queue is never cleared and is left as it was found (an
    absent one stays absent). *)
Theorem nothing_queued_goes_straight_to_wait p env :
  queuedGatewayErrors p = None ∨ queuedGatewayErrors p = Some [] →
  execApprovalsHandler p = false ∨ startResult env = None →
  teardownOk env →
  ∃ outcome w rest,
    runDiscordGatewayLifecycle p env = (outcome, w)
    ∧ pendingGatewayErrors w = queuedGatewayErrors p
    ∧ drainView (trace w) = WaitForGatewayStop :: rest
    ∧ count_occ Effect_eq_dec (trace w) PendingErrorsCleared = 0.
Proof.
  intros Hq Hstart Hok.
  destruct (prologue_fields p) as [Hp0 Hv0].
  destruct (nothing_queued_after_prologue p env (prologue p (initialWorld p)))
    as (c & w & rest & Hrun & Hpend & Hview & Hcount); try done.
  { rewrite Hp0. by destruct Hq as [-> | ->]. }
  { apply runInv_prologue. }
  exists (settle c), w, rest.
  unfold runDiscordGatewayLifecycle, runFrom. rewrite Hrun.
  split; [done|]. split; [by rewrite Hpend|].
  split; [by rewrite Hview, Hv0|].
  by rewrite Hcount, prologue_no_clear.
Qed.

Lemma nothing_queued_goes_straight_to_wait_witness :
  ∃ outcome w rest,
    runDiscordGatewayLifecycle exampleParams envWaitFatal = (outcome, w)
    ∧ pendingGatewayErrors w = None
    ∧ drainView (trace w) = WaitForGatewayStop :: rest
    ∧ count_occ Effect_eq_dec (trace w) PendingErrorsCleared = 0.
Proof.
  apply (nothing_queued_goes_straight_to_wait exampleParams envWaitFatal).
  - left. reflexivity.
  - right. reflexivity.
  - repeat split.
Defined.

(** ** The abort handler *)

(** X13.  When the abort listener runs on a run that has a handle, it
    first installs a one-shot no-op ["error"] listener on the emitter (if
    there is one), then sets [reconnect.maxAttempts] to 0, then calls
    [disconnect()], in that order; the debug listener stays attached.  On a
    run without a handle it does nothing at all: no error listener is
    installed either. *)
Theorem abort_silences_errors_before_disconnect w s :
  abortSignal w = Some s →
  abortListeners s = [OnAbort true] →
  let w' := deliver EnvAbort w in
  (∀ g, gateway w = Some g →
     trace w'
     = trace w
         ++ match gatewayEmitter w with Some _ => [EmitterOnceError] | None => [] end
         ++ [WriteReconnect 0; GatewayDisconnect]
     ∧ gatewayEmitter w'
       = (λ em, mkEmitter (debugListeners em) (S (errorOnceListeners em)))
           <$> gatewayEmitter w)
  ∧ (gateway w = None →
     trace w' = trace w ∧ gatewayEmitter w' = gatewayEmitter w ∧ gateway w' = None).
Proof.
  intros Hs Hl. cbv zeta. unfold deliver, dispatchAbort. rewrite Hs, Hl.
  cbn [fold_left List.filter listenerOnce negb]. unfold onAbort.
  cbn [gateway setAbortSignal gatewayEmitter].
  split.
  - intros g Hg. rewrite Hg. unfold gatewayDisconnect.
    destruct (gatewayEmitter w) as [em|] eqn:He; simpl; rewrite <- ?app_assoc; done.
  - intros Hg. rewrite Hg. done.
Qed.

Lemma abort_silences_errors_before_disconnect_witness :
  let w := attachedWorld in
  let w' := deliver EnvAbort w in
  trace w' = trace w ++ [EmitterOnceError; WriteReconnect 0; GatewayDisconnect]
  ∧ gatewayEmitter w' = Some (mkEmitter [OnGatewayDebug] 1).
Proof.
  cbv zeta.
  destruct (abort_silences_errors_before_disconnect attachedWorld
              (mkAbortSignal false [OnAbort true])) as [H _].
  - reflexivity.
  - reflexivity.
  - exact (H exampleGateway eq_refl).
Defined.

(** * Properties of the dispatcher *)

Module DispatcherFacts.
Import Dispatcher.

Lemma seq_snoc start len : seq start len ++ [start + len] = seq start (S len).
Proof. by rewrite seq_S. Qed.

Lemma ordered_nil : ordered [].
Proof. intros l1 o l2 H. by destruct l1. Qed.

Lemma ordered_snoc l o : ordered l → admissible l o → ordered (l ++ [o]).
Proof.
  intros Hl Ho l1 x l2 Heq.
  destruct l2 as [|y l2 _] using rev_ind.
  - apply app_inj_tail in Heq as [-> ->]. exact Ho.
  - rewrite app_comm_cons, app_assoc in Heq.
    apply app_inj_tail in Heq as [-> _]. by apply (Hl l1 x l2).
Qed.

Lemma inv_inv0 st : inv st → inv0 st.
Proof.
  intros [H1 H2 H3 H4 H5 H6 H7]. split; try done. by destruct (running st).
Qed.

Lemma inv_init : inv init.
Proof. split; simpl; try done. apply ordered_nil. Qed.

Lemma inv_beginNext st : inv0 st → inv (beginNext st).
Proof.
  intros [H1 H2 H3 H4 H5 H6 H7]. unfold beginNext.
  destruct (running st) as [r|] eqn:Er.
  { split; rewrite ?Er; done. }
  destruct (queued st) as [|id rest] eqn:Eq.
  { split; rewrite ?Er, ?Eq; done. }
  set (b := length (begunIds (log st))) in *.
  destruct (nextId st - b) as [|k] eqn:Ek; [done|].
  simpl in H5. injection H5 as -> ->.
  rewrite Nat.sub_0_r in H2.
  assert (Hb : begunIds (log st ++ [BodyBegan b]) = seq 0 (S b)).
  { rewrite <- (seq_snoc 0 b). unfold begunIds. rewrite omap_app.
    fold (begunIds (log st)). by rewrite H3. }
  assert (Hlen : length (begunIds (log st ++ [BodyBegan b])) = S b)
    by (by rewrite Hb, length_seq).
  split; simpl; rewrite ?Hlen.
  - unfold handledIds. rewrite omap_app. simpl. by rewrite app_nil_r.
  - unfold settledIds. rewrite omap_app. simpl.
    rewrite app_nil_r, Nat.sub_0_r. exact H2.
  - exact Hb.
  - done.
  - f_equal. lia.
  - lia.
  - apply ordered_snoc; [done|]. simpl. repeat split; try done.
    rewrite H1, length_seq. lia.
Qed.

Lemma inv_step st i : inv st → inv (step st i).
Proof.
  intros Hinv. pose proof (inv_inv0 st Hinv) as [H1 H2 H3 H4 H5 H6 H7].
  destruct i as [|ok]; simpl.
  - apply inv_beginNext. split; cbn [nextId running queued log].
    + rewrite <- (seq_snoc 0 (nextId st)). unfold handledIds. rewrite omap_app.
      fold (handledIds (log st)). by rewrite H1.
    + unfold settledIds, begunIds. rewrite !omap_app. simpl. rewrite !app_nil_r.
      exact H2.
    + unfold begunIds. rewrite !omap_app. simpl. rewrite !app_nil_r. exact H3.
    + unfold begunIds. rewrite !omap_app. simpl. rewrite !app_nil_r. exact H4.
    + unfold begunIds. rewrite !omap_app. simpl. rewrite !app_nil_r.
      fold (begunIds (log st)). rewrite H5.
      set (b := length (begunIds (log st))) in *.
      replace (S (nextId st) - b) with (S (nextId st - b)) by lia.
      rewrite <- seq_snoc. do 2 f_equal. lia.
    + unfold begunIds. rewrite !omap_app. simpl. rewrite !app_nil_r.
      fold (begunIds (log st)). lia.
    + apply ordered_snoc; [done|]. exact H1.
  - destruct (running st) as [id|] eqn:Er; [|done].
    set (b := length (begunIds (log st))) in *.
    assert (Hid : b = S id) by done.
    rewrite Hid in H2. simpl in H2. rewrite Nat.sub_0_r in H2.
    apply inv_beginNext. split; cbn [nextId running queued log].
    + unfold handledIds. rewrite omap_app. fold (handledIds (log st)).
      rewrite H1. destruct ok; simpl; by rewrite app_nil_r.
    + unfold settledIds, begunIds. rewrite !omap_app.
      fold (settledIds (log st)) (begunIds (log st)). rewrite H2.
      assert (Hm : omap (fun o => match o with BodyBegan id0 => Some id0 | _ => None end)
                     (BodySettled id ok :: (if ok then [] else [ErrorLogged id])) = [])
        by (by destruct ok).
      rewrite Hm, app_nil_r. fold b. rewrite Hid, Nat.sub_0_r.
      rewrite <- (seq_snoc 0 id). by destruct ok.
    + unfold begunIds. rewrite !omap_app. fold (begunIds (log st)).
      assert (Hm : omap (fun o => match o with BodyBegan id0 => Some id0 | _ => None end)
                     (BodySettled id ok :: (if ok then [] else [ErrorLogged id])) = [])
        by (by destruct ok).
      rewrite Hm, app_nil_r. exact H3.
    + done.
    + unfold begunIds. rewrite !omap_app. fold (begunIds (log st)).
      assert (Hm : omap (fun o => match o with BodyBegan id0 => Some id0 | _ => None end)
                     (BodySettled id ok :: (if ok then [] else [ErrorLogged id])) = [])
        by (by destruct ok).
      rewrite Hm, app_nil_r. exact H5.
    + unfold begunIds. rewrite !omap_app. fold (begunIds (log st)).
      assert (Hm : omap (fun o => match o with BodyBegan id0 => Some id0 | _ => None end)
                     (BodySettled id ok :: (if ok then [] else [ErrorLogged id])) = [])
        by (by destruct ok).
      rewrite Hm, app_nil_r. exact H6.
    + assert (Hs : ordered (log st ++ [BodySettled id ok])).
      { apply ordered_snoc; [done|]. simpl. split; [|done].
        rewrite H3. fold b. by rewrite Hid. }
      destruct ok; [exact Hs|].
      change (log st ++ [BodySettled id false; ErrorLogged id])
        with (log st ++ [BodySettled id false] ++ [ErrorLogged id]).
      rewrite app_assoc. by apply ordered_snoc.
Qed.

Lemma inv_run inputs : inv (run inputs).
Proof.
  unfold run. assert (H : inv init) by apply inv_init.
  revert H. generalize init. induction inputs as [|i inputs IH]; intros st H; simpl; [done|].
  apply IH. by apply inv_step.
Qed.

Lemma ordered_prefix l1 l2 : ordered (l1 ++ l2) → ordered l1.
Proof.
  intros H k1 o k2 ->. apply (H k1 o (k2 ++ l2)). by rewrite <- app_assoc.
Qed.

(** In an ordered log, at every point, the bodies settled so far are the
    bodies begun so far, but for at most one. *)
Lemma ordered_balance l :
  ordered l →
  begunIds l = seq 0 (length (begunIds l))
  ∧ settledIds l = seq 0 (length (settledIds l))
  ∧ (length (settledIds l) ≤ length (begunIds l))%nat
  ∧ (length (begunIds l) ≤ S (length (settledIds l)))%nat.
Proof.
  induction l as [|o l IH] using rev_ind; intros Hord;
    [repeat split; simpl; try done; lia|].
  destruct (IH (ordered_prefix _ _ Hord)) as (Hb & Hs & H1 & H2).
  pose proof (Hord l o [] eq_refl) as Ho.
  unfold begunIds, settledIds in *. rewrite !omap_app.
  destruct o as [id|id|id ok|id]; simpl in *; rewrite ?app_nil_r; try done.
  - destruct Ho as (_ & Hb' & Hs'). fold (begunIds l) (settledIds l) in *.
    rewrite Hb', Hs', !length_app, !length_seq. simpl.
    rewrite Nat.add_1_r, <- (seq_snoc 0 id). repeat split; try done; lia.
  - destruct Ho as (Hb' & Hs'). fold (begunIds l) (settledIds l) in *.
    change (0 :: seq 1 id) with (seq 0 (S id)) in Hb'.
    rewrite Hb', Hs', !length_app, !length_seq. cbn [length].
    rewrite Nat.add_1_r, <- (seq_snoc 0 id). repeat split; try done; lia.
Qed.

Lemma ordered_handled l : ordered l → handledIds l = seq 0 (length (handledIds l)).
Proof.
  induction l as [|o l IH] using rev_ind; intros Hord; [done|].
  specialize (IH (ordered_prefix _ _ Hord)).
  pose proof (Hord l o [] eq_refl) as Ho.
  unfold handledIds in *. rewrite omap_app.
  destruct o as [id|id|id ok|id]; simpl; rewrite ?app_nil_r; try done.
  simpl in Ho. fold (handledIds l) in *.
  rewrite Ho, length_app, length_seq. cbn [length].
  by rewrite Nat.add_1_r, <- (seq_snoc 0 id).
Qed.

Lemma settledIds_elem a l : a ∈ settledIds l → ∃ ok, BodySettled a ok ∈ l.
Proof.
  unfold settledIds. rewrite list_elem_of_omap. intros (o & Hin & Ho).
  destruct o; try discriminate. injection Ho as ->. eauto.
Qed.

Lemma begunIds_elem a l : a ∈ begunIds l → BodyBegan a ∈ l.
Proof.
  unfold begunIds. rewrite list_elem_of_omap. intros (o & Hin & Ho).
  destruct o; try discriminate. by injection Ho as ->.
Qed.

Lemma handledIds_elem a l : a ∈ handledIds l → HandleReturned a ∈ l.
Proof.
  unfold handledIds. rewrite list_elem_of_omap. intros (o & Hin & Ho).
  destruct o; try discriminate. by injection Ho as ->.
Qed.

Lemma elem_of_seq_0 a n : a < n → a ∈ seq 0 n.
Proof. intros H. apply list_elem_of_In, in_seq. lia. Qed.

(** C9.  Whatever the event source and the handler bodies do:
    - a call of [handle] returns at once: it records its own return and, if
      the chain is idle, the start of its own body, and waits for no body
      to settle;
    - when the body of event [b] begins, [handle] has returned for [b],
      every event enqueued before [b] has had its body begun and settled,
      and no body is executing;
    - a body that settles had begun, and its [handle] call had returned;
    - at every moment at most one body has begun and not yet settled. *)
Theorem handler_bodies_run_in_enqueue_order inputs :
  let l := log (run inputs) in
  (∀ st, ∃ more,
      log (step st Handle) = log st ++ HandleReturned (nextId st) :: more
      ∧ settledIds more = [])
  ∧ (∀ l1 b l2, l = l1 ++ BodyBegan b :: l2 →
       HandleReturned b ∈ l1
       ∧ (∀ a, a < b → BodyBegan a ∈ l1 ∧ ∃ ok, BodySettled a ok ∈ l1)
       ∧ length (begunIds l1) = length (settledIds l1))
  ∧ (∀ l1 c ok l2, l = l1 ++ BodySettled c ok :: l2 →
       BodyBegan c ∈ l1 ∧ HandleReturned c ∈ l1)
  ∧ (∀ l1 l2, l = l1 ++ l2 →
       (length (settledIds l1) ≤ length (begunIds l1))%nat
       ∧ (length (begunIds l1) ≤ S (length (settledIds l1)))%nat).
Proof.
  cbv zeta. pose proof (inv_ordered _ (inv_run inputs)) as Hord.
  split; [|split; [|split]].
  - intros st. unfold step, beginNext. simpl.
    destruct (running st); [by exists []|].
    destruct (queued st ++ [nextId st]) as [|id rest]; [by exists []|].
    exists [BodyBegan id]. simpl. by rewrite <- app_assoc.
  - intros l1 b l2 Heq. destruct (Hord l1 _ l2 Heq) as (Hh & Hb & Hs).
    assert (Hpre : ordered l1).
    { apply (ordered_prefix l1 (BodyBegan b :: l2)). by rewrite <- Heq. }
    split; [|split].
    + apply handledIds_elem. rewrite (ordered_handled l1 Hpre).
      by apply elem_of_seq_0.
    + intros a Ha. split.
      * apply begunIds_elem. rewrite Hb. by apply elem_of_seq_0.
      * apply settledIds_elem. rewrite Hs. by apply elem_of_seq_0.
    + by rewrite Hb, Hs.
  - intros l1 c ok l2 Heq. destruct (Hord l1 _ l2 Heq) as (Hb & Hs).
    assert (Hc : BodyBegan c ∈ l1).
    { apply begunIds_elem. rewrite Hb. apply elem_of_seq_0. lia. }
    split; [exact Hc|].
    apply list_elem_of_split in Hc as (k1 & k2 & ->).
    rewrite <- app_assoc in Heq. simpl in Heq.
    destruct (Hord k1 _ _ Heq) as (Hlt & _ & _).
    assert (Hk : ordered k1).
    { apply (ordered_prefix k1 (BodyBegan c :: k2 ++ BodySettled c ok :: l2)).
      by rewrite <- Heq. }
    apply elem_of_app. left. apply handledIds_elem.
    rewrite (ordered_handled k1 Hk). by apply elem_of_seq_0.
  - intros l1 l2 Heq. rewrite Heq in Hord.
    destruct (ordered_balance l1 (ordered_prefix _ _ Hord)) as (_ & _ & H1 & H2).
    by split.
Qed.

(** The repository's test "serializes queued handler runs while handle
    returns immediately": two events arrive while the first body is slow. *)
Example two_events_then_first_settles :
  log (run [Handle; Handle])
  = [HandleReturned 0; BodyBegan 0; HandleReturned 1]
  ∧ log (run [Handle; Handle; Settle true])
    = [HandleReturned 0; BodyBegan 0; HandleReturned 1;
       BodySettled 0 true; BodyBegan 1].
Proof. split; reflexivity. Qed.

(** A body that throws is logged and the next one still runs. *)
Example failing_handler_is_logged :
  log (run [Handle; Handle; Settle false; Settle true])
  = [HandleReturned 0; BodyBegan 0; HandleReturned 1;
     BodySettled 0 false; ErrorLogged 0; BodyBegan 1; BodySettled 1 true].
Proof. reflexivity. Qed.

End DispatcherFacts.

(** * Properties of the bootstrap files of a run *)

Module BootstrapFacts.
Import Bootstrap.

(** ** [trim] *)

Lemma trimStart_nil_iff s : trimStart s = [] ↔ forallb isWhiteSpace s = true.
Proof.
  induction s as [|c s IH]; simpl; [done|].
  destruct (isWhiteSpace c); simpl; [exact IH|]. split; discriminate.
Qed.

Lemma trimStart_head s c t : trimStart s = c :: t → isWhiteSpace c = false.
Proof.
  induction s as [|d s IH]; simpl; [discriminate|].
  destruct (isWhiteSpace d) eqn:Hd; [exact IH|]. by intros [= <- <-].
Qed.

Lemma trimStart_fixed c t : isWhiteSpace c = false → trimStart (c :: t) = c :: t.
Proof. intros H. simpl. by rewrite H. Qed.

(** [trimStart] drops a prefix of white space. *)
Lemma trimStart_split s :
  ∃ pre, s = pre ++ trimStart s ∧ forallb isWhiteSpace pre = true.
Proof.
  induction s as [|c s (pre & Hs & Hp)]; [by exists []|]. simpl.
  destruct (isWhiteSpace c) eqn:Hc.
  - exists (c :: pre). simpl. rewrite Hc, Hp. split; [by rewrite <- Hs | done].
  - by exists [].
Qed.

Lemma forallb_rev {A} (f : A → bool) l : forallb f (rev l) = forallb f l.
Proof.
  induction l as [|x l IH]; [done|]. simpl.
  rewrite forallb_app, IH. simpl. rewrite andb_true_r. apply andb_comm.
Qed.

Lemma last_rev {A} (l : list A) : last (rev l) = head l.
Proof. destruct l as [|x l]; [done|]. simpl. apply last_snoc. Qed.

Lemma head_rev {A} (l : list A) : head (rev l) = last l.
Proof. by rewrite <- (last_rev (rev l)), rev_involutive. Qed.

Lemma trim_nil_iff s : trim s = [] ↔ forallb isWhiteSpace s = true.
Proof.
  unfold trim, trimEnd. split.
  - intros H. apply (f_equal (@rev N)) in H. rewrite rev_involutive in H. simpl in H.
    apply trimStart_nil_iff in H. rewrite forallb_rev in H.
    apply trimStart_nil_iff.
    destruct (trimStart s) as [|c t] eqn:E; [done|].
    apply trimStart_head in E. simpl in H. by rewrite E in H.
  - intros H. apply trimStart_nil_iff in H. by rewrite H.
Qed.

(** A non-empty result of [trim] starts and ends with a code unit that is
    not white space. *)
Lemma trim_ends s :
  (∀ c, head (trim s) = Some c → isWhiteSpace c = false)
  ∧ (∀ c, last (trim s) = Some c → isWhiteSpace c = false).
Proof.
  unfold trim, trimEnd.
  destruct (trimStart_split (rev (trimStart s))) as (pre & Hs & Hp).
  set (u := trimStart s) in *. set (v := trimStart (rev u)) in *.
  assert (Hu : u = rev v ++ rev pre).
  { rewrite <- (rev_involutive u), Hs, rev_app_distr. done. }
  split; intros c Hc.
  - destruct (rev v) as [|d t] eqn:Ev; [discriminate|]. simpl in Hc.
    injection Hc as ->. rewrite Hu in *. simpl in *.
    by apply (trimStart_head s c (t ++ rev pre)).
  - rewrite last_rev in Hc.
    destruct v as [|d t] eqn:Ev; [discriminate|]. simpl in Hc. injection Hc as ->.
    by apply (trimStart_head (rev u) c t).
Qed.

Lemma trimStart_of_head s :
  (∀ c, head s = Some c → isWhiteSpace c = false) → trimStart s = s.
Proof.
  destruct s as [|c t]; [done|]. intros H. apply trimStart_fixed. by apply H.
Qed.

(** A string that neither starts nor ends with white space is left alone. *)
Lemma trim_fixed s :
  (∀ c, head s = Some c → isWhiteSpace c = false) →
  (∀ c, last s = Some c → isWhiteSpace c = false) →
  trim s = s.
Proof.
  intros Hh Hl. unfold trim, trimEnd. rewrite (trimStart_of_head s Hh).
  rewrite (trimStart_of_head (rev s)); [apply rev_involutive|].
  intros c. rewrite head_rev. apply Hl.
Qed.

Lemma trim_idempotent s : trim (trim s) = trim s.
Proof. destruct (trim_ends s) as [Hh Hl]. by apply trim_fixed. Qed.


Section Facts.

Context {Extra Config Limit ContextFile Sink : Type}.

(** ** [sanitizeBootstrapFiles] *)

Lemma pathValue_nil_iff (file : WorkspaceBootstrapFile Extra) :
  pathValue file = [] ↔ usablePath (path file) = false.
Proof.
  unfold pathValue, usablePath. destruct (path file) as [p|]; [|done].
  rewrite trim_nil_iff. by destruct (forallb isWhiteSpace p).
Qed.

Lemma sanitize_from (warn : option (Warn Sink)) (files : list (WorkspaceBootstrapFile Extra)) acc sink :
  fold_left (sanitizeStep warn) files (acc, sink)
  = (acc ++ map withTrimmedPath (List.filter (fun f => usablePath (path f)) files),
     fold_left (fun s f => callWarn warn (skipMessage (name f)) s)
       (List.filter (fun f => negb (usablePath (path f))) files) sink).
Proof.
  revert acc sink. induction files as [|file files IH]; intros acc sink.
  { simpl. by rewrite app_nil_r. }
  assert (Hstep : sanitizeStep warn (acc, sink) file
                  = if usablePath (path file)
                    then (acc ++ [withTrimmedPath file], sink)
                    else (acc, callWarn warn (skipMessage (name file)) sink)).
  { unfold sanitizeStep. pose proof (pathValue_nil_iff file) as [H1 H2].
    destruct (pathValue file) as [|c q] eqn:Ep.
    - by rewrite (H1 eq_refl).
    - destruct (usablePath (path file)); [|by specialize (H2 eq_refl)].
      unfold withTrimmedPath. by rewrite Ep. }
  cbn [fold_left]. rewrite Hstep.
  destruct (usablePath (path file)) eqn:Hu; rewrite IH; simpl; rewrite Hu; simpl;
    by rewrite <- ?app_assoc.
Qed.

Lemma sanitize_eq
    (files : list (WorkspaceBootstrapFile Extra)) (warn : option (Warn Sink)) (sink : Sink) :
  sanitizeBootstrapFiles files warn sink
  = (map withTrimmedPath (List.filter (fun f => usablePath (path f)) files),
     fold_left (fun s f => callWarn warn (skipMessage (name f)) s)
       (List.filter (fun f => negb (usablePath (path f))) files) sink).
Proof. unfold sanitizeBootstrapFiles. by rewrite sanitize_from. Qed.

(** X14.  [sanitizeBootstrapFiles] returns, in their order, the files whose
    [path] is a string with something other than white space in it, each
    with its path trimmed and its other fields as they were; and it calls
    [warn] once for every other file, in order, naming that file. *)
Theorem sanitize_keeps_usable_and_warns_for_the_rest
    (files : list (WorkspaceBootstrapFile Extra)) (warn : option (Warn Sink)) (sink : Sink) :
  sanitizeBootstrapFiles files warn sink
  = (map withTrimmedPath (List.filter (fun f => usablePath (path f)) files),
     fold_left (fun s f => callWarn warn (skipMessage (name f)) s)
       (List.filter (fun f => negb (usablePath (path f))) files) sink).
Proof.
  unfold sanitizeBootstrapFiles. rewrite sanitize_from.
  reflexivity.
Qed.

Lemma withTrimmedPath_trimmed (file : WorkspaceBootstrapFile Extra) :
  usablePath (path file) = true → trimmedPath (path (withTrimmedPath file)).
Proof.
  intros Hu. exists (pathValue file). split; [done|]. split.
  - intros Hnil. apply pathValue_nil_iff in Hnil. congruence.
  - unfold pathValue. destruct (path file) as [p|]; [apply trim_ends | done].
Qed.

Lemma sanitize_all_trimmed
    (files : list (WorkspaceBootstrapFile Extra)) (warn : option (Warn Sink)) (sink : Sink) :
  Forall (fun f => trimmedPath (path f)) (fst (sanitizeBootstrapFiles files warn sink)).
Proof.
  rewrite sanitize_eq. simpl.
  apply Forall_forall. intros f Hin. apply list_elem_of_fmap in Hin as (g & -> & Hg).
  apply list_elem_of_In, filter_In in Hg as [_ Hu].
  by apply withTrimmedPath_trimmed.
Qed.

(** X15.  Every file [sanitizeBootstrapFiles] returns has a string for a
    path, not empty, that neither starts nor ends with white space,
    whatever the input files look like. *)
Theorem sanitized_paths_are_trimmed
    (files : list (WorkspaceBootstrapFile Extra)) (warn : option (Warn Sink)) (sink : Sink) :
  Forall (fun f => trimmedPath (path f)) (fst (sanitizeBootstrapFiles files warn sink)).
Proof.
  unfold sanitizeBootstrapFiles. rewrite sanitize_from. cbn [fst app].
  apply Forall_forall. intros f Hin. apply list_elem_of_fmap in Hin as (g & -> & Hg).
  apply list_elem_of_In, filter_In in Hg as [_ Hu].
  by apply withTrimmedPath_trimmed.
Qed.

Lemma trimmedPath_usable (file : WorkspaceBootstrapFile Extra) :
  trimmedPath (path file) →
  usablePath (path file) = true ∧ withTrimmedPath file = file.
Proof.
  intros (p & Hp & Hne & Hh & Hl).
  assert (Ht : trim p = p) by (by apply trim_fixed).
  split.
  - unfold usablePath. rewrite Hp.
    destruct (forallb isWhiteSpace p) eqn:E; [|done].
    apply trim_nil_iff in E. congruence.
  - unfold withTrimmedPath, pathValue. destruct file as [n v x]. simpl in *.
    subst v. by rewrite Ht.
Qed.

Lemma sanitize_trimmed (files : list (WorkspaceBootstrapFile Extra)) (warn : option (Warn Sink)) (sink : Sink) :
  Forall (fun f => trimmedPath (path f)) files →
  sanitizeBootstrapFiles files warn sink = (files, sink).
Proof.
  intros Hall. unfold sanitizeBootstrapFiles.
  rewrite sanitize_from. simpl.
  induction Hall as [|f files Hf Hall IH]; [done|].
  destruct (trimmedPath_usable f Hf) as [Hu Hw]. simpl. rewrite Hu. simpl.
  injection IH as IH1 IH2. by rewrite Hw, IH1, IH2.
Qed.

(** X16.  Sanitizing is idempotent: a second pass over the files that
    [sanitizeBootstrapFiles] returned changes none of them and warns about
    none. *)
Theorem sanitize_is_idempotent
    (files : list (WorkspaceBootstrapFile Extra))
    (warn warn' : option (Warn Sink)) (sink sink' : Sink) :
  let sanitized := fst (sanitizeBootstrapFiles files warn sink) in
  sanitizeBootstrapFiles sanitized warn' sink' = (sanitized, sink').
Proof.
  cbv zeta.
  pose proof (sanitize_all_trimmed files warn sink) as Htrimmed.
  destruct (sanitizeBootstrapFiles files warn sink) as [sanitized sink1].
  by apply sanitize_trimmed.
Qed.

(** ** [applyContextModeFilter] *)

(** X17.  [applyContextModeFilter] never invents or reorders files: its
    result is a sublist of its input.  Outside lightweight mode (also when
    no mode is given) it returns its input whatever the run kind; in
    lightweight mode every file it returns is named HEARTBEAT.md, and for
    a run that is not a heartbeat it returns nothing.  Filtering twice is
    filtering once. *)
Theorem context_mode_filter_keeps_only_heartbeat_when_lightweight
    (files : list (WorkspaceBootstrapFile Extra))
    (contextMode : option BootstrapContextMode)
    (runKind : option BootstrapContextRunKind) :
  let out := applyContextModeFilter files contextMode runKind in
  sublist out files
  ∧ (contextMode ≠ Some Lightweight → out = files)
  ∧ (contextMode = Some Lightweight →
     Forall (fun f => name f = lit "HEARTBEAT.md") out
     ∧ (runKind ≠ Some Heartbeat → out = []))
  ∧ applyContextModeFilter out contextMode runKind = out.
Proof.
  cbv zeta. unfold applyContextModeFilter.
  assert (Hsub : ∀ (P : WorkspaceBootstrapFile Extra → bool) l, sublist (List.filter P l) l).
  { intros P l. induction l as [|x l IH]; simpl; [constructor|].
    destruct (P x); by constructor. }
  assert (Hidem : ∀ (P : WorkspaceBootstrapFile Extra → bool) l,
             List.filter P (List.filter P l) = List.filter P l).
  { intros P l. induction l as [|x l IH]; simpl; [done|].
    destruct (P x) eqn:E; simpl; rewrite ?E, IH; done. }
  destruct contextMode as [[|]|], runKind as [[| |]|]; simpl;
    (split; [try done; try apply sublist_nil_l; apply Hsub|]);
    (split; [done|]); (split; [|try done; apply Hidem]);
    intros Hl; try discriminate; (split; [|try done]);
    try (by constructor).
  apply Forall_forall. intros f Hin.
  apply list_elem_of_In, filter_In in Hin as [_ Hn]. by apply bool_decide_eq_true in Hn.
Qed.

End Facts.

(** ** [makeBootstrapWarn] *)

(** X18.  With the callback [makeBootstrapWarn] builds around a recording
    sink, [sanitizeBootstrapFiles] reports every file it drops exactly
    once, in order, and every report ends with the session label; when the
    caller gave no [warn], [makeBootstrapWarn] gives none and nothing is
    reported. *)
Theorem dropped_files_are_reported_with_the_session_label {Extra : Type}
    (files : list (WorkspaceBootstrapFile Extra)) (sessionLabel : JsString)
    (log : list JsString) :
  snd (sanitizeBootstrapFiles files (makeBootstrapWarn sessionLabel (Some record)) log)
  = log ++ map (fun f => skipMessage (name f)
                         ++ lit " (sessionKey=" ++ sessionLabel ++ lit ")")
             (List.filter (fun f => negb (usablePath (path f))) files)
  ∧ snd (sanitizeBootstrapFiles files (makeBootstrapWarn sessionLabel None) log) = log.
Proof.
  rewrite !sanitize_eq. cbn [snd].
  generalize (List.filter (fun f : WorkspaceBootstrapFile Extra =>
                             negb (usablePath (path f))) files).
  intros l. split; revert log; induction l as [|f l IH]; intros log;
    cbn [fold_left map].
  - by rewrite app_nil_r.
  - rewrite IH. unfold callWarn, makeBootstrapWarn, record.
    by rewrite <- app_assoc.
  - done.
  - apply IH.
Qed.

Lemma context_mode_filter_keeps_only_heartbeat_when_lightweight_witness :
  applyContextModeFilter exampleFiles (Some Lightweight) (Some Heartbeat)
  = [mkFile (lit "HEARTBEAT.md") (VString (lit "/ws/HEARTBEAT.md")) tt]
  ∧ applyContextModeFilter exampleFiles (Some Lightweight) None = []
  ∧ applyContextModeFilter exampleFiles None (Some Cron) = exampleFiles.
Proof.
  split; [vm_compute; reflexivity|]. split.
  - destruct (context_mode_filter_keeps_only_heartbeat_when_lightweight
                exampleFiles (Some Lightweight) None) as (_ & _ & H & _).
    destruct (H eq_refl) as [_ Hnone]. apply Hnone. discriminate.
  - destruct (context_mode_filter_keeps_only_heartbeat_when_lightweight
                exampleFiles None (Some Cron)) as (_ & H & _).
    apply H. discriminate.
Defined.

(** ** [resolveBootstrapFilesForRun] and [resolveBootstrapContextForRun] *)

Section Resolve.

Context {Extra Config Limit ContextFile Sink : Type}.
Context (c : Collaborators Extra Config Limit ContextFile Sink).

Lemma resolve_trimmed (params : RunParams Config Sink) (sink : Sink) :
  match resolveBootstrapFilesForRun c params sink with
  | (Returns files, _) => Forall (fun f => trimmedPath (path f)) files
  | (Throws _, sink') => sink' = sink
  end.
Proof.
  unfold resolveBootstrapFilesForRun. cbv zeta.
  destruct (_ ≫= _) as [updated|e]; [|done].
  pose proof (sanitize_all_trimmed updated (warn params) sink) as H.
  by destruct (sanitizeBootstrapFiles updated (warn params) sink).
Qed.

(** X19.  Whatever the loaders, the session filter and the hooks return,
    every file [resolveBootstrapFilesForRun] resolves with has a trimmed,
    non-empty string for a path.  When the loader, the session filter or
    the hook runner throws or rejects, the run rejects with that error
    without having warned about anything; when all three return, the run
    resolves, with the sanitized files of what the hook runner returned. *)
Theorem resolved_files_have_trimmed_paths (params : RunParams Config Sink) (sink : Sink) :
  let hookArgs filtered :=
    mkHookArgs (applyContextModeFilter filtered (contextMode params) (runKind params))
      (workspaceDir params) (config params) (sessionKey params) (sessionId params)
      (agentId params) in
  match resolveBootstrapFilesForRun c params sink with
  | (Returns files, _) => Forall (fun f => trimmedPath (path f)) files
  | (Throws _, sink') => sink' = sink
  end
  ∧ (∀ e, loadRawFiles c params = Throws e →
          resolveBootstrapFilesForRun c params sink = (Throws e, sink))
  ∧ (∀ rawFiles e,
       loadRawFiles c params = Returns rawFiles →
       filterBootstrapFilesForSession c rawFiles (effectiveSessionKey params) = Throws e →
       resolveBootstrapFilesForRun c params sink = (Throws e, sink))
  ∧ (∀ rawFiles filtered e,
       loadRawFiles c params = Returns rawFiles →
       filterBootstrapFilesForSession c rawFiles (effectiveSessionKey params)
       = Returns filtered →
       applyBootstrapHookOverrides c (hookArgs filtered) = Throws e →
       resolveBootstrapFilesForRun c params sink = (Throws e, sink))
  ∧ (∀ rawFiles filtered updated,
       loadRawFiles c params = Returns rawFiles →
       filterBootstrapFilesForSession c rawFiles (effectiveSessionKey params)
       = Returns filtered →
       applyBootstrapHookOverrides c (hookArgs filtered) = Returns updated →
       resolveBootstrapFilesForRun c params sink
       = (Returns (fst (sanitizeBootstrapFiles updated (warn params) sink)),
          snd (sanitizeBootstrapFiles updated (warn params) sink))).
Proof.
  cbv zeta. split; [|split; [|split; [|split]]].
  - unfold resolveBootstrapFilesForRun. cbv zeta.
    destruct (_ ≫= _) as [updated|e]; [|done].
    pose proof (sanitize_all_trimmed updated (warn params) sink) as H.
    by destruct (sanitizeBootstrapFiles updated (warn params) sink).
  - intros e Hload. unfold resolveBootstrapFilesForRun. cbv zeta.
    by rewrite Hload.
  - intros rawFiles e Hload Hfilter. unfold resolveBootstrapFilesForRun. cbv zeta.
    rewrite Hload. cbn [mbind Result_bind]. by rewrite Hfilter.
  - intros rawFiles filtered e Hload Hfilter Hhooks.
    unfold resolveBootstrapFilesForRun. cbv zeta.
    rewrite Hload. cbn [mbind Result_bind]. rewrite Hfilter.
    cbn [mbind Result_bind]. by rewrite Hhooks.
  - intros rawFiles filtered updated Hload Hfilter Hhooks.
    unfold resolveBootstrapFilesForRun. cbv zeta.
    rewrite Hload. cbn [mbind Result_bind]. rewrite Hfilter.
    cbn [mbind Result_bind]. rewrite Hhooks.
    by destruct (sanitizeBootstrapFiles updated (warn params) sink).
Qed.

(** X20.  In lightweight mode, for a run that is not a heartbeat, the files
    are still loaded and filtered by session, so a failure there still
    fails the run, but what was loaded is discarded: the hooks are handed
    an empty list, and the run resolves with what the hooks return for it,
    sanitized. *)
Theorem lightweight_run_hands_hooks_no_files (params : RunParams Config Sink) (sink : Sink) :
  contextMode params = Some Lightweight →
  runKind params ≠ Some Heartbeat →
  resolveBootstrapFilesForRun c params sink
  = match (rawFiles ← loadRawFiles c params ;
           filterBootstrapFilesForSession c rawFiles (effectiveSessionKey params)) with
    | Throws e => (Throws e, sink)
    | Returns _ =>
        match applyBootstrapHookOverrides c
                (mkHookArgs [] (workspaceDir params) (config params)
                   (sessionKey params) (sessionId params) (agentId params)) with
        | Throws e => (Throws e, sink)
        | Returns updated =>
            let '(sanitized, sink') :=
              sanitizeBootstrapFiles updated (warn params) sink in
            (Returns sanitized, sink')
        end
    end.
Proof.
  intros Hmode Hkind. unfold resolveBootstrapFilesForRun. cbv zeta.
  destruct (loadRawFiles c params) as [raw|e]; [|done]. cbn [mbind Result_bind].
  destruct (filterBootstrapFilesForSession c raw (effectiveSessionKey params))
    as [filtered|e]; [|done].
  assert (Hnone : applyContextModeFilter filtered (contextMode params) (runKind params) = []).
  { unfold applyContextModeFilter. rewrite Hmode. simpl.
    by destruct (runKind params) as [[| |]|]. }
  cbn [mbind Result_bind]. by rewrite Hnone.
Qed.

(** X21.  When [resolveBootstrapContextForRun] resolves, the bootstrap
    files it returns are the sanitized files of
    [resolveBootstrapFilesForRun], and the context files were built from
    exactly those files, after sanitizing, with the two limits resolved
    from the run's configuration and the run's [warn]; the context builder
    is never handed a file without a usable path.  When the files cannot be
    resolved, the run rejects with the same error. *)
Theorem context_is_built_from_the_sanitized_files
    (params : RunParams Config Sink) (sink : Sink) :
  match resolveBootstrapFilesForRun c params sink with
  | (Throws e, sink1) =>
      resolveBootstrapContextForRun c params sink = (Throws e, sink1)
  | (Returns files, sink1) =>
      match resolveBootstrapContextForRun c params sink with
      | (Returns (bootstrapFiles, contextFiles), sink2) =>
          bootstrapFiles = files
          ∧ Forall (fun f => trimmedPath (path f)) files
          ∧ ∃ maxChars totalMaxChars,
              resolveBootstrapMaxChars c (config params) = Returns maxChars
              ∧ resolveBootstrapTotalMaxChars c (config params) = Returns totalMaxChars
              ∧ buildBootstrapContextFiles c files maxChars totalMaxChars
                  (warn params) sink1
                = (Returns contextFiles, sink2)
      | (Throws _, _) => True
      end
  end.
Proof.
  unfold resolveBootstrapContextForRun.
  pose proof (resolve_trimmed params sink) as Hfiles.
  destruct (resolveBootstrapFilesForRun c params sink) as [[files|e] sink1]; [|done].
  destruct (resolveBootstrapMaxChars c (config params)) as [maxChars|e]; [|done].
  destruct (resolveBootstrapTotalMaxChars c (config params)) as [totalMaxChars|e]; [|done].
  destruct (buildBootstrapContextFiles c files maxChars totalMaxChars (warn params) sink1)
    as [[contextFiles|e] sink2] eqn:Eb; [|done].
  split; [done|]. split; [exact Hfiles|]. by exists maxChars, totalMaxChars.
Qed.

End Resolve.

Lemma resolved_files_have_trimmed_paths_witness :
  resolveBootstrapFilesForRun failingHooks (exampleRun None None) []
  = (Throws (mkThrown 9 "Error: hook failed"), []).
Proof.
  destruct (resolved_files_have_trimmed_paths failingHooks (exampleRun None None) [])
    as (_ & _ & _ & Hhooks & _).
  apply (Hhooks exampleFiles exampleFiles).
  - reflexivity.
  - reflexivity.
  - reflexivity.
Defined.

Lemma lightweight_run_hands_hooks_no_files_witness :
  resolveBootstrapFilesForRun exampleCollaborators
    (exampleRun (Some Lightweight) (Some Cron)) []
  = (Returns [],
     [skipMessage (lit "HOOK.md") ++ lit " (sessionKey=agent:main)"]).
Proof.
  rewrite (lightweight_run_hands_hooks_no_files exampleCollaborators
             (exampleRun (Some Lightweight) (Some Cron)) []).
  - vm_compute. reflexivity.
  - reflexivity.
  - discriminate.
Defined.

(** The same collaborators in full mode: two files survive, with trimmed
    paths, and the three files without a usable path are reported. *)
Example full_run_sanitizes_and_reports :
  resolveBootstrapFilesForRun exampleCollaborators (exampleRun None None) []
  = (Returns [mkFile (lit "AGENTS.md") (VString (lit "/ws/AGENTS.md")) tt;
              mkFile (lit "HEARTBEAT.md") (VString (lit "/ws/HEARTBEAT.md")) tt],
     map (fun n => skipMessage (lit n) ++ lit " (sessionKey=agent:main)")
       ["SOUL.md"; "TOOLS.md"; "HOOK.md"]).
Proof. vm_compute. reflexivity. Qed.

End BootstrapFacts.
